(** * The email processing daemon (src/daemon/email-daemon.ts)

    A shallow embedding of [EmailDaemon]: its persisted state, its in-memory
    retry queue, one processing cycle, the drain of the queue, and the
    load/save of the state file.  The collaborators the daemon talks to
    (rule store, mail sources, field extractor, reminder sink, file system,
    clock) are oracles over an abstract world; every call the daemon makes
    and every event it emits is appended to a trace. *)

From Stdlib Require Import ZArith List String Ascii Lia Bool DecimalString DecimalZ.
From stdpp Require Import base gmap sets list strings.

Local Open Scope string_scope.
Local Open Scope list_scope.
Local Open Scope Z_scope.

(** ** Data model *)

(** A JavaScript [Date]: a time value in milliseconds since the epoch, or
    the Invalid Date that [new Date(undefined)] and unparseable strings give. *)
Inductive JSDate : Type :=
| ValidDate (ms : Z)
| InvalidDate.

(** [a > b] on dates compares the time values; any comparison with an
    Invalid Date (NaN) is false. *)
Definition date_gt (a b : JSDate) : bool :=
  match a, b with
  | ValidDate x, ValidDate y => y <? x
  | _, _ => false
  end.

Definition valid_date (d : JSDate) : Prop :=
  match d with ValidDate _ => True | InvalidDate => False end.

(** A thrown JavaScript value: an [Error] with its message, or some other
    value; both may carry a [code] (as the rejections of fs do). *)
Inductive Exn : Type :=
| Error (message : string) (code : option string)
| NonError (code : option string).

(** [error instanceof Error ? error.message : 'Unknown error'] *)
Definition error_message (e : Exn) : string :=
  match e with
  | Error m _ => m
  | NonError _ => "Unknown error"
  end.

Definition error_code (e : Exn) : option string :=
  match e with
  | Error _ c => c
  | NonError c => c
  end.

Inductive Provider : Type := gmail | icloud.

Inductive Priority : Type := low | normal | high.

Record ReminderTemplate : Type := {
  titleTemplate : string;
  listName : string;
  priority : Priority;
  daysBeforeReminder : Z;
  timeOfDay : string
}.

Record EmailRule : Type := {
  name : string;
  providers : list Provider;
  prompt : string;
  reminderTemplate : ReminderTemplate
}.

(** [matchedRules] is optional: the daemon guards it with
    [email.matchedRules && email.matchedRules.length > 0]. *)
Record EmailData : Type := {
  id : string;
  from : string;
  subject : string;
  body : string;
  date : JSDate;
  provider : Provider;
  processed : bool;
  matchedRules : option (list string)
}.

(** [Record<string, any>]: the daemon only passes the fields on. *)
Definition ExtractedData : Type := list (string * string).

Record ProcessingResult : Type := {
  emailId : string;
  ruleName : string;
  extractedFields : ExtractedData;
  confidence : Z
}.

Record ReminderCreationResult : Type := {
  success : bool;
  reminderId : option string;
  error : option string
}.

Record DaemonConfig : Type := {
  intervalMinutes : Z;
  maxEmailsPerScan : Z;
  retryAttempts : Z;
  stateFilePath : string;
  enableGmail : bool;
  enableIcloud : bool
}.

Record DaemonState : Type := {
  lastProcessedTimestamp : JSDate;
  processedEmailIds : gset string;
  totalEmailsProcessed : Z;
  totalRemindersCreated : Z;
  lastErrorTimestamp : option JSDate;
  lastErrorMessage : option string
}.

Record ProcessingQueueItem : Type := {
  email : EmailData;
  rules : list EmailRule;
  attempts : Z;
  lastAttemptTime : option JSDate;
  item_error : option string
}.

(** The object [saveState] hands to [JSON.stringify], which is also what
    [JSON.parse] gives back for a file of that shape: every key may be
    absent ([undefined] values are not written). *)
Record SavedJson : Type := {
  j_lastProcessedTimestamp : option string;
  j_processedEmailIds : option (list string);
  j_totalEmailsProcessed : option Z;
  j_totalRemindersCreated : option Z;
  j_lastErrorTimestamp : option string;
  j_lastErrorMessage : option string
}.

(** What reading the state file gives: [fs.readFile] rejects, or it returns a
    text on which [JSON.parse] throws ([None]) or succeeds. *)
Inductive ReadOutcome : Type :=
| ReadRejects (e : Exn)
| ReadText (parsed : option SavedJson).

(** Events of the [EventEmitter]. *)
Inductive Event : Type :=
| started
| stopped
| processingComplete (emailsProcessed processingTime queueSize : Z)
| reminderCreated (emailId : string) (reminderId : option string)
                  (ruleName : string) (confidence : Z)
| processingFailed (emailId : string) (error : string) (attempts : Z)
| processingError (e : Exn)
| error_event (e : Exn).

(** The trace: calls to collaborators, in the order they are made, and
    emitted events. *)
Inductive Action : Type :=
| CallLoadRules
| CallGetEmails (p : Provider) (limit : Z)
| CallProcessMultipleEmails (e : EmailData) (rs : list EmailRule)
| CallCreateReminder (fields : ExtractedData) (template : ReminderTemplate)
                     (sourceEmailId : string)
| CallReadFile
| CallWriteFile (content : SavedJson)
| CallInitialize (p : Provider)
| CallTestAccess
| Emit (ev : Event).

(** Result of a call that may throw. *)
Inductive Res (A : Type) : Type :=
| Ok (a : A)
| Throw (e : Exn).
Arguments Ok {A} a.
Arguments Throw {A} e.

(** ** The collaborators, as oracles over a world [W] *)

Record Env (W : Type) : Type := {
  (** [Date.now()] and [new Date()] *)
  clock : W -> Z * W;
  (** [ObsidianReader.loadRules] *)
  loadRules : W -> Res (list EmailRule) * W;
  gmail_initialize : W -> Res unit * W;
  gmail_isReady : W -> bool;
  gmail_getEmails : Z -> W -> Res (list EmailData) * W;
  icloud_initialize : W -> Res unit * W;
  icloud_isReady : W -> bool;
  icloud_getEmails : Z -> W -> Res (list EmailData) * W;
  (** [EmailFilter.doesEmailMatchRule] *)
  doesEmailMatchRule : EmailData -> EmailRule -> bool;
  (** [ClaudeProcessor.processMultipleEmails] *)
  processMultipleEmails :
    list EmailData -> list EmailRule -> W -> Res (list ProcessingResult) * W;
  (** [AppleReminders.testAccess] *)
  testAccess : W -> (bool * option string) * W;
  (** [AppleReminders.createReminderFromExtractedData] *)
  createReminderFromExtractedData :
    ExtractedData -> ReminderTemplate -> string -> W ->
    Res ReminderCreationResult * W;
  (** [fs.readFile] followed by [JSON.parse] *)
  readFile : W -> ReadOutcome * W;
  (** [fs.writeFile] of the stringified object *)
  writeFile : SavedJson -> W -> Res unit * W;
  (** [Date.prototype.toISOString] on a valid time value *)
  toISOString : Z -> string;
  (** [new Date(s)] on a string *)
  parseDate : string -> JSDate
}.

Arguments clock {W} _ _.
Arguments loadRules {W} _ _.
Arguments gmail_initialize {W} _ _.
Arguments gmail_isReady {W} _ _.
Arguments gmail_getEmails {W} _ _ _.
Arguments icloud_initialize {W} _ _.
Arguments icloud_isReady {W} _ _.
Arguments icloud_getEmails {W} _ _ _.
Arguments doesEmailMatchRule {W} _ _ _.
Arguments processMultipleEmails {W} _ _ _ _.
Arguments testAccess {W} _ _.
Arguments createReminderFromExtractedData {W} _ _ _ _ _.
Arguments readFile {W} _ _.
Arguments writeFile {W} _ _ _.
Arguments toISOString {W} _ _.
Arguments parseDate {W} _ _.

(** ** The daemon object *)

Record Daemon : Type := {
  config : DaemonConfig;
  state : DaemonState;
  _isRunning : bool;
  (** the delay passed to [setInterval], in milliseconds *)
  intervalId : option Z;
  processingQueue : list ProcessingQueueItem;
  isProcessing : bool;
  (** whether [this.gmailClient] / [this.icloudClient] is defined *)
  gmailClient : bool;
  icloudClient : bool
}.

(** Machine state: the world, the daemon object and the trace so far. *)
Record St (W : Type) : Type := mkSt {
  world : W;
  dmn : Daemon;
  log : list Action
}.
Arguments mkSt {W} _ _ _.
Arguments world {W} _.
Arguments dmn {W} _.
Arguments log {W} _.

(** Field updates of the daemon object. *)
Definition set_state (s : DaemonState) (d : Daemon) : Daemon :=
  {| config := config d; state := s; _isRunning := _isRunning d;
     intervalId := intervalId d; processingQueue := processingQueue d;
     isProcessing := isProcessing d; gmailClient := gmailClient d;
     icloudClient := icloudClient d |}.

Definition set_config (c : DaemonConfig) (d : Daemon) : Daemon :=
  {| config := c; state := state d; _isRunning := _isRunning d;
     intervalId := intervalId d; processingQueue := processingQueue d;
     isProcessing := isProcessing d; gmailClient := gmailClient d;
     icloudClient := icloudClient d |}.

Definition set_isRunning (b : bool) (d : Daemon) : Daemon :=
  {| config := config d; state := state d; _isRunning := b;
     intervalId := intervalId d; processingQueue := processingQueue d;
     isProcessing := isProcessing d; gmailClient := gmailClient d;
     icloudClient := icloudClient d |}.

Definition set_intervalId (i : option Z) (d : Daemon) : Daemon :=
  {| config := config d; state := state d; _isRunning := _isRunning d;
     intervalId := i; processingQueue := processingQueue d;
     isProcessing := isProcessing d; gmailClient := gmailClient d;
     icloudClient := icloudClient d |}.

Definition set_processingQueue (q : list ProcessingQueueItem) (d : Daemon) : Daemon :=
  {| config := config d; state := state d; _isRunning := _isRunning d;
     intervalId := intervalId d; processingQueue := q;
     isProcessing := isProcessing d; gmailClient := gmailClient d;
     icloudClient := icloudClient d |}.

Definition set_isProcessing (b : bool) (d : Daemon) : Daemon :=
  {| config := config d; state := state d; _isRunning := _isRunning d;
     intervalId := intervalId d; processingQueue := processingQueue d;
     isProcessing := b; gmailClient := gmailClient d;
     icloudClient := icloudClient d |}.

Definition set_gmailClient (b : bool) (d : Daemon) : Daemon :=
  {| config := config d; state := state d; _isRunning := _isRunning d;
     intervalId := intervalId d; processingQueue := processingQueue d;
     isProcessing := isProcessing d; gmailClient := b;
     icloudClient := icloudClient d |}.

Definition set_icloudClient (b : bool) (d : Daemon) : Daemon :=
  {| config := config d; state := state d; _isRunning := _isRunning d;
     intervalId := intervalId d; processingQueue := processingQueue d;
     isProcessing := isProcessing d; gmailClient := gmailClient d;
     icloudClient := b |}.

(** Field updates of [this.state]. *)
Definition set_lastProcessedTimestamp (t : JSDate) (s : DaemonState) : DaemonState :=
  {| lastProcessedTimestamp := t; processedEmailIds := processedEmailIds s;
     totalEmailsProcessed := totalEmailsProcessed s;
     totalRemindersCreated := totalRemindersCreated s;
     lastErrorTimestamp := lastErrorTimestamp s;
     lastErrorMessage := lastErrorMessage s |}.

(** [this.state.processedEmailIds.add(i); this.state.totalEmailsProcessed++] *)
Definition mark_processed (i : string) (s : DaemonState) : DaemonState :=
  {| lastProcessedTimestamp := lastProcessedTimestamp s;
     processedEmailIds := {[ i ]} ∪ processedEmailIds s;
     totalEmailsProcessed := totalEmailsProcessed s + 1;
     totalRemindersCreated := totalRemindersCreated s;
     lastErrorTimestamp := lastErrorTimestamp s;
     lastErrorMessage := lastErrorMessage s |}.

(** [this.state.totalRemindersCreated++] *)
Definition count_reminder (s : DaemonState) : DaemonState :=
  {| lastProcessedTimestamp := lastProcessedTimestamp s;
     processedEmailIds := processedEmailIds s;
     totalEmailsProcessed := totalEmailsProcessed s;
     totalRemindersCreated := totalRemindersCreated s + 1;
     lastErrorTimestamp := lastErrorTimestamp s;
     lastErrorMessage := lastErrorMessage s |}.

Definition record_error (t : JSDate) (m : string) (s : DaemonState) : DaemonState :=
  {| lastProcessedTimestamp := lastProcessedTimestamp s;
     processedEmailIds := processedEmailIds s;
     totalEmailsProcessed := totalEmailsProcessed s;
     totalRemindersCreated := totalRemindersCreated s;
     lastErrorTimestamp := Some t;
     lastErrorMessage := Some m |}.

(** [this.state.processedEmailIds.has(i)] *)
Definition has (s : DaemonState) (i : string) : bool :=
  bool_decide (i ∈ processedEmailIds s).

(** ** A state and exception monad for the daemon's methods *)

Definition M (W A : Type) : Type := St W -> Res A * St W.

Definition ret {W A} (a : A) : M W A := fun st => (Ok a, st).

Definition bind {W A B} (m : M W A) (k : A -> M W B) : M W B :=
  fun st =>
    match m st with
    | (Ok a, st') => k a st'
    | (Throw e, st') => (Throw e, st')
    end.

Definition throw {W A} (e : Exn) : M W A := fun st => (Throw e, st).

(** [try { m } catch (error) { h error }] *)
Definition try_catch {W A} (m : M W A) (h : Exn -> M W A) : M W A :=
  fun st =>
    match m st with
    | (Ok a, st') => (Ok a, st')
    | (Throw e, st') => h e st'
    end.

(** [try { m } finally { f }]: [f] runs on every way out of [m]. *)
Definition try_finally {W A} (m : M W A) (f : M W unit) : M W A :=
  fun st =>
    let '(r, st') := m st in
    match f st' with
    | (Ok _, st'') => (r, st'')
    | (Throw e, st'') => (Throw e, st'')
    end.

Definition get_dmn {W} : M W Daemon := fun st => (Ok (dmn st), st).

Definition get_world {W} : M W W := fun st => (Ok (world st), st).

Definition modify {W} (f : Daemon -> Daemon) : M W unit :=
  fun st => (Ok tt, mkSt (world st) (f (dmn st)) (log st)).

Definition modify_state {W} (f : DaemonState -> DaemonState) : M W unit :=
  modify (fun d => set_state (f (state d)) d).

(** Append one action to the trace. *)
Definition tell {W} (a : Action) : M W unit :=
  fun st => (Ok tt, mkSt (world st) (dmn st) (log st ++ [a])).

(** A call to a collaborator that cannot throw. *)
Definition call {W A} (f : W -> A * W) : M W A :=
  fun st => let '(a, w) := f (world st) in (Ok a, mkSt w (dmn st) (log st)).

(** A call to a collaborator whose promise may reject. *)
Definition call_res {W A} (f : W -> Res A * W) : M W A :=
  fun st => let '(r, w) := f (world st) in (r, mkSt w (dmn st) (log st)).

Definition exec {W A} (m : M W A) (st : St W) : St W := snd (m st).

Definition result {W A} (m : M W A) (st : St W) : Res A := fst (m st).

Declare Scope daemon_scope.
Delimit Scope daemon_scope with daemon.
Notation "x <- m ;; k" := (bind m (fun x => k))
  (at level 100, m at next level, right associativity) : daemon_scope.
Notation "m ;; k" := (bind m (fun _ => k))
  (at level 100, right associativity) : daemon_scope.
Local Open Scope daemon_scope.

(** [for (const x of l) { f x }] *)
Fixpoint for_each {W A} (f : A -> M W unit) (l : list A) : M W unit :=
  match l with
  | [] => ret tt
  | x :: l' => f x ;; for_each f l'
  end.

(** ** Construction *)

(** The part of [Configuration] the daemon reads. [cfg_gmail] and
    [cfg_icloud] say whether the provider sections are present. *)
Record Configuration : Type := {
  obsidianVaultPath : string;
  cfg_gmail : bool;
  cfg_icloud : bool;
  daemon_intervalMinutes : Z;
  daemon_maxEmailsPerScan : Z;
  daemon_retryAttempts : Z
}.

(** [Partial<DaemonConfig>] *)
Record PartialDaemonConfig : Type := {
  p_intervalMinutes : option Z;
  p_maxEmailsPerScan : option Z;
  p_retryAttempts : option Z;
  p_stateFilePath : option string;
  p_enableGmail : option bool;
  p_enableIcloud : option bool
}.

Definition no_override : PartialDaemonConfig :=
  {| p_intervalMinutes := None; p_maxEmailsPerScan := None;
     p_retryAttempts := None; p_stateFilePath := None;
     p_enableGmail := None; p_enableIcloud := None |}.

(** [{ ...c, ...p }] *)
Definition merge_config (c : DaemonConfig) (p : PartialDaemonConfig) : DaemonConfig :=
  {| intervalMinutes := default (intervalMinutes c) (p_intervalMinutes p);
     maxEmailsPerScan := default (maxEmailsPerScan c) (p_maxEmailsPerScan p);
     retryAttempts := default (retryAttempts c) (p_retryAttempts p);
     stateFilePath := default (stateFilePath c) (p_stateFilePath p);
     enableGmail := default (enableGmail c) (p_enableGmail p);
     enableIcloud := default (enableIcloud c) (p_enableIcloud p) |}.

(** The state the constructor installs (lines 72-77). *)
Definition initial_state : DaemonState :=
  {| lastProcessedTimestamp := ValidDate 0;
     processedEmailIds := ∅;
     totalEmailsProcessed := 0;
     totalRemindersCreated := 0;
     lastErrorTimestamp := None;
     lastErrorMessage := None |}.

(** The constructor.  [path.join] also normalises the path it builds;
    [stateFilePath] stands here for the plain concatenation, and no
    statement below depends on its value: the state file is reached
    through [readFile] and [writeFile] of the environment. *)
Definition constructor (configuration : Configuration)
    (daemonConfig : PartialDaemonConfig) : Daemon :=
  let c := merge_config
    {| intervalMinutes := daemon_intervalMinutes configuration;
       maxEmailsPerScan := daemon_maxEmailsPerScan configuration;
       retryAttempts := daemon_retryAttempts configuration;
       stateFilePath := obsidianVaultPath configuration +:+ "/.email-daemon-state.json";
       enableGmail := cfg_gmail configuration;
       enableIcloud := cfg_icloud configuration |} daemonConfig in
  {| config := c;
     state := initial_state;
     _isRunning := false;
     intervalId := None;
     processingQueue := [];
     isProcessing := false;
     gmailClient := enableGmail c && cfg_gmail configuration;
     icloudClient := enableIcloud c && cfg_icloud configuration |}.

(** ** The methods of [EmailDaemon] *)

Section Methods.

Context {W : Type} (E : Env W).

Definition emit (ev : Event) : M W unit := tell (Emit ev).

(** [new Date()] *)
Definition new_Date : M W JSDate :=
  t <- call (clock E) ;; ret (ValidDate t).

(** *** EmailFilter.filterEmails *)

Definition findMatchingRules (e : EmailData) (rs : list EmailRule) : list EmailRule :=
  List.filter (doesEmailMatchRule E e) rs.

Definition filterEmails (emails : list EmailData) (rs : list EmailRule) : list EmailData :=
  if (length emails =? 0)%nat || (length rs =? 0)%nat then emails
  else
    map (fun e =>
           {| id := id e; from := from e; subject := subject e; body := body e;
              date := date e; provider := provider e;
              processed := false;
              matchedRules := Some (map name (findMatchingRules e rs)) |})
        emails.

(** [email.matchedRules && email.matchedRules.length > 0] *)
Definition has_matchedRules (e : EmailData) : bool :=
  match matchedRules e with
  | Some (_ :: _) => true
  | _ => false
  end.

(** *** State persistence *)

(** The object built in [saveState]; [None] when a [toISOString] call
    throws a RangeError (Invalid Date), which the [catch] of [saveState]
    swallows before anything is written.  [Array.from] lists the ids in
    the order they were added to the set; here they are listed in the
    order of [elements], the set being kept without insertion order.  The
    set that [loadState] rebuilds from the array is the same for both
    orders; the order of the written array itself is not modelled. *)
Definition stateToSave (s : DaemonState) : option SavedJson :=
  match lastProcessedTimestamp s with
  | InvalidDate => None
  | ValidDate ms =>
    match lastErrorTimestamp s with
    | Some InvalidDate => None
    | Some (ValidDate ems) =>
      Some {| j_lastProcessedTimestamp := Some (toISOString E ms);
              j_processedEmailIds := Some (elements (processedEmailIds s));
              j_totalEmailsProcessed := Some (totalEmailsProcessed s);
              j_totalRemindersCreated := Some (totalRemindersCreated s);
              j_lastErrorTimestamp := Some (toISOString E ems);
              j_lastErrorMessage := lastErrorMessage s |}
    | None =>
      Some {| j_lastProcessedTimestamp := Some (toISOString E ms);
              j_processedEmailIds := Some (elements (processedEmailIds s));
              j_totalEmailsProcessed := Some (totalEmailsProcessed s);
              j_totalRemindersCreated := Some (totalRemindersCreated s);
              j_lastErrorTimestamp := None;
              j_lastErrorMessage := lastErrorMessage s |}
    end
  end.

Definition saveState : M W unit :=
  d <- get_dmn ;;
  match stateToSave (state d) with
  | None => ret tt
  | Some j =>
    tell (CallWriteFile j) ;;
    try_catch (call_res (writeFile E j)) (fun _ => ret tt)
  end.

(** [new Date(x)] for a saved key [x] that is a string or absent. *)
Definition date_of_saved (x : option string) : JSDate :=
  match x with
  | Some s => parseDate E s
  | None => InvalidDate
  end.

(** The object assigned to [this.state] in [loadState]. *)
Definition stateFromSaved (j : SavedJson) : DaemonState :=
  {| lastProcessedTimestamp := date_of_saved (j_lastProcessedTimestamp j);
     processedEmailIds := list_to_set (default [] (j_processedEmailIds j));
     totalEmailsProcessed := default 0 (j_totalEmailsProcessed j);
     totalRemindersCreated := default 0 (j_totalRemindersCreated j);
     lastErrorTimestamp :=
       match j_lastErrorTimestamp j with
       | Some s => if (s =? "")%string then None else Some (parseDate E s)
       | None => None
       end;
     lastErrorMessage := j_lastErrorMessage j |}.

Definition loadState : M W unit :=
  tell CallReadFile ;;
  r <- call (readFile E) ;;
  match r with
  | ReadRejects _ => ret tt
  | ReadText None => ret tt
  | ReadText (Some j) => modify (set_state (stateFromSaved j))
  end.

(** *** Fetching *)

(** Both [isReady] checks run before any fetched promise settles, so they
    read the same world; the two fetches, issued together and awaited with
    [Promise.all], are sequenced here in the order of [fetchPromises]. *)

Definition fetchNewEmails : M W (list EmailData) :=
  d <- get_dmn ;;
  w <- get_world ;;
  fromGmail <-
    (if gmailClient d && gmail_isReady E w then
       let maxResults := maxEmailsPerScan (config d) / 2 in
       tell (CallGetEmails gmail maxResults) ;;
       try_catch (call_res (gmail_getEmails E maxResults)) (fun _ => ret [])
     else ret []) ;;
  fromIcloud <-
    (if icloudClient d && icloud_isReady E w then
       let limit := maxEmailsPerScan (config d) / 2 in
       tell (CallGetEmails icloud limit) ;;
       try_catch (call_res (icloud_getEmails E limit)) (fun _ => ret [])
     else ret []) ;;
  let allEmails := fromGmail ++ fromIcloud in
  ret (List.filter
         (fun e => negb (has (state d) (id e)) &&
                   date_gt (date e) (lastProcessedTimestamp (state d)))
         allEmails).

(** *** The queue *)

Definition new_item (e : EmailData) (rs : list EmailRule) : ProcessingQueueItem :=
  {| email := e; rules := rs; attempts := 0;
     lastAttemptTime := None; item_error := None |}.

Definition addToQueue (e : EmailData) (rs : list EmailRule) : M W unit :=
  modify (fun d => set_processingQueue (processingQueue d ++ [new_item e rs]) d).

(** The loop of lines 264-269. *)
Definition enqueueMatched (matchedEmails : list EmailData) (rs : list EmailRule)
    : M W unit :=
  for_each
    (fun e =>
       d <- get_dmn ;;
       if negb (has (state d) (id e)) then addToQueue e rs else ret tt)
    matchedEmails.

(** The loop of [processQueueItem] over the extraction results. *)
Fixpoint processResults (e : EmailData) (rs : list EmailRule)
    (results : list ProcessingResult) : M W unit :=
  match results with
  | [] => ret tt
  | r :: rest =>
    if confidence r <? 25 then processResults e rs rest
    else
      match find (fun rule => (name rule =? ruleName r)%string) rs with
      | None => processResults e rs rest
      | Some rule =>
        tell (CallCreateReminder (extractedFields r) (reminderTemplate rule) (id e)) ;;
        reminderResult <-
          call_res (createReminderFromExtractedData E
                      (extractedFields r) (reminderTemplate rule) (id e)) ;;
        if success reminderResult then
          modify_state count_reminder ;;
          emit (reminderCreated (id e) (reminderId reminderResult)
                                (ruleName r) (confidence r)) ;;
          processResults e rs rest
        else
          throw (Error (default "" (error reminderResult)) None)
      end
  end.

Definition processQueueItem (item : ProcessingQueueItem) : M W unit :=
  tell (CallProcessMultipleEmails (email item) (rules item)) ;;
  processingResults <-
    call_res (processMultipleEmails E [email item] (rules item)) ;;
  processResults (email item) (rules item) processingResults.

(** The item after [item.attempts++; item.lastAttemptTime = new Date();
    item.error = ...]. *)
Definition failed_item (item : ProcessingQueueItem) (t : JSDate) (m : string)
    : ProcessingQueueItem :=
  {| email := email item; rules := rules item;
     attempts := attempts item + 1;
     lastAttemptTime := Some t; item_error := Some m |}.

(** The body of the loop of [processQueue] (lines 350-374). *)
Definition processOne (item : ProcessingQueueItem) : M W unit :=
  try_catch
    (processQueueItem item ;;
     modify_state (mark_processed (id (email item))))
    (fun err =>
       t <- new_Date ;;
       let item' := failed_item item t (error_message err) in
       d <- get_dmn ;;
       if attempts item' <? retryAttempts (config d) then
         modify (fun d => set_processingQueue (processingQueue d ++ [item']) d)
       else
         emit (processingFailed (id (email item')) (error_message err)
                                (attempts item'))).

Definition processQueue : M W unit :=
  d <- get_dmn ;;
  let itemsToProcess := processingQueue d in
  modify (set_processingQueue []) ;;
  for_each processOne itemsToProcess.

(** *** One processing cycle *)

Definition processEmailsOnce : M W unit :=
  d <- get_dmn ;;
  if isProcessing d then ret tt
  else
    modify (set_isProcessing true) ;;
    startTime <- call (clock E) ;;
    try_finally
      (try_catch
         (tell CallLoadRules ;;
          rs <- call_res (loadRules E) ;;
          allEmails <- fetchNewEmails ;;
          if (length allEmails =? 0)%nat then ret tt
          else
            let filteredEmails := filterEmails allEmails rs in
            let matchedEmails := List.filter has_matchedRules filteredEmails in
            enqueueMatched matchedEmails rs ;;
            processQueue ;;
            t <- new_Date ;;
            modify_state (set_lastProcessedTimestamp t) ;;
            endTime <- call (clock E) ;;
            let processingTime := endTime - startTime in
            d' <- get_dmn ;;
            emit (processingComplete (Z.of_nat (length matchedEmails))
                                     processingTime
                                     (Z.of_nat (length (processingQueue d')))))
         (fun err =>
            t <- new_Date ;;
            modify_state (record_error t (error_message err)) ;;
            emit (processingError err)))
      (modify (set_isProcessing false) ;;
       saveState).

(** *** Lifecycle *)

Definition initializeEmailClients : M W unit :=
  d <- get_dmn ;;
  (if gmailClient d then
     tell (CallInitialize gmail) ;;
     try_catch (call_res (gmail_initialize E))
               (fun _ => modify (set_gmailClient false))
   else ret tt) ;;
  (if icloudClient d then
     tell (CallInitialize icloud) ;;
     try_catch (call_res (icloud_initialize E))
               (fun _ => modify (set_icloudClient false))
   else ret tt) ;;
  d' <- get_dmn ;;
  if negb (gmailClient d') && negb (icloudClient d') then
    throw (Error "No email clients available - check configuration" None)
  else ret tt.

Definition testAppleRemindersAccess : M W unit :=
  tell CallTestAccess ;;
  accessResult <- call (testAccess E) ;;
  if fst accessResult then ret tt
  else
    throw (Error ("Apple Reminders not accessible: "
                  +:+ default "undefined" (snd accessResult)) None).

Definition start : M W unit :=
  d <- get_dmn ;;
  if _isRunning d then ret tt
  else
    try_catch
      (loadState ;;
       initializeEmailClients ;;
       testAppleRemindersAccess ;;
       modify (set_isRunning true) ;;
       processEmailsOnce ;;
       modify (fun d => set_intervalId
                          (Some (intervalMinutes (config d) * 60 * 1000)) d) ;;
       emit started)
      (fun err =>
         modify (set_isRunning false) ;;
         emit (error_event err) ;;
         throw err).

Definition forceProcessing : M W unit :=
  d <- get_dmn ;;
  if negb (_isRunning d) then throw (Error "Daemon is not running" None)
  else processEmailsOnce.

(** The callback armed by [setInterval]. *)
Definition timer_tick : M W unit :=
  d <- get_dmn ;;
  if negb (isProcessing d) then processEmailsOnce else ret tt.

Definition updateConfig (newConfig : PartialDaemonConfig) : M W unit :=
  modify (fun d => set_config (merge_config (config d) newConfig) d) ;;
  d <- get_dmn ;;
  match p_intervalMinutes newConfig, intervalId d with
  | Some n, Some _ =>
    if _isRunning d && negb (n =? 0) then
      modify (set_intervalId (Some (intervalMinutes (config d) * 60 * 1000)))
    else ret tt
  | _, _ => ret tt
  end.

End Methods.

(** ** A scripted world, for running the daemon on concrete inputs *)

Module Scripted.

(** The answers the collaborators will give, in order.  A script that has
    run out answers with the empty list (mail, extraction) or with a
    successful creation (sink). *)
Record World : Type := {
  w_time : Z;
  w_rules : Res (list EmailRule);
  w_gmail_ready : bool;
  w_icloud_ready : bool;
  w_gmail : list (Res (list EmailData));
  w_icloud : list (Res (list EmailData));
  w_extract : list (Res (list ProcessingResult));
  w_sink : list (Res ReminderCreationResult);
  w_file : ReadOutcome
}.

Definition tick (w : World) : Z * World :=
  (w_time w,
   {| w_time := w_time w + 1; w_rules := w_rules w;
      w_gmail_ready := w_gmail_ready w; w_icloud_ready := w_icloud_ready w;
      w_gmail := w_gmail w; w_icloud := w_icloud w;
      w_extract := w_extract w; w_sink := w_sink w; w_file := w_file w |}).

Definition next_gmail (w : World) : Res (list EmailData) * World :=
  (match w_gmail w with [] => Ok [] | r :: _ => r end,
   {| w_time := w_time w; w_rules := w_rules w;
      w_gmail_ready := w_gmail_ready w; w_icloud_ready := w_icloud_ready w;
      w_gmail := tl (w_gmail w); w_icloud := w_icloud w;
      w_extract := w_extract w; w_sink := w_sink w; w_file := w_file w |}).

Definition next_icloud (w : World) : Res (list EmailData) * World :=
  (match w_icloud w with [] => Ok [] | r :: _ => r end,
   {| w_time := w_time w; w_rules := w_rules w;
      w_gmail_ready := w_gmail_ready w; w_icloud_ready := w_icloud_ready w;
      w_gmail := w_gmail w; w_icloud := tl (w_icloud w);
      w_extract := w_extract w; w_sink := w_sink w; w_file := w_file w |}).

Definition next_extract (w : World) : Res (list ProcessingResult) * World :=
  (match w_extract w with [] => Ok [] | r :: _ => r end,
   {| w_time := w_time w; w_rules := w_rules w;
      w_gmail_ready := w_gmail_ready w; w_icloud_ready := w_icloud_ready w;
      w_gmail := w_gmail w; w_icloud := w_icloud w;
      w_extract := tl (w_extract w); w_sink := w_sink w; w_file := w_file w |}).

Definition created (rid : string) : ReminderCreationResult :=
  {| success := true; reminderId := Some rid; error := None |}.

Definition not_created (msg : string) : ReminderCreationResult :=
  {| success := false; reminderId := None; error := Some msg |}.

Definition next_sink (w : World) : Res ReminderCreationResult * World :=
  (match w_sink w with [] => Ok (created "R") | r :: _ => r end,
   {| w_time := w_time w; w_rules := w_rules w;
      w_gmail_ready := w_gmail_ready w; w_icloud_ready := w_icloud_ready w;
      w_gmail := w_gmail w; w_icloud := w_icloud w;
      w_extract := w_extract w; w_sink := tl (w_sink w); w_file := w_file w |}).

(** The scripted matcher: a rule matches the mails whose subject is the
    rule's prompt. *)
Definition subject_is_prompt (e : EmailData) (r : EmailRule) : bool :=
  (subject e =? prompt r)%string.

(** A stand-in for the ISO-8601 text of a time value: the letter t and
    the decimal numeral of the milliseconds.  The daemon never looks into
    the text; only the two laws of [iso_codec] are asked of it. *)
Definition numeral (ms : Z) : string :=
  String "t"%char (DecimalString.NilEmpty.string_of_int (Z.to_int ms)).

Definition of_numeral (s : string) : JSDate :=
  match s with
  | String "t"%char digits =>
    match DecimalString.NilEmpty.int_of_string digits with
    | Some d => ValidDate (Z.of_int d)
    | None => InvalidDate
    end
  | _ => InvalidDate
  end.

Definition env : Env World :=
  {| clock := tick;
     loadRules := fun w => (w_rules w, w);
     gmail_initialize := fun w => (Ok tt, w);
     gmail_isReady := w_gmail_ready;
     gmail_getEmails := fun _ => next_gmail;
     icloud_initialize := fun w => (Ok tt, w);
     icloud_isReady := w_icloud_ready;
     icloud_getEmails := fun _ => next_icloud;
     doesEmailMatchRule := subject_is_prompt;
     processMultipleEmails := fun _ _ => next_extract;
     testAccess := fun w => ((true, None), w);
     createReminderFromExtractedData := fun _ _ _ => next_sink;
     readFile := fun w => (w_file w, w);
     writeFile := fun _ w => (Ok tt, w);
     toISOString := numeral;
     parseDate := of_numeral |}.

Definition template : ReminderTemplate :=
  {| titleTemplate := "Pagar {{monto}}"; listName := "Facturas";
     priority := normal; daysBeforeReminder := 3; timeOfDay := "09:00" |}.

Definition rule (n : string) : EmailRule :=
  {| name := n; providers := [gmail; icloud]; prompt := n;
     reminderTemplate := template |}.

(** A mail as a provider returns it: not yet matched. *)
Definition mail (i : string) (subj : string) (ms : Z) : EmailData :=
  {| id := i; from := "admin@edificio.cl"; subject := subj; body := "";
     date := ValidDate ms; provider := gmail; processed := false;
     matchedRules := Some [] |}.

(** The mail [e] as [filterEmails] hands it on when rule [rn] matched. *)
Definition matched_as (e : EmailData) (rn : string) : EmailData :=
  {| id := id e; from := from e; subject := subject e; body := body e;
     date := date e; provider := provider e; processed := false;
     matchedRules := Some [rn] |}.

Definition extraction (i rn : string) (c : Z) : ProcessingResult :=
  {| emailId := i; ruleName := rn;
     extractedFields := [("monto", "1000"); ("vencimiento", "2025-03-01")];
     confidence := c |}.

Definition configuration : Configuration :=
  {| obsidianVaultPath := "/vault"; cfg_gmail := true; cfg_icloud := true;
     daemon_intervalMinutes := 30; daemon_maxEmailsPerScan := 50;
     daemon_retryAttempts := 3 |}.

(** A running daemon, freshly constructed. *)
Definition running : Daemon := set_isRunning true (constructor configuration no_override).

Definition machine (w : World) (d : Daemon) : St World := mkSt w d [].

End Scripted.

(** ** Vocabulary of the statements *)

Section Vocabulary.

Context {W : Type} (E : Env W).

(** The actions a computation appends to the trace when run from [st]. *)
Definition new_log {A} (m : M W A) (st : St W) : list Action :=
  drop (length (log st)) (log (exec m st)).

(** A mail source is ready when its client exists and reports ready. *)
Definition gmail_ready (st : St W) : bool :=
  gmailClient (dmn st) && gmail_isReady E (world st).

Definition icloud_ready (st : St W) : bool :=
  icloudClient (dmn st) && icloud_isReady E (world st).


(** The fetch requests of one cycle: one per ready source, each for half
    of [maxEmailsPerScan]. *)
Definition fetch_requests (st : St W) : list Action :=
  (if gmail_ready st
   then [CallGetEmails gmail (maxEmailsPerScan (config (dmn st)) / 2)] else [])
  ++ (if icloud_ready st
      then [CallGetEmails icloud (maxEmailsPerScan (config (dmn st)) / 2)] else []).


(** The filter of [fetchNewEmails] (lines 326-329). *)
Definition is_new (s : DaemonState) (e : EmailData) : bool :=
  negb (has s (id e)) && date_gt (date e) (lastProcessedTimestamp s).

End Vocabulary.

(** Scenario: only Gmail is ready, [maxEmailsPerScan] is 50. *)
Module OneSource.
Import Scripted.

Definition w : World :=
  {| w_time := 5000; w_rules := Ok [rule "r1"];
     w_gmail_ready := true; w_icloud_ready := false;
     w_gmail := [Ok [mail "m1" "r1" 1000]]; w_icloud := [];
     w_extract := [Ok [extraction "m1" "r1" 85]];
     w_sink := [Ok (created "R1")];
     w_file := ReadRejects (NonError (Some "ENOENT")) |}.

Definition st : St World := machine w running.

End OneSource.

(** Scenario: both sources are ready. *)
Module TwoSources.
Import Scripted.

Definition w : World :=
  {| w_time := 5000; w_rules := Ok [rule "r1"];
     w_gmail_ready := true; w_icloud_ready := true;
     w_gmail := [Ok [mail "m1" "r1" 1000]]; w_icloud := [Ok []];
     w_extract := [Ok [extraction "m1" "r1" 85]];
     w_sink := [Ok (created "R1")];
     w_file := ReadRejects (NonError (Some "ENOENT")) |}.

Definition st : St World := machine w running.

End TwoSources.

Section CycleVocabulary.

Context {W : Type} (E : Env W).

(** The message an action is about, if any. *)
Definition subject_id (a : Action) : option string :=
  match a with
  | CallProcessMultipleEmails e _ => Some (id e)
  | CallCreateReminder _ _ i => Some i
  | Emit (reminderCreated i _ _ _) => Some i
  | Emit (processingFailed i _ _) => Some i
  | _ => None
  end.

(** The ids of the queued items, in queue order. *)
Definition queued_ids (d : Daemon) : list string :=
  map (fun it => id (email it)) (processingQueue d).

(** The mails the enqueue loop appends: those whose id is not in
    [processedEmailIds]. *)
Definition unprocessed (s : DaemonState) (matched : list EmailData) : list EmailData :=
  List.filter (fun e => negb (has s (id e))) matched.

(** The steps of a cycle from the rule load up to and including the
    enqueue loop (lines 245-269); [None] is the early return on an empty
    fetch, [Some (matchedEmails, rules)] otherwise. *)
Definition cycle_until_enqueued : M W (option (list EmailData * list EmailRule)) :=
  tell CallLoadRules ;;
  rs <- call_res (loadRules E) ;;
  allEmails <- fetchNewEmails E ;;
  if (length allEmails =? 0)%nat then ret None
  else
    let filteredEmails := filterEmails E allEmails rs in
    let matchedEmails := List.filter has_matchedRules filteredEmails in
    enqueueMatched matchedEmails rs ;;
    ret (Some (matchedEmails, rs)).

(** The steps of a cycle after the enqueue loop (lines 271-284). *)
Definition cycle_after_enqueued (startTime : Z) (matchedEmails : list EmailData)
    : M W unit :=
  processQueue E ;;
  t <- new_Date E ;;
  modify_state (set_lastProcessedTimestamp t) ;;
  endTime <- call (clock E) ;;
  d' <- get_dmn ;;
  emit (processingComplete (Z.of_nat (length matchedEmails))
                           (endTime - startTime)
                           (Z.of_nat (length (processingQueue d')))).

(** The [catch] block of the cycle (lines 286-290). *)
Definition cycle_catch (err : Exn) : M W unit :=
  t <- new_Date E ;;
  modify_state (record_error t (error_message err)) ;;
  emit (processingError err).

(** The [finally] block of the cycle (lines 291-294). *)
Definition cycle_finally : M W unit :=
  modify (set_isProcessing false) ;;
  saveState E.

(** The enqueue precondition as the specification words it: after the
    enqueue step no two queued items carry the same message id. *)
Definition queue_has_no_duplicate_ids (st : St W) : Prop :=
  NoDup (queued_ids (dmn (exec cycle_until_enqueued st))).

(** Deduplication as the specification words it: a message whose id is in
    [processedEmailIds] is not extracted, handed to the sink or announced
    again by a later cycle. *)
Definition never_handled_again (st : St W) (i : string) : Prop :=
  i ∈ processedEmailIds (state (dmn st)) ->
  Forall (fun a => subject_id a <> Some i) (new_log (processEmailsOnce E) st).

End CycleVocabulary.

(** Scenario: a mail dated ahead of the daemon's clock is returned by
    Gmail in three successive cycles; the sink fails, succeeds, fails,
    succeeds. *)
Module Refetched.
Import Scripted.

Definition m1 : EmailData := mail "m1" "r1" 9000000.
Definition m2 : EmailData := mail "m2" "other" 9000001.

Definition w : World :=
  {| w_time := 5000; w_rules := Ok [rule "r1"];
     w_gmail_ready := true; w_icloud_ready := false;
     w_gmail := [Ok [m1]; Ok [m1]; Ok [m1; m2]]; w_icloud := [];
     w_extract := [Ok [extraction "m1" "r1" 85]; Ok [extraction "m1" "r1" 85];
                   Ok [extraction "m1" "r1" 85]; Ok [extraction "m1" "r1" 85]];
     w_sink := [Ok (not_created "busy"); Ok (created "R1");
                Ok (not_created "busy"); Ok (created "R2")];
     w_file := ReadRejects (NonError (Some "ENOENT")) |}.

Definition st0 : St World := machine w running.
Definition after_cycle1 : St World := exec (forceProcessing env) st0.
Definition after_cycle2 : St World := exec (forceProcessing env) after_cycle1.
Definition after_cycle3 : St World := exec (forceProcessing env) after_cycle2.

End Refetched.

Section DrainVocabulary.

Context {W : Type} (E : Env W).

(** [rules.find(r => r.name === result.ruleName)] *)
Definition rule_of (rs : list EmailRule) (r : ProcessingResult) : option EmailRule :=
  find (fun rule => (name rule =? ruleName r)%string) rs.

(** A result reaches the sink when its confidence is at least 25 and its
    rule is in the item's rule list. *)
Definition passes_gate (rs : list EmailRule) (r : ProcessingResult) : bool :=
  negb (confidence r <? 25) &&
  match rule_of rs r with Some _ => true | None => false end.

(** Actions of the sink for message [i]: a call, or the event after a
    successful call. *)
Definition sink_action (i : string) (a : Action) : Prop :=
  match a with
  | CallCreateReminder _ _ j => j = i
  | Emit (reminderCreated j _ _ _) => j = i
  | _ => False
  end.

Definition is_reminderCreated (a : Action) : bool :=
  match a with
  | Emit (reminderCreated _ _ _ _) => true
  | _ => false
  end.

Definition is_sink_call (a : Action) : bool :=
  match a with
  | CallCreateReminder _ _ _ => true
  | _ => false
  end.

Definition is_extraction (a : Action) : bool :=
  match a with
  | CallProcessMultipleEmails _ _ => true
  | _ => false
  end.

Definition is_processingFailed (a : Action) : bool :=
  match a with
  | Emit (processingFailed _ _ _) => true
  | _ => false
  end.

(** How many [reminderCreated] events a trace holds. *)
Definition count_created (l : list Action) : Z :=
  Z.of_nat (length (List.filter is_reminderCreated l)).

(** [n] times [this.state.totalRemindersCreated++]. *)
Definition add_reminders (n : Z) (d : Daemon) : Daemon :=
  set_state
    {| lastProcessedTimestamp := lastProcessedTimestamp (state d);
       processedEmailIds := processedEmailIds (state d);
       totalEmailsProcessed := totalEmailsProcessed (state d);
       totalRemindersCreated := totalRemindersCreated (state d) + n;
       lastErrorTimestamp := lastErrorTimestamp (state d);
       lastErrorMessage := lastErrorMessage (state d) |} d.

(** The confidence gate as the specification words it: in the attempt on
    a queue item, every extraction result with confidence at least 25 and
    a rule in the item's list has its call to the sink. *)
Definition sink_called_for_every_confident_result
    (item : ProcessingQueueItem) (st : St W) : Prop :=
  forall results w',
    processMultipleEmails E [email item] (rules item) (world st) = (Ok results, w') ->
    forall r rule,
      In r results -> 25 <= confidence r -> rule_of (rules item) r = Some rule ->
      In (CallCreateReminder (extractedFields r) (reminderTemplate rule)
                             (id (email item)))
         (new_log (processQueueItem E item) st).

(** Success bookkeeping as the specification words it: once the sink has
    succeeded for a result of the item, the drain marks the message
    processed and counts one message and one reminder. *)
Definition success_marks_processed (item : ProcessingQueueItem) (st : St W) : Prop :=
  (exists rid rn c,
      In (Emit (reminderCreated (id (email item)) rid rn c))
         (new_log (processOne E item) st)) ->
  let s := state (dmn st) in
  let s' := state (dmn (exec (processOne E item) st)) in
  id (email item) ∈ processedEmailIds s'
  /\ totalEmailsProcessed s' = totalEmailsProcessed s + 1
  /\ totalRemindersCreated s' = totalRemindersCreated s + 1.

End DrainVocabulary.

(** Scenario: one queued mail matched two rules; the extraction yields one
    confident result per rule. *)
Module TwoRules.
Import Scripted.

Definition rs : list EmailRule := [rule "r1"; rule "r2"].

Definition m1 : EmailData :=
  {| id := "m1"; from := "admin@edificio.cl"; subject := "r1"; body := "";
     date := ValidDate 1000; provider := gmail; processed := false;
     matchedRules := Some ["r1"; "r2"] |}.

Definition bill : ProcessingResult :=
  {| emailId := "m1"; ruleName := "r1";
     extractedFields := [("monto", "1000")]; confidence := 85 |}.

Definition parcel : ProcessingResult :=
  {| emailId := "m1"; ruleName := "r2";
     extractedFields := [("tracking", "TRK1")]; confidence := 85 |}.

Definition item : ProcessingQueueItem := new_item m1 rs.

Definition world_with (sink : list (Res ReminderCreationResult)) : World :=
  {| w_time := 5000; w_rules := Ok rs;
     w_gmail_ready := true; w_icloud_ready := false;
     w_gmail := []; w_icloud := [];
     w_extract := [Ok [bill; parcel]];
     w_sink := sink;
     w_file := ReadRejects (NonError (Some "ENOENT")) |}.

(** The sink fails on its first call. *)
Definition st_fails_first : St World :=
  machine (world_with [Ok (not_created "busy")]) running.

(** The sink succeeds once, then fails. *)
Definition st_fails_second : St World :=
  machine (world_with [Ok (created "R1"); Ok (not_created "busy")]) running.

(** The sink succeeds twice. *)
Definition st_succeeds : St World :=
  machine (world_with [Ok (created "R1"); Ok (created "R2")]) running.

End TwoRules.

(** Scenario: the extraction of one queued mail yields a result with
    confidence 20 and one with confidence 25. *)
Module Gate.
Import Scripted.

Definition rs : list EmailRule := [rule "r1"].
Definition m1 : EmailData := matched_as (mail "m1" "r1" 1000) "r1".
Definition low20 : ProcessingResult := extraction "m1" "r1" 20.
Definition edge25 : ProcessingResult := extraction "m1" "r1" 25.
Definition item : ProcessingQueueItem := new_item m1 rs.

Definition world_with (results : list ProcessingResult) : World :=
  {| w_time := 5000; w_rules := Ok rs;
     w_gmail_ready := true; w_icloud_ready := false;
     w_gmail := []; w_icloud := [];
     w_extract := [Ok results];
     w_sink := [Ok (created "R1")];
     w_file := ReadRejects (NonError (Some "ENOENT")) |}.

Definition st : St World := machine (world_with [low20; edge25]) running.

(** The extraction yields the result with confidence 20 alone. *)
Definition st_low : St World := machine (world_with [low20]) running.

End Gate.

(** Scenario of section 8 of the specification: one message "m1" matched
    by rule "r1"; the extraction has confidence 85 and the fields monto
    and vencimiento; the sink returns the reminder id "R1". *)
Module Section8.
Import Scripted.

Definition rs : list EmailRule := [rule "r1"].
Definition m1 : EmailData := matched_as (mail "m1" "r1" 1000) "r1".
Definition found : ProcessingResult := extraction "m1" "r1" 85.
Definition item : ProcessingQueueItem := new_item m1 rs.

Definition w : World :=
  {| w_time := 5000; w_rules := Ok rs;
     w_gmail_ready := true; w_icloud_ready := false;
     w_gmail := [Ok [mail "m1" "r1" 1000]]; w_icloud := [];
     w_extract := [Ok [found]];
     w_sink := [Ok (created "R1")];
     w_file := ReadRejects (NonError (Some "ENOENT")) |}.

Definition st : St World := machine w running.

(** The world after the extraction, and after the sink call. *)
Definition w1 : World := snd (next_extract w).
Definition w2 : World := snd (next_sink w1).

End Section8.

Section PersistenceVocabulary.

Context {W : Type} (E : Env W).

(** What the daemon relies on from the runtime's dates: the ISO-8601 text
    of a time value reads back as that time value, and the empty string is
    no date. *)
Definition iso_codec : Prop :=
  (forall ms, parseDate E (toISOString E ms) = ValidDate ms)
  /\ parseDate E "" = InvalidDate.

(** The round trip as the specification words it, of any state: the
    state is serialized, and what was serialized loads back as that
    state. *)
Definition round_trips (s : DaemonState) : Prop :=
  exists j, stateToSave E s = Some j /\ stateFromSaved E j = s.

(** The timestamps of a state are dates, not Invalid Date. *)
Definition valid_timestamps (s : DaemonState) : Prop :=
  valid_date (lastProcessedTimestamp s)
  /\ match lastErrorTimestamp s with
     | Some d => valid_date d
     | None => True
     end.

(** The state file is missing (or cannot be read), or its text is not
    JSON. *)
Definition missing_or_corrupt (r : ReadOutcome) : Prop :=
  match r with
  | ReadRejects _ => True
  | ReadText None => True
  | ReadText (Some _) => False
  end.

(** The two errors with which [start] gives up. *)
Definition startup_fatal (e : Exn) : Prop :=
  e = Error "No email clients available - check configuration" None
  \/ exists reason, e = Error ("Apple Reminders not accessible: " +:+ reason) None.

End PersistenceVocabulary.

(** Scenario: states to persist, and state files to load. *)
Module Persisted.
Import Scripted.

(** The state of the round-trip property of section 8. *)
Definition s : DaemonState :=
  {| lastProcessedTimestamp := ValidDate 1736935200000;
     processedEmailIds := {[ "a"; "b" ]};
     totalEmailsProcessed := 5;
     totalRemindersCreated := 3;
     lastErrorTimestamp := None;
     lastErrorMessage := None |}.

(** The same state after a cycle-level error was recorded. *)
Definition s_err : DaemonState :=
  {| lastProcessedTimestamp := ValidDate 1736935200000;
     processedEmailIds := {[ "a"; "b" ]};
     totalEmailsProcessed := 5;
     totalRemindersCreated := 3;
     lastErrorTimestamp := Some (ValidDate 1736935300000);
     lastErrorMessage := Some "Processing failed" |}.

Definition world_with (file : ReadOutcome) : World :=
  {| w_time := 5000; w_rules := Ok [rule "r1"];
     w_gmail_ready := true; w_icloud_ready := false;
     w_gmail := []; w_icloud := [];
     w_extract := []; w_sink := [];
     w_file := file |}.

(** No state file. *)
Definition missing : World := world_with (ReadRejects (NonError (Some "ENOENT"))).

(** A state file holding the text "invalid json". *)
Definition corrupt : World := world_with (ReadText None).

Definition fresh (w : World) : St World :=
  machine w (constructor configuration no_override).

End Persisted.

Section OperationVocabulary.

Context {W : Type} (E : Env W).

(** The [try] block of a cycle (lines 242-284). *)
Definition cycle_body (startTime : Z) : M W unit :=
  r <- cycle_until_enqueued E ;;
  match r with
  | None => ret tt
  | Some (matchedEmails, _) => cycle_after_enqueued E startTime matchedEmails
  end.

(** The machine when the [try] block of a cycle starts: [isProcessing] is
    set and the start time has been read. *)
Definition cycle_entry (st : St W) : St W :=
  mkSt (snd (clock E (world st))) (set_isProcessing true (dmn st)) (log st).

(** The two events that close a cycle. *)
Definition is_cycle_event (a : Action) : bool :=
  match a with
  | Emit (processingComplete _ _ _) => true
  | Emit (processingError _) => true
  | _ => false
  end.

(** What drives a started daemon: a forced cycle, a timer tick, a
    configuration update. *)
Inductive Op : Type :=
| Force
| Tick
| Update (newConfig : PartialDaemonConfig).

Definition run_op (o : Op) : M W unit :=
  match o with
  | Force => forceProcessing E
  | Tick => timer_tick E
  | Update newConfig => updateConfig newConfig
  end.

(** A run of operations; a rejected [forceProcessing] leaves the machine
    as it is and the run goes on. *)
Definition run_ops (ops : list Op) (st : St W) : St W :=
  fold_left (fun st o => exec (run_op o) st) ops st.

(** Message [i] is settled: its id is in [processedEmailIds] and no
    queued item carries it. *)
Definition settled (i : string) (st : St W) : Prop :=
  i ∈ processedEmailIds (state (dmn st))
  /\ Forall (fun it => id (email it) <> i) (processingQueue (dmn st)).

(** The end of a cycle as the specification words it: the state is
    persisted, and then one of the two closing events is emitted. *)
Definition persists_then_emits (st : St W) : Prop :=
  exists l j ev,
    new_log (processEmailsOnce E) st = l ++ [CallWriteFile j; Emit ev]
    /\ is_cycle_event (Emit ev) = true.

End OperationVocabulary.

(** Scenario: a cycle in which no source has a new message, and a cycle
    in which the rule store fails. *)
Module QuietCycles.
Import Scripted.

Definition nothing_new : World :=
  {| w_time := 5000; w_rules := Ok [rule "r1"];
     w_gmail_ready := true; w_icloud_ready := true;
     w_gmail := [Ok []]; w_icloud := [Ok []];
     w_extract := []; w_sink := [];
     w_file := ReadRejects (NonError (Some "ENOENT")) |}.

Definition rules_fail : World :=
  {| w_time := 5000; w_rules := Throw (Error "vault not found" None);
     w_gmail_ready := true; w_icloud_ready := true;
     w_gmail := [Ok []]; w_icloud := [Ok []];
     w_extract := []; w_sink := [];
     w_file := ReadRejects (NonError (Some "ENOENT")) |}.

Definition st_nothing_new : St World := machine nothing_new running.
Definition st_rules_fail : St World := machine rules_fail running.

End QuietCycles.

Section CycleEndVocabulary.

Context {W : Type} (E : Env W).

(** The machine when the [finally] block of a cycle calls [saveState]:
    after the [catch] block when the rule load threw, right after the
    fetch when no mail was new, and otherwise after the drain, the new
    [lastProcessedTimestamp] and the [processingComplete] event. *)
Definition cycle_before_save (st : St W) : St W :=
  match cycle_until_enqueued E (cycle_entry E st) with
  | (Throw err, st1) =>
    mkSt (snd (clock E (world st1)))
         (set_isProcessing false
            (set_state
               (record_error (ValidDate (fst (clock E (world st1))))
                             (error_message err) (state (dmn st1)))
               (dmn st1)))
         (log st1 ++ [Emit (processingError err)])
  | (Ok None, st1) =>
    mkSt (world st1) (set_isProcessing false (dmn st1)) (log st1)
  | (Ok (Some (matched, _)), st1) =>
    let st2 := exec (processQueue E) st1 in
    let '(t, w3) := clock E (world st2) in
    let '(t', w4) := clock E w3 in
    mkSt w4
         (set_isProcessing false
            (set_state (set_lastProcessedTimestamp (ValidDate t) (state (dmn st2)))
                       (dmn st2)))
         (log st2
          ++ [Emit (processingComplete
                      (Z.of_nat (length matched))
                      (t' - fst (clock E (world st)))
                      (Z.of_nat (length (processingQueue (dmn st2)))))])
  end.

(** Actions that are about no message and close no cycle. *)
Definition housekeeping (a : Action) : Prop :=
  subject_id a = None /\ is_cycle_event a = false.

End CycleEndVocabulary.

Section RetryVocabulary.

Context {W : Type} (E : Env W).











End RetryVocabulary.

(** Scenario of the retry test: the sink rejects every call with the same
    error; the extraction always finds the bill. *)
Module Stubborn.
Import Scripted.

Definition failure : string := "Persistent reminder creation failure".

Definition m1 : EmailData := matched_as (mail "test-email-1" "test_rule" 1000) "test_rule".
Definition rs : list EmailRule := [rule "test_rule"].
Definition found : ProcessingResult := extraction "test-email-1" "test_rule" 85.

Definition env : Env World :=
  {| clock := tick;
     loadRules := fun w => (w_rules w, w);
     gmail_initialize := fun w => (Ok tt, w);
     gmail_isReady := w_gmail_ready;
     gmail_getEmails := fun _ => next_gmail;
     icloud_initialize := fun w => (Ok tt, w);
     icloud_isReady := w_icloud_ready;
     icloud_getEmails := fun _ => next_icloud;
     doesEmailMatchRule := subject_is_prompt;
     processMultipleEmails := fun _ _ w => (Ok [found], w);
     testAccess := fun w => ((true, None), w);
     createReminderFromExtractedData :=
       fun _ _ _ w => (Throw (Error failure None), w);
     readFile := fun w => (w_file w, w);
     writeFile := fun _ w => (Ok tt, w);
     toISOString := numeral;
     parseDate := of_numeral |}.

Definition w : World :=
  {| w_time := 5000; w_rules := Ok rs;
     w_gmail_ready := true; w_icloud_ready := false;
     w_gmail := []; w_icloud := [];
     w_extract := []; w_sink := [];
     w_file := ReadRejects (NonError (Some "ENOENT")) |}.

(** The running daemon ([retryAttempts = 3]) with the mail just enqueued. *)
Definition st : St World :=
  machine w (set_processingQueue [new_item m1 rs] running).

End Stubborn.

(** Scenario: the daemon of [Stubborn] after
    [updateConfig({ retryAttempts: 0 })]. *)
Module Impatient.
Import Scripted.

Definition no_retry : PartialDaemonConfig :=
  {| p_intervalMinutes := None; p_maxEmailsPerScan := None;
     p_retryAttempts := Some 0; p_stateFilePath := None;
     p_enableGmail := None; p_enableIcloud := None |}.

Definition st : St World := exec (updateConfig no_retry) Stubborn.st.

End Impatient.

(** Scenario: the daemon of [Stubborn] with a second item for the same
    mail in its queue, enqueued under a rule list that has no rule of the
    name the extraction answers with. *)
Module Twin.
Import Scripted.

Definition other : ProcessingQueueItem :=
  new_item Stubborn.m1 [rule "other_rule"].

Definition st : St World :=
  machine Stubborn.w
          (set_processingQueue [new_item Stubborn.m1 Stubborn.rs; other] running).

End Twin.

Section DedupVocabulary.

Context {W : Type} (E : Env W).

(** Message [j] has a reason to be handled from [st] on: an item for it
    is queued, or its id is not in [processedEmailIds]. *)
Definition may_be_handled (st : St W) (j : string) : Prop :=
  (exists it, In it (processingQueue (dmn st)) /\ id (email it) = j)
  \/ j ∉ processedEmailIds (state (dmn st)).

(** What an operation of the daemon may do between [st] and [st']: ids
    are only added; the queue afterwards holds only items of messages that
    had a reason to be handled; and so does the trace it appends. *)
Definition respects_dedup (st st' : St W) : Prop :=
  processedEmailIds (state (dmn st)) ⊆ processedEmailIds (state (dmn st'))
  /\ Forall (fun it => may_be_handled st (id (email it)))
            (processingQueue (dmn st'))
  /\ exists l,
       log st' = log st ++ l
       /\ Forall (fun a => forall j, subject_id a = Some j -> may_be_handled st j) l.

(** The trace appended between [st] and [st'] has no action about [i]. *)
Definition silent_about (i : string) (st st' : St W) : Prop :=
  exists l, log st' = log st ++ l /\ Forall (fun a => subject_id a <> Some i) l.

End DedupVocabulary.

(** Scenario: as [Refetched], but the mail is found with confidence 85
    when its queued retry is processed and with confidence 20 when the
    copy enqueued by the second cycle is. *)
Module LowTwin.
Import Scripted.

Definition m1 : EmailData := mail "m1" "r1" 9000000.
Definition m2 : EmailData := mail "m2" "other" 9000001.

Definition w : World :=
  {| w_time := 5000; w_rules := Ok [rule "r1"];
     w_gmail_ready := true; w_icloud_ready := false;
     w_gmail := [Ok [m1]; Ok [m1]; Ok [m1; m2]]; w_icloud := [];
     w_extract := [Ok [extraction "m1" "r1" 85]; Ok [extraction "m1" "r1" 85];
                   Ok [extraction "m1" "r1" 20]; Ok [extraction "m1" "r1" 85]];
     w_sink := [Ok (not_created "busy"); Ok (not_created "busy");
                Ok (created "R1")];
     w_file := ReadRejects (NonError (Some "ENOENT")) |}.

Definition st0 : St World := machine w running.
Definition after_cycle1 : St World := exec (forceProcessing env) st0.
Definition after_cycle2 : St World := exec (forceProcessing env) after_cycle1.
Definition after_cycle3 : St World := exec (forceProcessing env) after_cycle2.

End LowTwin.

(** Scenario: Gmail returns the same mail, dated ahead of the daemon's
    clock, in every cycle; the first cycle creates its reminder. *)
Module Repeated.
Import Scripted.

Definition m1 : EmailData := mail "m1" "r1" 9000000.

Definition w : World :=
  {| w_time := 5000; w_rules := Ok [rule "r1"];
     w_gmail_ready := true; w_icloud_ready := false;
     w_gmail := [Ok [m1]; Ok [m1]; Ok [m1]; Ok [m1]]; w_icloud := [];
     w_extract := [Ok [extraction "m1" "r1" 85]; Ok [extraction "m1" "r1" 85]];
     w_sink := [Ok (created "R1"); Ok (created "R2")];
     w_file := ReadRejects (NonError (Some "ENOENT")) |}.

Definition st0 : St World := machine w running.
Definition after_cycle1 : St World := exec (forceProcessing env) st0.

End Repeated.

(** ** The primitive effects of the daemon's operations *)

Section EffectVocabulary.

Context {W : Type} (E : Env W).

(** Whether [this.gmailClient] / [this.icloudClient] is defined. *)
Definition client (p : Provider) (d : Daemon) : bool :=
  match p with
  | gmail => gmailClient d
  | icloud => icloudClient d
  end.

(** The machine after a collaborator answered, after an assignment to a
    field of the daemon object or of [this.state], after one more action
    in the trace, and after a push on the queue. *)
Definition with_world (w : W) (st : St W) : St W :=
  mkSt w (dmn st) (log st).

Definition with_dmn (f : Daemon -> Daemon) (st : St W) : St W :=
  mkSt (world st) (f (dmn st)) (log st).

Definition with_state (f : DaemonState -> DaemonState) (st : St W) : St W :=
  with_dmn (fun d => set_state (f (state d)) d) st.

Definition with_action (a : Action) (st : St W) : St W :=
  mkSt (world st) (dmn st) (log st ++ [a]).

Definition enqueued (it : ProcessingQueueItem) (st : St W) : St W :=
  with_dmn (fun d => set_processingQueue (processingQueue d ++ [it]) d) st.

(** A relation between machine states that is kept by every step of a
    drain: the snapshot of the queue, the extraction call, the calls to
    the sink, the bookkeeping of a success, and the retry or the
    [processingFailed] event of a failure (lines 343-421). *)
Record closed_under_attempts (R : St W -> St W -> Prop) : Prop := {
  att_refl : forall st, R st st;
  att_trans : forall st1 st2 st3, R st1 st2 -> R st2 st3 -> R st1 st3;
  att_world : forall st w, R st (with_world w st);
  att_clear : forall st, R st (with_dmn (set_processingQueue []) st);
  att_extract : forall st e rs,
      R st (with_action (CallProcessMultipleEmails e rs) st);
  att_sink : forall st fields template i,
      R st (with_action (CallCreateReminder fields template i) st);
  att_created : forall st i rid rn c,
      R st (with_action (Emit (reminderCreated i rid rn c))
                        (with_state count_reminder st));
  att_mark : forall st i, R st (with_state (mark_processed i) st);
  att_requeue : forall st item t m,
      attempts item + 1 < retryAttempts (config (dmn st)) ->
      R st (enqueued (failed_item item t m) st);
  att_failed : forall st i m k,
      retryAttempts (config (dmn st)) <= k ->
      R st (with_action (Emit (processingFailed i m k)) st)
}.

(** A relation between machine states that is kept by every step of a
    processing cycle (lines 234-295), the drain taken as one step. *)
Record closed_under_cycles (R : St W -> St W -> Prop) : Prop := {
  cyc_refl : forall st, R st st;
  cyc_trans : forall st1 st2 st3, R st1 st2 -> R st2 st3 -> R st1 st3;
  cyc_world : forall st w, R st (with_world w st);
  cyc_flag : forall st b, R st (with_dmn (set_isProcessing b) st);
  cyc_load_rules : forall st, R st (with_action CallLoadRules st);
  cyc_fetch : forall st p,
      client p (dmn st) = true ->
      R st (with_action (CallGetEmails p (maxEmailsPerScan (config (dmn st)) / 2)) st);
  cyc_enqueue : forall st e rs,
      is_new (state (dmn st)) e = true -> has_matchedRules e = true ->
      R st (enqueued (new_item e rs) st);
  cyc_drain : forall st, R st (exec (processQueue E) st);
  cyc_stamp : forall st t,
      valid_date (lastProcessedTimestamp (state (dmn st))) ->
      R st (with_state (set_lastProcessedTimestamp (ValidDate t)) st);
  cyc_complete : forall st n dt,
      valid_date (lastProcessedTimestamp (state (dmn st))) ->
      R st (with_action
              (Emit (processingComplete
                       n dt (Z.of_nat (length (processingQueue (dmn st)))))) st);
  cyc_error : forall st t e,
      R st (with_action (Emit (processingError e))
                        (with_state (record_error (ValidDate t) (error_message e)) st));
  cyc_write : forall st j,
      stateToSave E (state (dmn st)) = Some j ->
      R st (with_action (CallWriteFile j) st)
}.

(** The operations of a run that satisfy [allowed] on their
    configuration updates. *)
Definition updates_satisfy (allowed : PartialDaemonConfig -> Prop) (o : Op) : Prop :=
  match o with
  | Update newConfig => allowed newConfig
  | _ => True
  end.

End EffectVocabulary.

(** ** Vocabulary of the life cycle *)

Section LifecycleVocabulary.

Context {W : Type} (E : Env W).

(** [initialize] of the client of provider [p]. *)
Definition initialize (p : Provider) : W -> Res unit * W :=
  match p with
  | gmail => gmail_initialize E
  | icloud => icloud_initialize E
  end.

(** One provider in [initializeEmailClients] (lines 190-214): whether its
    client is kept, the world afterwards, and the call that was made. *)
Definition initialized (p : Provider) (d : Daemon) (w : W) : bool * W * list Action :=
  if client p d then
    match initialize p w with
    | (Ok _, w') => (true, w', [CallInitialize p])
    | (Throw _, w') => (false, w', [CallInitialize p])
    end
  else (false, w, []).

(** The steps of [start] before the loop is started (lines 127-134). *)
Definition startup : M W unit :=
  loadState E ;; initializeEmailClients E ;; testAppleRemindersAccess E.

(** [setInterval] with the delay of the configuration (line 147). *)
Definition arm_timer (d : Daemon) : Daemon :=
  set_intervalId (Some (intervalMinutes (config d) * 60 * 1000)) d.




(** The calls [start] makes before its first cycle. *)
Definition is_startup_call (a : Action) : bool :=
  match a with
  | CallReadFile | CallInitialize _ | CallTestAccess => true
  | _ => false
  end.

(** The actions of a processing cycle. *)
Definition is_cycle_action (a : Action) : bool :=
  match a with
  | CallLoadRules | CallGetEmails _ _ | CallProcessMultipleEmails _ _
  | CallCreateReminder _ _ _ | CallWriteFile _ => true
  | Emit (processingComplete _ _ _) | Emit (reminderCreated _ _ _ _)
  | Emit (processingFailed _ _ _) | Emit (processingError _) => true
  | _ => false
  end.


End LifecycleVocabulary.

(** ** Vocabulary of the counters *)

Section CounterVocabulary.

Context {W : Type}.

(** Between [st] and [st'] the trace was extended, and
    [totalRemindersCreated] grew by the number of [reminderCreated] events
    in the extension. *)
Definition counts_reminders (st st' : St W) : Prop :=
  exists l,
    log st' = log st ++ l
    /\ totalRemindersCreated (state (dmn st'))
       = totalRemindersCreated (state (dmn st)) + count_created l.

(** Between [st] and [st'] [totalEmailsProcessed] did not decrease, and
    [processedEmailIds] gained at most as many ids as the counter grew. *)
Definition counter_bounds_ids (st st' : St W) : Prop :=
  totalEmailsProcessed (state (dmn st)) <= totalEmailsProcessed (state (dmn st'))
  /\ Z.of_nat (size (processedEmailIds (state (dmn st'))))
     - Z.of_nat (size (processedEmailIds (state (dmn st))))
     <= totalEmailsProcessed (state (dmn st')) - totalEmailsProcessed (state (dmn st)).

End CounterVocabulary.

(** ** Vocabulary of the runs *)

Section RunVocabulary.

Context {W : Type} (E : Env W).

(** Between [st] and [st'] the trace was extended by actions that
    satisfy [P]. *)
Definition appends (P : Action -> Prop) (st st' : St W) : Prop :=
  exists l, log st' = log st ++ l /\ Forall P l.

(** Between [st] and [st'] the two clients stayed as they were, no
    client was initialized, and mail was requested only from providers
    whose client exists. *)
Definition asks_existing_clients (st st' : St W) : Prop :=
  gmailClient (dmn st') = gmailClient (dmn st)
  /\ icloudClient (dmn st') = icloudClient (dmn st)
  /\ appends (fun a => is_startup_call a = false
                       /\ forall p limit, a = CallGetEmails p limit ->
                                          client p (dmn st) = true)
             st st'.

(** Provider [p] cannot be initialized: its client is missing, or its
    [initialize] rejects. *)
Definition unavailable (p : Provider) (d : Daemon) : Prop :=
  client p d = false
  \/ forall w, exists e w', initialize E p w = (Throw e, w').

Definition is_fetch_from (p : Provider) (a : Action) : bool :=
  match a with
  | CallGetEmails q _ =>
    match p, q with
    | gmail, gmail | icloud, icloud => true
    | _, _ => false
    end
  | _ => false
  end.


Definition is_processingError (a : Action) : bool :=
  match a with
  | Emit (processingError _) => true
  | _ => false
  end.

(** Between [st] and [st'] the error fields of the state changed only if
    a [processingError] event was emitted, and a recorded error was not
    cleared. *)
Definition keeps_errors (st st' : St W) : Prop :=
  (exists l,
      log st' = log st ++ l
      /\ (List.filter is_processingError l = [] ->
          lastErrorMessage (state (dmn st')) = lastErrorMessage (state (dmn st))
          /\ lastErrorTimestamp (state (dmn st')) = lastErrorTimestamp (state (dmn st))))
  /\ (lastErrorMessage (state (dmn st)) <> None ->
      lastErrorMessage (state (dmn st')) <> None).


(** Actions by which a message is handled, a cycle completed or the
    state file written. *)
Definition is_progress (a : Action) : bool :=
  match a with
  | CallProcessMultipleEmails _ _ | CallCreateReminder _ _ _ | CallWriteFile _ => true
  | Emit (processingComplete _ _ _) | Emit (reminderCreated _ _ _ _)
  | Emit (processingFailed _ _ _) => true
  | _ => false
  end.



End RunVocabulary.

Section FrameVocabulary.

Context {W : Type}.

(** Between [st] and [st'] the configuration, the running flag, the
    timer and the clients stayed as they were. *)
Definition same_lifecycle (st st' : St W) : Prop :=
  config (dmn st') = config (dmn st)
  /\ _isRunning (dmn st') = _isRunning (dmn st)
  /\ intervalId (dmn st') = intervalId (dmn st)
  /\ gmailClient (dmn st') = gmailClient (dmn st)
  /\ icloudClient (dmn st') = icloudClient (dmn st).

End FrameVocabulary.

(** Scenario: only Gmail is configured. *)
Module GmailOnly.
Import Scripted.

Definition configuration : Configuration :=
  {| obsidianVaultPath := "/vault"; cfg_gmail := true; cfg_icloud := false;
     daemon_intervalMinutes := 30; daemon_maxEmailsPerScan := 50;
     daemon_retryAttempts := 3 |}.

(** The constructed daemon, not yet started; the override asks for
    iCloud although no iCloud section is configured. *)
Definition wants_icloud : PartialDaemonConfig :=
  {| p_intervalMinutes := None; p_maxEmailsPerScan := None;
     p_retryAttempts := None; p_stateFilePath := None;
     p_enableGmail := None; p_enableIcloud := Some true |}.

Definition st : St World :=
  machine OneSource.w (constructor configuration wants_icloud).

End GmailOnly.

(** Scenario: a running daemon with its timer set at 30 minutes, and
    updates of the interval. *)
Module Armed.
Import Scripted.

Definition st : St World := machine OneSource.w (arm_timer running).



End Armed.

(** Scenario: neither provider is configured. *)
Module NoProvider.
Import Scripted.

Definition configuration : Configuration :=
  {| obsidianVaultPath := "/vault"; cfg_gmail := false; cfg_icloud := false;
     daemon_intervalMinutes := 30; daemon_maxEmailsPerScan := 50;
     daemon_retryAttempts := 3 |}.

(** An override that enables both providers. *)
Definition enable_both : PartialDaemonConfig :=
  {| p_intervalMinutes := None; p_maxEmailsPerScan := None;
     p_retryAttempts := None; p_stateFilePath := None;
     p_enableGmail := Some true; p_enableIcloud := Some true |}.

End NoProvider.

(** Scenario: the state file holds the JSON object without keys; Gmail
    has a mail for rule "r1". *)
Module EmptyObject.
Import Scripted.

Definition file : SavedJson :=
  {| j_lastProcessedTimestamp := None; j_processedEmailIds := None;
     j_totalEmailsProcessed := None; j_totalRemindersCreated := None;
     j_lastErrorTimestamp := None; j_lastErrorMessage := None |}.

Definition w : World :=
  {| w_time := 5000; w_rules := Ok [rule "r1"];
     w_gmail_ready := true; w_icloud_ready := false;
     w_gmail := [Ok [mail "m1" "r1" 1000]; Ok [mail "m2" "r1" 9000000]];
     w_icloud := [];
     w_extract := [Ok [extraction "m1" "r1" 85]];
     w_sink := [Ok (created "R1")];
     w_file := ReadText (Some file) |}.

Definition st : St World := machine w (constructor configuration no_override).

End EmptyObject.

Section StallVocabulary.

Context {W : Type}.


End StallVocabulary.

Section AttemptsVocabulary.

Context {W : Type}.


(** [getEmails(...).catch(() => [])] *)
Definition answer_or_empty (r : Res (list EmailData)) : list EmailData :=
  match r with
  | Ok mails => mails
  | Throw _ => []
  end.

End AttemptsVocabulary.

(** ** Stopping *)

(** How a call of [stop] ends: the daemon was not running; it was
    stopped; or a cycle is in flight and [stop] is polling [isProcessing]
    until that cycle is over. *)
Inductive StopOutcome : Type :=
| NotRunning
| Stopped
| Waiting.

Section StopVocabulary.

Context {W : Type} (E : Env W).

(** [stop] (lines 160-185), up to the first poll of its waiting loop.
    The operations of this model run one after the other, so between
    them no cycle is in flight and the loop is skipped; were
    [isProcessing] set, [stop] would poll until the cycle in flight is
    over and then save and emit as in the other branch. *)
Definition stop : M W StopOutcome :=
  d <- get_dmn ;;
  if negb (_isRunning d) then ret NotRunning
  else
    modify (set_isRunning false) ;;
    match intervalId d with
    | Some _ => modify (set_intervalId None)
    | None => ret tt
    end ;;
    d' <- get_dmn ;;
    if isProcessing d' then ret Waiting
    else
      saveState E ;;
      emit stopped ;;
      ret Stopped.

(** The file system keeps what [saveState] writes from world [w]: the
    next read of the state file gives it back. *)
Definition keeps_written (w : W) : Prop :=
  forall j, fst (writeFile E j w) = Ok tt
            /\ fst (readFile E (snd (writeFile E j w))) = ReadText (Some j).

(** A new daemon object, constructed where the machine [st] stands. *)
Definition reconstructed (configuration : Configuration)
    (daemonConfig : PartialDaemonConfig) (st : St W) : St W :=
  mkSt (world st) (constructor configuration daemonConfig) (log st).

End StopVocabulary.

(** Scenario: a scripted world whose state file holds what was last
    written to it. *)
Module Disk.
Import Scripted.

Definition write (j : SavedJson) (w : World) : Res unit * World :=
  (Ok tt,
   {| w_time := w_time w; w_rules := w_rules w;
      w_gmail_ready := w_gmail_ready w; w_icloud_ready := w_icloud_ready w;
      w_gmail := w_gmail w; w_icloud := w_icloud w;
      w_extract := w_extract w; w_sink := w_sink w;
      w_file := ReadText (Some j) |}).

Definition env : Env World :=
  {| clock := tick;
     loadRules := fun w => (w_rules w, w);
     gmail_initialize := fun w => (Ok tt, w);
     gmail_isReady := w_gmail_ready;
     gmail_getEmails := fun _ => next_gmail;
     icloud_initialize := fun w => (Ok tt, w);
     icloud_isReady := w_icloud_ready;
     icloud_getEmails := fun _ => next_icloud;
     doesEmailMatchRule := subject_is_prompt;
     processMultipleEmails := fun _ _ => next_extract;
     testAccess := fun w => ((true, None), w);
     createReminderFromExtractedData := fun _ _ _ => next_sink;
     readFile := fun w => (w_file w, w);
     writeFile := write;
     toISOString := numeral;
     parseDate := of_numeral |}.

(** The running daemon of the re-fetch scenario after its first cycle:
    "m1" waits in the queue for a retry. *)
Definition st : St World := exec (forceProcessing env) Refetched.st0.

End Disk.

(** Scenario: a running daemon whose state has an Invalid Date as
    [lastProcessedTimestamp], as [loadState] leaves it after reading a
    state file without that key; ids a and b, five processed mails. *)
Module Unsavable.
Import Scripted.

Definition s : DaemonState :=
  {| lastProcessedTimestamp := InvalidDate;
     processedEmailIds := {[ "a"; "b" ]};
     totalEmailsProcessed := 5;
     totalRemindersCreated := 3;
     lastErrorTimestamp := None;
     lastErrorMessage := None |}.

Definition st : St World := machine Persisted.missing (set_state s running).

End Unsavable.

(** ** The reminder sink: escaping text for AppleScript
    (src/reminders/apple-reminders.ts) *)

Module AppleReminders.

Definition backslash : ascii := "092"%char.
Definition quote : ascii := "034"%char.
Definition apostrophe : ascii := "039"%char.
Definition newline : ascii := "010"%char.
Definition carriage_return : ascii := "013"%char.
Definition tab : ascii := "009"%char.

(** [str.replace(/c/g, by)] for a pattern that is the one character [c]:
    every occurrence of [c] is replaced, the text put in its place is not
    scanned again. *)
Fixpoint replace_all (c : ascii) (by_ : string) (str : string) : string :=
  match str with
  | EmptyString => EmptyString
  | String a rest =>
    if Ascii.eqb a c then by_ ++ replace_all c by_ rest
    else String a (replace_all c by_ rest)
  end.

(** A backslash followed by [c]. *)
Definition escaped (c : ascii) : string := String backslash (String c EmptyString).

(** [escapeAppleScriptString] (lines 136-144): five passes, in this
    order: backslash, double quote, line feed, carriage return, tab. *)
Definition escapeAppleScriptString (str : string) : string :=
  replace_all tab (escaped "t")
    (replace_all carriage_return (escaped "r")
       (replace_all newline (escaped "n")
          (replace_all quote (escaped quote)
             (replace_all backslash (escaped backslash) str)))).

(** What one character becomes. *)
Definition code (c : ascii) : string :=
  if Ascii.eqb c backslash then escaped backslash
  else if Ascii.eqb c quote then escaped quote
  else if Ascii.eqb c newline then escaped "n"
  else if Ascii.eqb c carriage_return then escaped "r"
  else if Ascii.eqb c tab then escaped "t"
  else String c EmptyString.

Fixpoint translate (str : string) : string :=
  match str with
  | EmptyString => EmptyString
  | String a rest => code a ++ translate rest
  end.

(** Reading the text between the double quotes of an AppleScript
    literal, as [buildAppleScript] places it (lines 95-134): a backslash
    takes the next character with it; a double quote that is not taken
    by a backslash would end the literal; the text must not end on a
    backslash that takes the closing quote. *)
Fixpoint literal_body (after_backslash : bool) (s : string) : bool :=
  match s with
  | EmptyString => negb after_backslash
  | String a rest =>
    if after_backslash then literal_body false rest
    else if Ascii.eqb a backslash then literal_body true rest
    else if Ascii.eqb a quote then false
    else literal_body false rest
  end.

Fixpoint occurrences (c : ascii) (s : string) : nat :=
  match s with
  | EmptyString => 0%nat
  | String a rest => ((if Ascii.eqb a c then 1 else 0) + occurrences c rest)%nat
  end.

End AppleReminders.

(** ** The field extractor (class [ClaudeProcessor], in src/index.ts) *)

Module ClaudeProcessor.

(** [ExtractedData] as the extractor builds it: an object whose values
    are strings or [null], the keys in the order of the object literal. *)
Definition Answer : Type := list (string * option string).

(** [data[field]]: an absent key reads as [undefined], which every test
    below treats as it treats [null]. *)
Definition get (data : Answer) (field : string) : option string :=
  match find (fun kv => (fst kv =? field)%string) data with
  | Some (_, v) => v
  | None => None
  end.

(** [v !== null && v !== undefined && v !== ''] *)
Definition filled (v : option string) : bool :=
  match v with
  | Some s => negb (s =? EmptyString)%string
  | None => false
  end.

(** Truthiness of a value that is a string or [null]. *)
Definition truthy (v : option string) : bool :=
  match v with
  | Some s => negb (s =? EmptyString)%string
  | None => false
  end.

Definition ruleRequirements : list (string * list string) :=
  [("gastos_comunes", ["monto"; "vencimiento"; "periodo"; "tipo"]);
   ("facturas_servicios", ["empresa"; "monto"; "vencimiento"; "tipo"]);
   ("entregas_amazon", ["tracking"; "fechaEntrega"; "proveedor"; "tipo"]);
   ("generic", ["tipo"])].

(** The properties an object literal inherits from [Object.prototype]:
    reading one of them from [ruleRequirements] gives a function (or, for
    [__proto__], the prototype object), which is truthy and which
    [for ... of] cannot iterate. *)
Definition object_prototype_keys : list string :=
  ["constructor"; "__defineGetter__"; "__defineSetter__"; "hasOwnProperty";
   "__lookupGetter__"; "__lookupSetter__"; "isPrototypeOf";
   "propertyIsEnumerable"; "toString"; "valueOf"; "__proto__";
   "toLocaleString"].

(** [ruleRequirements[rule.name] || ruleRequirements['generic']], as the
    [for ... of] loop can use it: [None] when the value read is not
    iterable, where the loop throws a [TypeError]. *)
Definition requiredFields (ruleName : string) : option (list string) :=
  match find (fun kv => (fst kv =? ruleName)%string) ruleRequirements with
  | Some (_, fields) => Some fields
  | None =>
    if existsb (String.eqb ruleName) object_prototype_keys then None
    else Some ["tipo"]
  end.

(** [Math.round((score / totalFields) * 100)] when [totalFields > 0],
    else 0.  [totalFields] is 1 or 4 here, for which the floating-point
    quotient is exact. *)
Definition percent (score totalFields : Z) : Z :=
  if totalFields >? 0 then (200 * score + totalFields) / (2 * totalFields) else 0.

(** The test of the bonus [switch] (lines 799-818). *)
Definition complete (data : Answer) (ruleName : string) : bool :=
  if (ruleName =? "gastos_comunes")%string then
    truthy (get data "monto") && truthy (get data "vencimiento")
    && truthy (get data "periodo")
  else if (ruleName =? "facturas_servicios")%string then
    truthy (get data "empresa") && truthy (get data "monto")
    && truthy (get data "vencimiento")
  else if (ruleName =? "entregas_amazon")%string then
    truthy (get data "tracking") && truthy (get data "fechaEntrega")
  else false.

(** [calculateConfidence] (lines 773-821); [None] when it throws. *)
Definition calculateConfidence (data : Answer) (rule : EmailRule) : option Z :=
  match requiredFields (name rule) with
  | None => None
  | Some fields =>
    let totalFields := Z.of_nat (length fields) in
    let score :=
      Z.of_nat (length (List.filter (fun field => filled (get data field)) fields)) in
    let confidence := percent score totalFields in
    Some (if (75 <=? confidence) && complete data (name rule)
          then Z.min 100 (confidence + 10)
          else confidence)
  end.

(** What the regular expressions of the canned answers find in a mail
    (lines 654-771): each is a function of the mail, [None] for [null]. *)
Record Patterns : Type := {
  gastos_monto : EmailData -> option string;
  gastos_vencimiento : EmailData -> option string;
  gastos_periodo : EmailData -> option string;
  facturas_empresa : EmailData -> option string;
  facturas_monto : EmailData -> option string;
  facturas_vencimiento : EmailData -> option string;
  amazon_tracking : EmailData -> option string;
  amazon_fechaEntrega : EmailData -> option string
}.

Inductive ExtractionMethod : Type := ai_claude | ai_claude_fallback.

(** A [ProcessingResult] as [processEmail] builds it; [processingTime],
    [timestamp] and the text of [error] are left out. *)
Record Extraction : Type := {
  emailId : string;
  ruleName : string;
  extractedFields : Answer;
  confidence : Z;
  extractionMethod : ExtractionMethod
}.

Section Extractor.

Variable P : Patterns.

Definition mockGastosComunesResponse (email : EmailData) : Answer :=
  [("monto", gastos_monto P email);
   ("vencimiento", gastos_vencimiento P email);
   ("periodo", gastos_periodo P email);
   ("tipo", Some "gastos_comunes");
   ("edificio", None)].

Definition mockFacturasResponse (email : EmailData) : Answer :=
  [("empresa", facturas_empresa P email);
   ("monto", facturas_monto P email);
   ("vencimiento", facturas_vencimiento P email);
   ("tipo", Some "factura_servicios");
   ("servicio", Some "electricidad")].

Definition mockAmazonResponse (email : EmailData) : Answer :=
  [("tracking", amazon_tracking P email);
   ("fechaEntrega", amazon_fechaEntrega P email);
   ("proveedor", Some "Amazon");
   ("tipo", Some "entrega");
   ("producto", None)].

Definition mockGenericResponse (email : EmailData) : Answer :=
  [("tipo", Some "generic");
   ("sender", Some (from email));
   ("subject", Some (subject email));
   ("fechaImportante", None);
   ("monto", None);
   ("resumen", Some (subject email))].

(** [mockClaudeCall] (lines 625-650): the [switch] on [rule.name]. *)
Definition mockClaudeCall (email : EmailData) (rule : EmailRule) : Answer :=
  if (name rule =? "gastos_comunes")%string then mockGastosComunesResponse email
  else if (name rule =? "facturas_servicios")%string then mockFacturasResponse email
  else if (name rule =? "entregas_amazon")%string then mockAmazonResponse email
  else mockGenericResponse email.

Definition createFallbackExtraction (email : EmailData) (rule : EmailRule) : Answer :=
  [("tipo", Some (name rule));
   ("sender", Some (from email));
   ("subject", Some (subject email));
   ("error", Some "AI processing failed, using fallback extraction")].

Definition fallback (email : EmailData) (rule : EmailRule) : Extraction :=
  {| emailId := id email; ruleName := name rule;
     extractedFields := createFallbackExtraction email rule;
     confidence := 0;
     extractionMethod := ai_claude_fallback |}.

(** [processEmail] (lines 583-623).  It never throws: [buildPrompt] calls
    [email.date.toISOString()], which throws on an Invalid Date, and
    [calculateConfidence] may throw; both end in the [catch] branch. *)
Definition processEmail (email : EmailData) (rule : EmailRule) : Extraction :=
  match date email with
  | InvalidDate => fallback email rule
  | ValidDate _ =>
    let claudeResponse := mockClaudeCall email rule in
    match calculateConfidence claudeResponse rule with
    | None => fallback email rule
    | Some c =>
      {| emailId := id email; ruleName := name rule;
         extractedFields := claudeResponse;
         confidence := c;
         extractionMethod := ai_claude |}
    end
  end.

(** [processMultipleEmails] (lines 832-860). *)
Definition processMultipleEmails (emails : list EmailData) (rules : list EmailRule)
    : list Extraction :=
  flat_map
    (fun email =>
       match matchedRules email with
       | None | Some [] => []
       | Some names =>
         flat_map
           (fun ruleName =>
              match find (fun r => (name r =? ruleName)%string) rules with
              | None => []
              | Some rule => [processEmail email rule]
              end)
           names
       end)
    emails.

End Extractor.

End ClaudeProcessor.

(** ** The filter (class [EmailFilter], in
    src/email-processors/email-parser.ts) *)

Section FilterByRule.

Context {W : Type} (E : Env W).

(** [filterEmailsByRule] (lines 655-668) *)
Definition filterEmailsByRule (emails : list EmailData) (rs : list EmailRule)
    (ruleName : string) : list EmailData :=
  match find (fun r => (name r =? ruleName)%string) rs with
  | None => []
  | Some rule =>
    map (fun e =>
           {| id := id e; from := from e; subject := subject e; body := body e;
              date := date e; provider := provider e;
              processed := false;
              matchedRules := Some [ruleName] |})
        (List.filter (fun e => doesEmailMatchRule E e rule) emails)
  end.

(** [e.matchedRules.includes(ruleName)] *)
Definition tagged (ruleName : string) (e : EmailData) : bool :=
  match matchedRules e with
  | Some names => existsb (String.eqb ruleName) names
  | None => false
  end.

End FilterByRule.

Module EmailFilter.

Inductive Status : Type := active | paused | disabled.

(** The fields of an [EmailRule] object that the daemon never reads:
    the status and the criteria of the filter.  A criterion may be
    absent. *)
Record Criteria : Type := {
  status : Status;
  fromContains : option (list string);
  fromDomains : option (list string);
  subjectContains : option (list string);
  subjectRegex : option string;
  bodyContains : option (list string)
}.

(** [s.includes(t)] *)
Fixpoint includes (s t : string) : bool :=
  String.prefix t s
  || match s with
     | EmptyString => false
     | String _ rest => includes rest t
     end.

(** The longest run of characters other than [>] at the head of [s]. *)
Fixpoint not_gt_run (s : string) : string :=
  match s with
  | EmptyString => EmptyString
  | String c rest =>
    if Ascii.eqb c ">" then EmptyString else String c (not_gt_run rest)
  end.

(** [from.match(/@([^>]+)/)]: the group of the leftmost match, if any. *)
Fixpoint domain_of (s : string) : option string :=
  match s with
  | EmptyString => None
  | String c rest =>
    if Ascii.eqb c "@" then
      match not_gt_run rest with
      | EmptyString => domain_of rest
      | run => Some run
      end
    else domain_of rest
  end.

Definition same_provider (p q : Provider) : bool :=
  match p, q with
  | gmail, gmail | icloud, icloud => true
  | _, _ => false
  end.

Section Matching.

(** [String.prototype.toLowerCase] *)
Variable toLowerCase : string -> string.

(** [matchesProvider] (lines 523-529); [toLowerCase] leaves the two
    provider names as they are. *)
Definition matchesProvider (email : EmailData) (rule : EmailRule) : bool :=
  existsb (same_provider (provider email)) (providers rule).

(** [matchesSender] (lines 534-573) *)
Definition matchesSender (email : EmailData) (c : Criteria) : bool :=
  if (from email =? EmptyString)%string then true
  else
    let fromLower := toLowerCase (from email) in
    let contains_ok :=
      match fromContains c with
      | Some (_ :: _ as terms) =>
        existsb (fun term => includes fromLower (toLowerCase term)) terms
      | _ => true
      end in
    if negb contains_ok then false
    else
      match fromDomains c with
      | Some (_ :: _ as domains) =>
        match domain_of (from email) with
        | None => false
        | Some group =>
          let emailDomain := toLowerCase group in
          existsb (fun domain => includes emailDomain (toLowerCase domain)) domains
        end
      | _ => true
      end.

(** [matchesSubject] (lines 578-598) *)
Definition matchesSubject (email : EmailData) (c : Criteria) : bool :=
  match subjectContains c with
  | Some (_ :: _ as terms) =>
    if (subject email =? EmptyString)%string then false
    else
      let subjectLower := toLowerCase (subject email) in
      existsb (fun term => includes subjectLower (toLowerCase term)) terms
  | _ => true
  end.

(** [matchesBody] (lines 603-623) *)
Definition matchesBody (email : EmailData) (c : Criteria) : bool :=
  match bodyContains c with
  | Some (_ :: _ as terms) =>
    if (body email =? EmptyString)%string then false
    else
      let bodyLower := toLowerCase (body email) in
      existsb (fun term => includes bodyLower (toLowerCase term)) terms
  | _ => true
  end.

(** [doesEmailMatchRule] (lines 495-518) *)
Definition doesEmailMatchRule (email : EmailData) (rule : EmailRule) (c : Criteria)
    : bool :=
  if negb (matchesProvider email rule) then false
  else if negb (matchesSender email c) then false
  else if negb (matchesSubject email c) then false
  else if negb (matchesBody email c) then false
  else true.

(** [getMatchDetails] (lines 628-650): the four tests and
    [Object.values(details).every(Boolean)]. *)
Definition getMatchDetails (email : EmailData) (rule : EmailRule) (c : Criteria)
    : bool * (bool * bool * bool * bool) :=
  let details :=
    (matchesProvider email rule, matchesSender email c,
     matchesSubject email c, matchesBody email c) in
  (forallb (fun b => b)
     [matchesProvider email rule; matchesSender email c;
      matchesSubject email c; matchesBody email c],
   details).

(** A criterion holds when it is absent or empty, or when one of its
    terms does. *)
Definition any_term (terms : option (list string)) (holds : string -> Prop) : Prop :=
  match terms with
  | Some (_ :: _ as ts) => exists t, In t ts /\ holds t
  | _ => True
  end.

(** [t] occurs in [s], both in lower case. *)
Definition occurs_in (s t : string) : Prop :=
  exists a b, toLowerCase s = (a ++ toLowerCase t ++ b)%string.

End Matching.

End EmailFilter.

Section TextVocabulary.

(** The character [c] does not occur in [s]. *)
Definition has_no (c : ascii) (s : string) : Prop :=
  forall a b, s <> (a ++ String c b)%string.

Definition starts_with (c : ascii) (s : string) : Prop :=
  exists rest, s = String c rest.

End TextVocabulary.

(** ** The iCloud client: limit and message ids (class [iCloudClient],
    in src/email-providers/gmail-client.ts) *)

Module ICloudClient.

(** [Array.prototype.slice(start)] for an integral [start]: a negative
    [start] counts from the end. *)
Definition slice_from {A : Type} (start : Z) (l : list A) : list A :=
  let len := Z.of_nat (length l) in
  let k := if start <? 0 then Z.max (len + start) 0 else Z.min start len in
  drop (Z.to_nat k) l.

(** [uids.slice(-limit)] of [getEmails] (line 478). *)
Definition limitedUids (limit : Z) (uids : list N) : list N :=
  slice_from (- limit) uids.

(** A uid is a JavaScript number: an integer below 2^53 is held
    exactly, printed as its decimal numeral and read back exactly.  IMAP
    uids are 32-bit, so they are all in that range. *)
Definition exact_number (n : N) : bool := (n <? 2 ^ 53)%N.

(** The id [parseImapMessage] gives a message (line 589): the text
    "icloud_" and the decimal numeral of the uid.  [None] for a uid of
    2^53 or more, which a number may not hold and prints with rounded
    digits or in exponent form: that is outside this model. *)
Definition message_id (uid : N) : option string :=
  if exact_number uid then
    Some ("icloud_" ++ DecimalString.NilZero.string_of_uint (N.to_uint uid))%string
  else None.

(** What [getEmailById] makes of an id (lines 640-647). *)
Inductive ParsedId : Type :=
| NoMatch
| Uid (uid : N)
| Rounded.

(** [messageId.match(/^icloud_(\d+)$/)], then [parseInt] of the digits.
    [Rounded] when the digits denote 2^53 or more: [parseInt] then gives
    a rounded number, which is outside this model. *)
Definition uid_of (messageId : string) : ParsedId :=
  match messageId with
  | String "i" (String "c" (String "l" (String "o" (String "u" (String "d"
      (String "_" digits)))))) =>
    match DecimalString.NilZero.uint_of_string digits with
    | Some d => if exact_number (N.of_uint d) then Uid (N.of_uint d) else Rounded
    | None => NoMatch
    end
  | _ => NoMatch
  end.

End ICloudClient.

(** ** The daemon tools of the MCP server (class
    [SmartEmailRemindersMCP], in src/index.ts) *)

Module Server.

(** The arguments of the [start_daemon] tool; each may be absent. *)
Record StartArgs : Type := {
  a_obsidianVaultPath : option string;
  a_intervalMinutes : option Z;
  a_maxEmailsPerScan : option Z;
  a_enableGmail : option bool;
  a_enableIcloud : option bool
}.

(** [x || d] for a number: [undefined] and 0 give [d]. *)
Definition number_or (x : option Z) (d : Z) : Z :=
  match x with
  | None | Some 0 => d
  | Some n => n
  end.

(** [x || d] for a string: [undefined] and the empty string give [d]. *)
Definition string_or (x : option string) (d : string) : string :=
  match x with
  | None | Some EmptyString => d
  | Some s => s
  end.

(** Truthiness of an optional flag. *)
Definition flag (x : option bool) : bool := default false x.

(** The [Configuration] that [startDaemon] builds (lines 198-227): the
    provider sections are added only for the flags that are set. *)
Definition configuration_of (args : StartArgs) : Configuration :=
  {| obsidianVaultPath :=
       string_or (a_obsidianVaultPath args)
                 "/Users/gonzaloriederer/Documents/Obsidian/griederer";
     cfg_gmail := flag (a_enableGmail args);
     cfg_icloud := flag (a_enableIcloud args);
     daemon_intervalMinutes := number_or (a_intervalMinutes args) 30;
     daemon_maxEmailsPerScan := number_or (a_maxEmailsPerScan args) 50;
     daemon_retryAttempts := 3 |}.

(** The texts the tools answer with, by their kind and their variable
    parts. *)
Inductive Reply : Type :=
| AlreadyRunning
| StartedReply (vaultPath : string) (intervalMinutes : Z) (gmail icloud : bool)
| StartFailed (errorMessage : string)
| ForceNotRunning
| ForceCompleted
| ForceFailed (errorMessage : string).

(** The server: the world, the daemon it holds, if any, and the trace. *)
Record Srv (W : Type) : Type := mkSrv {
  srv_world : W;
  srv_daemon : option Daemon;
  srv_log : list Action
}.
Arguments mkSrv {W} _ _ _.
Arguments srv_world {W} _.
Arguments srv_daemon {W} _.
Arguments srv_log {W} _.

Section Tools.

Context {W : Type} (E : Env W).

(** [this.daemon?.isRunning()] *)
Definition daemon_running (s : Srv W) : bool :=
  match srv_daemon s with
  | Some d => _isRunning d
  | None => false
  end.

Definition holding (st : St W) : Srv W :=
  mkSrv (world st) (Some (dmn st)) (log st).

(** [startDaemon] (lines 180-254) *)
Definition startDaemon (args : StartArgs) (s : Srv W) : Reply * Srv W :=
  if daemon_running s then (AlreadyRunning, s)
  else
    let configuration := configuration_of args in
    let daemon := constructor configuration no_override in
    match start E (mkSt (srv_world s) daemon (srv_log s)) with
    | (Ok _, st') =>
      (StartedReply (obsidianVaultPath configuration)
                    (daemon_intervalMinutes configuration)
                    (flag (a_enableGmail args)) (flag (a_enableIcloud args)),
       holding st')
    | (Throw e, st') => (StartFailed (error_message e), holding st')
    end.

(** [forceProcessing] of the server (lines 313-347) *)
Definition forceProcessingTool (s : Srv W) : Reply * Srv W :=
  match srv_daemon s with
  | None => (ForceNotRunning, s)
  | Some d =>
    if negb (_isRunning d) then (ForceNotRunning, s)
    else
      match forceProcessing E (mkSt (srv_world s) d (srv_log s)) with
      | (Ok _, st') => (ForceCompleted, holding st')
      | (Throw e, st') => (ForceFailed (error_message e), holding st')
      end
  end.

End Tools.

End Server.

(** * Properties *)

(** ** The monad *)

(** Unfold the primitives of the monad and compute. *)
Ltac run_monad :=
  unfold bind, ret, throw, try_catch, try_finally, get_dmn, get_world,
    modify_state, modify, emit, tell, call, call_res, exec, result in *;
  cbn [fst snd world dmn log] in *.

Section MonadFacts.

Context {W : Type}.

Lemma bind_ok {A B} (m : M W A) (k : A -> M W B) st a st' :
  m st = (Ok a, st') -> bind m k st = k a st'.
Proof. intros H. unfold bind. now rewrite H. Qed.

Lemma bind_throw {A B} (m : M W A) (k : A -> M W B) st e st' :
  m st = (Throw e, st') -> bind m k st = (Throw e, st').
Proof. intros H. unfold bind. now rewrite H. Qed.

Lemma try_catch_ok {A} (m : M W A) h st a st' :
  m st = (Ok a, st') -> try_catch m h st = (Ok a, st').
Proof. intros H. unfold try_catch. now rewrite H. Qed.

Lemma try_catch_throw {A} (m : M W A) h st e st' :
  m st = (Throw e, st') -> try_catch m h st = h e st'.
Proof. intros H. unfold try_catch. now rewrite H. Qed.

Lemma for_each_app {A} (f : A -> M W unit) l1 l2 st :
  for_each f (l1 ++ l2) st = bind (for_each f l1) (fun _ => for_each f l2) st.
Proof.
  revert st. induction l1 as [|x l1 IH]; intros st; simpl.
  - reflexivity.
  - unfold bind. destruct (f x st) as [[[]|e] st1]; [|reflexivity].
    rewrite IH. reflexivity.
Qed.

(** A loop whose body never throws is the fold of its body. *)
Lemma for_each_total {A} (f : A -> M W unit) (l : list A) (st : St W) :
  (forall x st, fst (f x st) = Ok tt) ->
  for_each f l st = (Ok tt, fold_left (fun st x => exec (f x) st) l st).
Proof.
  intros Hf. revert st. induction l as [|x l IH]; intros st; cbn.
  - reflexivity.
  - unfold bind, exec. specialize (Hf x st).
    destruct (f x st) as [r st1]. cbn in Hf. subst r. apply IH.
Qed.

Lemma drop_length_app {A} (l k : list A) : drop (length l) (l ++ k) = k.
Proof. now rewrite drop_app_length. Qed.

End MonadFacts.

(** ** Fetching *)

Section FetchFacts.

Context {W : Type} (E : Env W).

(** [fetchNewEmails] never throws, leaves the daemon as it is, appends the
    requests of the ready sources, and returns mails that pass its filter. *)
Lemma fetchNewEmails_spec (st : St W) :
  exists all w',
    fetchNewEmails E st =
    (Ok (List.filter (is_new (state (dmn st))) all),
     mkSt w' (dmn st) (log st ++ fetch_requests E st)).
Proof.
  unfold fetchNewEmails, fetch_requests, gmail_ready, icloud_ready.
  destruct st as [w d l]. run_monad.
  destruct (gmailClient d && gmail_isReady E w) eqn:Hg;
    destruct (icloudClient d && icloud_isReady E w) eqn:Hi;
    run_monad;
    repeat match goal with
           | |- context [gmail_getEmails E ?n ?w] =>
             destruct (gmail_getEmails E n w) as [[?|?] ?]
           | |- context [icloud_getEmails E ?n ?w] =>
             destruct (icloud_getEmails E n w) as [[?|?] ?]
           end;
    run_monad;
    rewrite <- ?app_assoc, ?app_nil_r; cbn [app];
    eexists _, _; reflexivity.
Qed.


End FetchFacts.

(** ** C2: the per-source fetch limit *)




(** ** C3: the enqueue step *)

Section EnqueueFacts.

Context {W : Type}.

Lemma set_processingQueue_same (d : Daemon) :
  set_processingQueue (processingQueue d) d = d.
Proof. now destruct d. Qed.

(** The enqueue loop appends, in order, one fresh item per matched mail
    whose id is not in [processedEmailIds], and does nothing else. *)
Lemma enqueueMatched_spec (matched : list EmailData) (rs : list EmailRule) (st : St W) :
  enqueueMatched matched rs st =
  (Ok tt,
   mkSt (world st)
        (set_processingQueue
           (processingQueue (dmn st)
            ++ map (fun e => new_item e rs) (unprocessed (state (dmn st)) matched))
           (dmn st))
        (log st)).
Proof.
  unfold enqueueMatched. rewrite for_each_total.
  - revert st. induction matched as [|e matched IH]; intros [w d l].
    + cbn. now rewrite app_nil_r, set_processingQueue_same.
    + cbn [fold_left]. rewrite IH. unfold addToQueue, unprocessed. run_monad.
      cbn [List.filter]. destruct (negb (has (state d) (id e))); cbn.
      * now rewrite <- app_assoc.
      * reflexivity.
  - intros e [w d l]. unfold addToQueue. run_monad.
    now destruct (negb (has (state d) (id e))).
Qed.

End EnqueueFacts.

(** C3, as amended.  In every cycle a matched message is appended to the
    processing queue, as a QueueItem with [attempts = 0], exactly when its
    id is not in [processedEmailIds]; the items already in the queue are
    not consulted, so the queue may hold several items for one id. *)
Theorem enqueue_checks_processed_ids_only {W : Type}
    (matched : list EmailData) (rs : list EmailRule) (st : St W) :
  let st' := exec (enqueueMatched matched rs) st in
  result (enqueueMatched matched rs) st = Ok tt
  /\ processingQueue (dmn st') =
     processingQueue (dmn st)
     ++ map (fun e => new_item e rs) (unprocessed (state (dmn st)) matched)
  /\ state (dmn st') = state (dmn st)
  /\ Forall (fun it => attempts it = 0
                       /\ In (email it) matched
                       /\ id (email it) ∉ processedEmailIds (state (dmn st)))
            (map (fun e => new_item e rs) (unprocessed (state (dmn st)) matched))
  /\ (forall e, In e matched ->
        id e ∉ processedEmailIds (state (dmn st)) ->
        In (new_item e rs) (processingQueue (dmn st'))).
Proof.
  cbv zeta. unfold exec, result. rewrite enqueueMatched_spec. cbn [fst snd dmn].
  split; [reflexivity|]. split; [reflexivity|]. split; [reflexivity|].
  split.
  - apply List.Forall_forall. intros it Hit.
    apply in_map_iff in Hit as (e & <- & He).
    apply filter_In in He as [He Hnew].
    split; [reflexivity|]. split; [exact He|].
    cbn. unfold has in Hnew. apply negb_true_iff in Hnew.
    now apply bool_decide_eq_false in Hnew.
  - intros e He Hnew. cbn. apply in_or_app. right.
    apply (in_map (fun x => new_item x rs)). apply filter_In. split; [exact He|].
    unfold has. apply negb_true_iff. now apply bool_decide_eq_false.
Qed.

(** The enqueue step of the second cycle of the re-fetch scenario appends
    a second item for "m1" behind the one awaiting its retry. *)
Lemma enqueue_checks_processed_ids_only_witness :
  In (new_item (Scripted.matched_as Refetched.m1 "r1") [Scripted.rule "r1"])
     (processingQueue
        (dmn (exec (enqueueMatched [Scripted.matched_as Refetched.m1 "r1"]
                                   [Scripted.rule "r1"])
                   Refetched.after_cycle1))).
Proof.
  apply (enqueue_checks_processed_ids_only
           [Scripted.matched_as Refetched.m1 "r1"] [Scripted.rule "r1"]
           Refetched.after_cycle1).
  - now left.
  - apply (bool_decide_unpack _). vm_compute. exact I.
Defined.

(** C3, as stated, fails: "m1" is still queued for a retry when Gmail
    returns it again; the enqueue step appends it once more, and the queue
    then holds two items with the id "m1". *)
Lemma enqueue_counterexample :
  queued_ids (dmn Refetched.after_cycle1) = ["m1"]
  /\ queued_ids (dmn (exec (cycle_until_enqueued Scripted.env)
                           Refetched.after_cycle1)) = ["m1"; "m1"]
  /\ ~ queue_has_no_duplicate_ids Scripted.env Refetched.after_cycle1.
Proof.
  split; [reflexivity|].
  assert (H : queued_ids (dmn (exec (cycle_until_enqueued Scripted.env)
                                    Refetched.after_cycle1)) = ["m1"; "m1"])
    by (vm_compute; reflexivity).
  split; [exact H|].
  unfold queue_has_no_duplicate_ids. rewrite H. intros Hnd.
  inversion Hnd as [|x l Hnotin _]. apply Hnotin. now left.
Qed.

(** ** Processing one queue item *)

Section ItemFacts.

Context {W : Type} (E : Env W).

Lemma add_reminders_0 (d : Daemon) : add_reminders 0 d = d.
Proof.
  destruct d as [c s r i q p g ic]. destruct s. unfold add_reminders, set_state.
  cbn. now rewrite Z.add_0_r.
Qed.

Lemma add_reminders_add (n m : Z) (d : Daemon) :
  add_reminders n (add_reminders m d) = add_reminders (m + n) d.
Proof. unfold add_reminders, set_state. cbn. now rewrite Z.add_assoc. Qed.

Lemma count_reminder_add (d : Daemon) :
  set_state (count_reminder (state d)) d = add_reminders 1 d.
Proof. reflexivity. Qed.

Lemma count_created_app (l k : list Action) :
  count_created (l ++ k) = count_created l + count_created k.
Proof.
  unfold count_created. rewrite List.filter_app, length_app. lia.
Qed.

(** A result that does not pass the gate is skipped: the loop goes on as
    if it were not in the list. *)
Lemma processResults_skip e rs r rest (st : St W) :
  passes_gate rs r = false ->
  processResults E e rs (r :: rest) st = processResults E e rs rest st.
Proof.
  unfold passes_gate, rule_of. intros H. cbn [processResults].
  destruct (confidence r <? 25); [reflexivity|]. cbn in H.
  now destruct (find _ rs).
Qed.

(** A result that passes the gate is handed to the sink. *)
Lemma processResults_call e rs r rest (st : St W) rule :
  (confidence r <? 25) = false ->
  rule_of rs r = Some rule ->
  processResults E e rs (r :: rest) st =
  let c := CallCreateReminder (extractedFields r) (reminderTemplate rule) (id e) in
  match createReminderFromExtractedData E (extractedFields r)
          (reminderTemplate rule) (id e) (world st) with
  | (Ok rr, w') =>
    if success rr then
      processResults E e rs rest
        (mkSt w' (add_reminders 1 (dmn st))
              (log st ++ [c; Emit (reminderCreated (id e) (reminderId rr)
                                                   (ruleName r) (confidence r))]))
    else (Throw (Error (default "" (error rr)) None),
          mkSt w' (dmn st) (log st ++ [c]))
  | (Throw ex, w') => (Throw ex, mkSt w' (dmn st) (log st ++ [c]))
  end.
Proof.
  unfold rule_of. intros Hc Hr. cbn [processResults]. rewrite Hc, Hr.
  run_monad.
  destruct (createReminderFromExtractedData E _ _ _ (world st)) as [[rr|ex] w'];
    [|reflexivity].
  destruct (success rr); [|reflexivity].
  cbn [world dmn log]. now rewrite <- app_assoc.
Qed.

Lemma processResults_app e rs pre post (st : St W) :
  processResults E e rs (pre ++ post) st =
  bind (processResults E e rs pre) (fun _ => processResults E e rs post) st.
Proof.
  revert st. induction pre as [|r pre IH]; intros st.
  - reflexivity.
  - cbn [app]. destruct (passes_gate rs r) eqn:Hg.
    + unfold passes_gate in Hg. apply andb_true_iff in Hg as [Hc Hr].
      apply negb_true_iff in Hc.
      destruct (rule_of rs r) as [rule|] eqn:Hrule; [|discriminate].
      unfold bind. rewrite !(processResults_call _ _ _ _ _ rule Hc Hrule).
      cbv zeta.
      destruct (createReminderFromExtractedData E _ _ _ (world st)) as [[rr|ex] w'];
        [|reflexivity].
      destruct (success rr); [|reflexivity].
      apply IH.
    + unfold bind. rewrite !(processResults_skip _ _ _ _ _ Hg). apply IH.
Qed.

(** When no result passes the gate, the loop does nothing. *)
Lemma processResults_none_pass e rs results (st : St W) :
  Forall (fun r => passes_gate rs r = false) results ->
  processResults E e rs results st = (Ok tt, st).
Proof.
  induction 1 as [|r results Hr _ IH].
  - reflexivity.
  - now rewrite processResults_skip.
Qed.

(** The loop touches nothing but [totalRemindersCreated], which it raises
    by one per [reminderCreated] event, and it only logs sink actions for
    the item's message; when it ends normally every result that passes the
    gate has had its successful call. *)
Lemma processResults_frame e rs results (st : St W) :
  exists r w' l,
    processResults E e rs results st =
    (r, mkSt w' (add_reminders (count_created l) (dmn st)) (log st ++ l))
    /\ Forall (sink_action (id e)) l
    /\ (r = Ok tt ->
        count_created l = Z.of_nat (length (List.filter (passes_gate rs) results))).
Proof.
  revert st. induction results as [|r results IH]; intros st.
  - exists (Ok tt), (world st), []. cbn.
    rewrite add_reminders_0, app_nil_r. destruct st; auto.
  - destruct (passes_gate rs r) eqn:Hg.
    + pose proof Hg as Hg'.
      unfold passes_gate in Hg. apply andb_true_iff in Hg as [Hc Hr].
      apply negb_true_iff in Hc.
      destruct (rule_of rs r) as [rule|] eqn:Hrule; [|discriminate].
      rewrite (processResults_call _ _ _ _ _ rule Hc Hrule). cbv zeta.
      destruct (createReminderFromExtractedData E _ _ _ (world st)) as [[rr|ex] w'].
      * destruct (success rr).
        -- match goal with
           | |- context [processResults E e rs results ?s] =>
             destruct (IH s) as (r' & w'' & l & Heq & Hl & Hok)
           end.
           rewrite Heq. cbn [dmn log].
           eexists r', w'', (_ :: _ :: l).
           rewrite add_reminders_add. split.
           { rewrite <- app_assoc. cbn [app]. repeat f_equal.
             unfold count_created. cbn. lia. }
           split.
           { repeat constructor; auto. }
           intros Hr'. specialize (Hok Hr'). cbn [List.filter]. rewrite Hg'.
           unfold count_created in *. cbn in *. lia.
        -- eexists _, w', [CallCreateReminder _ _ _].
           unfold count_created. cbn [List.filter is_reminderCreated length Z.of_nat].
           rewrite add_reminders_0.
           split; [reflexivity|]. split; [repeat constructor|]. discriminate.
      * eexists _, w', [CallCreateReminder _ _ _].
        unfold count_created. cbn [List.filter is_reminderCreated length Z.of_nat].
        rewrite add_reminders_0.
        split; [reflexivity|]. split; [repeat constructor|]. discriminate.
    + rewrite (processResults_skip _ _ _ _ _ Hg).
      destruct (IH st) as (r' & w' & l & Heq & Hl & Hok).
      exists r', w', l. split; [exact Heq|]. split; [exact Hl|].
      intros Hr'. cbn [List.filter]. rewrite Hg. auto.
Qed.

End ItemFacts.

Section AttemptFacts.

Context {W : Type} (E : Env W).

(** One attempt on an item: the extraction call, then the loop over its
    results. *)
Lemma processQueueItem_unfold (item : ProcessingQueueItem) (st : St W) :
  processQueueItem E item st =
  let c := CallProcessMultipleEmails (email item) (rules item) in
  match processMultipleEmails E [email item] (rules item) (world st) with
  | (Ok results, w') =>
    processResults E (email item) (rules item) results
                   (mkSt w' (dmn st) (log st ++ [c]))
  | (Throw ex, w') => (Throw ex, mkSt w' (dmn st) (log st ++ [c]))
  end.
Proof.
  unfold processQueueItem. run_monad.
  now destruct (processMultipleEmails E _ _ (world st)) as [[results|ex] w'].
Qed.

Lemma processQueueItem_frame (item : ProcessingQueueItem) (st : St W) :
  exists r w' l,
    processQueueItem E item st =
    (r, mkSt w' (add_reminders (count_created l) (dmn st))
             (log st ++ CallProcessMultipleEmails (email item) (rules item) :: l))
    /\ Forall (sink_action (id (email item))) l
    /\ (r = Ok tt ->
        exists results w1,
          processMultipleEmails E [email item] (rules item) (world st)
          = (Ok results, w1)
          /\ count_created l
             = Z.of_nat (length (List.filter (passes_gate (rules item)) results))).
Proof.
  rewrite processQueueItem_unfold. cbv zeta.
  destruct (processMultipleEmails E _ _ (world st)) as [[results|ex] w'].
  - match goal with
    | |- context [processResults E ?e ?rs results ?s] =>
      destruct (processResults_frame E e rs results s) as (r & w'' & l & Heq & Hl & Hok)
    end.
    rewrite Heq. cbn [dmn log]. exists r, w'', l.
    split; [now rewrite <- app_assoc|]. split; [exact Hl|].
    intros Hr. exists results, w'. split; [reflexivity|auto].
  - exists (Throw ex), w', []. rewrite add_reminders_0.
    split; [reflexivity|]. split; [constructor|discriminate].
Qed.

(** The body of the drain loop, by the outcome of the attempt. *)
Lemma processOne_unfold (item : ProcessingQueueItem) (st : St W) :
  processOne E item st =
  match processQueueItem E item st with
  | (Ok _, st1) =>
    (Ok tt,
     mkSt (world st1)
          (set_state (mark_processed (id (email item)) (state (dmn st1))) (dmn st1))
          (log st1))
  | (Throw ex, st1) =>
    let '(t, w') := clock E (world st1) in
    let item' := failed_item item (ValidDate t) (error_message ex) in
    if attempts item' <? retryAttempts (config (dmn st1)) then
      (Ok tt,
       mkSt w' (set_processingQueue (processingQueue (dmn st1) ++ [item']) (dmn st1))
            (log st1))
    else
      (Ok tt,
       mkSt w' (dmn st1)
            (log st1 ++ [Emit (processingFailed (id (email item))
                                                (error_message ex)
                                                (attempts item'))]))
  end.
Proof.
  unfold processOne, new_Date. run_monad.
  destruct (processQueueItem E item st) as [[[]|ex] st1]; [reflexivity|].
  destruct (clock E (world st1)) as [t w']. cbn [world dmn log].
  cbn [attempts failed_item email].
  destruct (attempts item + 1 <? retryAttempts (config (dmn st1)));
    reflexivity.
Qed.

Lemma processOne_total (item : ProcessingQueueItem) (st : St W) :
  fst (processOne E item st) = Ok tt.
Proof.
  rewrite processOne_unfold.
  destruct (processQueueItem E item st) as [[[]|ex] st1]; [reflexivity|].
  destruct (clock E (world st1)) as [t w']. cbv zeta.
  now destruct (_ <? _).
Qed.

(** The drain is the fold of its body over the snapshot of the queue. *)
Lemma processQueue_unfold (st : St W) :
  processQueue E st =
  (Ok tt,
   fold_left (fun st it => exec (processOne E it) st)
             (processingQueue (dmn st))
             (mkSt (world st) (set_processingQueue [] (dmn st)) (log st))).
Proof.
  unfold processQueue. run_monad.
  rewrite for_each_total by apply processOne_total. reflexivity.
Qed.

End AttemptFacts.

(** ** C4: the confidence gate *)

Section GateFacts.

Context {W : Type} (E : Env W).

(** An item none of whose results passes the gate: the attempt is the
    extraction call alone, and the drain marks the message processed. *)
Lemma processOne_none_pass (item : ProcessingQueueItem) (st : St W) results w' :
  processMultipleEmails E [email item] (rules item) (world st) = (Ok results, w') ->
  Forall (fun r => passes_gate (rules item) r = false) results ->
  processOne E item st =
  (Ok tt,
   mkSt w'
        (set_state (mark_processed (id (email item)) (state (dmn st))) (dmn st))
        (log st ++ [CallProcessMultipleEmails (email item) (rules item)])).
Proof.
  intros Hx Hlow. rewrite processOne_unfold, processQueueItem_unfold.
  cbv zeta. rewrite Hx. now rewrite processResults_none_pass.
Qed.

Lemma low_confidence_fails_gate rs (r : ProcessingResult) :
  confidence r < 25 -> passes_gate rs r = false.
Proof.
  intros H. unfold passes_gate. apply Z.ltb_lt in H. now rewrite H.
Qed.

(** The loop logs the call for a result that passes the gate before
    anything else. *)
Lemma processResults_logs_call e rs r rest (st : St W) rule :
  25 <= confidence r ->
  rule_of rs r = Some rule ->
  exists l,
    log (exec (processResults E e rs (r :: rest)) st) =
    log st ++ CallCreateReminder (extractedFields r) (reminderTemplate rule) (id e) :: l.
Proof.
  intros Hc Hrule. apply Z.ltb_ge in Hc.
  unfold exec. rewrite (processResults_call _ _ _ _ _ _ rule Hc Hrule). cbv zeta.
  destruct (createReminderFromExtractedData E _ _ _ (world st)) as [[rr|ex] w'].
  - destruct (success rr).
    + match goal with
      | |- context [processResults E e rs rest ?s] =>
        destruct (processResults_frame E e rs rest s) as (r' & w'' & l & Heq & _)
      end.
      rewrite Heq. cbn [snd log]. rewrite <- app_assoc. cbn [app]. eauto.
    + cbn [snd log]. eauto.
  - cbn [snd log]. eauto.
Qed.

End GateFacts.

(** C4, as amended.  When a queue item is processed, an ExtractionResult
    with confidence below 25 is skipped: the attempt goes on exactly as if
    the result were absent, so the sink is not called for it and it causes
    no failure, retry or recorded error (an item all of whose results are
    below 25 is marked processed after the extraction call alone).  An
    ExtractionResult with confidence at least 25 whose rule name is in the
    item's rule list has the sink called for it when the loop reaches it,
    that is, when the results before it were handled without a sink
    failure. *)
Theorem confidence_gate {W : Type} (E : Env W) (e : EmailData)
    (rs : list EmailRule) (pre post : list ProcessingResult)
    (r : ProcessingResult) (st : St W) :
  (confidence r < 25 ->
   processResults E e rs (pre ++ r :: post) st =
   processResults E e rs (pre ++ post) st)
  /\ (25 <= confidence r ->
      forall rule st1,
        rule_of rs r = Some rule ->
        processResults E e rs pre st = (Ok tt, st1) ->
        exists l,
          log (exec (processResults E e rs (pre ++ r :: post)) st) =
          log st1
          ++ CallCreateReminder (extractedFields r) (reminderTemplate rule) (id e)
          :: l)
  /\ (forall item results w',
        processMultipleEmails E [email item] (rules item) (world st)
        = (Ok results, w') ->
        Forall (fun x => confidence x < 25) results ->
        processOne E item st =
        (Ok tt,
         mkSt w'
              (set_state (mark_processed (id (email item)) (state (dmn st)))
                         (dmn st))
              (log st ++ [CallProcessMultipleEmails (email item) (rules item)]))).
Proof.
  split; [|split].
  - intros Hlow. rewrite !processResults_app. unfold bind.
    destruct (processResults E e rs pre st) as [[[]|ex] st1]; [|reflexivity].
    apply processResults_skip. now apply low_confidence_fails_gate.
  - intros Hhigh rule st1 Hrule Hpre.
    unfold exec. rewrite processResults_app. unfold bind. rewrite Hpre.
    apply (processResults_logs_call E e rs r post st1 rule Hhigh Hrule).
  - intros item results w' Hx Hlow.
    apply (processOne_none_pass E item st results w' Hx).
    eapply List.Forall_impl; [|exact Hlow].
    intros x Hx'. now apply low_confidence_fails_gate.
Qed.

(** With results of confidence 20 and 25: the first is skipped, the sink is
    called for the second; an item whose only result has confidence 20 is
    marked processed without a sink call. *)
Lemma confidence_gate_witness :
  processResults Scripted.env Gate.m1 Gate.rs [Gate.low20; Gate.edge25] Gate.st
  = processResults Scripted.env Gate.m1 Gate.rs [Gate.edge25] Gate.st
  /\ (exists l,
        log (exec (processResults Scripted.env Gate.m1 Gate.rs
                                  [Gate.low20; Gate.edge25]) Gate.st)
        = log Gate.st
          ++ CallCreateReminder (extractedFields Gate.edge25) Scripted.template "m1"
          :: l)
  /\ new_log (processOne Scripted.env Gate.item) Gate.st_low
     = [CallProcessMultipleEmails Gate.m1 Gate.rs].
Proof.
  split; [|split].
  - apply (confidence_gate Scripted.env Gate.m1 Gate.rs [] [Gate.edge25]
                           Gate.low20 Gate.st).
    reflexivity.
  - assert (Hhigh : 25 <= confidence Gate.edge25) by discriminate.
    exact (proj1 (proj2 (confidence_gate Scripted.env Gate.m1 Gate.rs
                           [Gate.low20] [] Gate.edge25 Gate.st))
                 Hhigh (Scripted.rule "r1") Gate.st eq_refl eq_refl).
  - unfold new_log, exec.
    rewrite (proj2 (proj2 (confidence_gate Scripted.env Gate.m1 Gate.rs [] []
                             Gate.low20 Gate.st_low))
               Gate.item [Gate.low20] _ eq_refl).
    + reflexivity.
    + repeat constructor.
Defined.

(** C4, as stated, fails: the extraction yields two results of confidence
    85 for rules of the item's list; the sink fails on the first, the
    attempt is abandoned, and the sink is never called for the second. *)
Lemma confidence_gate_counterexample :
  new_log (processQueueItem Scripted.env TwoRules.item) TwoRules.st_fails_first
  = [CallProcessMultipleEmails TwoRules.m1 TwoRules.rs;
     CallCreateReminder [("monto", "1000")] Scripted.template "m1"]
  /\ ~ sink_called_for_every_confident_result
         Scripted.env TwoRules.item TwoRules.st_fails_first.
Proof.
  split; [reflexivity|].
  intros H.
  specialize (H [TwoRules.bill; TwoRules.parcel] _ eq_refl
                TwoRules.parcel (Scripted.rule "r2")).
  assert (Hin : In (CallCreateReminder [("tracking", "TRK1")] Scripted.template "m1")
                   [CallProcessMultipleEmails TwoRules.m1 TwoRules.rs;
                    CallCreateReminder [("monto", "1000")] Scripted.template "m1"]).
  { apply H.
    - right. now left.
    - discriminate.
    - reflexivity. }
  destruct Hin as [Hin|[Hin|[]]]; discriminate Hin.
Qed.

(** ** C6: bookkeeping on success *)

(** C6, as amended.  Each successful call to the sink raises
    [totalRemindersCreated] by one and emits [reminderCreated] with the
    email id, the returned reminder id, the rule name and the confidence.
    The message id is added to [processedEmailIds] and
    [totalEmailsProcessed] is raised by one when the whole attempt on the
    item ends without a sink failure; [totalRemindersCreated] has then
    grown by one per result that passed the gate.  For an item with a
    single such result all three happen together. *)
Theorem success_bookkeeping {W : Type} (E : Env W)
    (item : ProcessingQueueItem) (st : St W) :
  (forall r rest rule rr w',
      25 <= confidence r ->
      rule_of (rules item) r = Some rule ->
      createReminderFromExtractedData E (extractedFields r)
        (reminderTemplate rule) (id (email item)) (world st) = (Ok rr, w') ->
      success rr = true ->
      processResults E (email item) (rules item) (r :: rest) st =
      processResults E (email item) (rules item) rest
        (mkSt w' (add_reminders 1 (dmn st))
              (log st
               ++ [CallCreateReminder (extractedFields r) (reminderTemplate rule)
                                      (id (email item));
                   Emit (reminderCreated (id (email item)) (reminderId rr)
                                         (ruleName r) (confidence r))])))
  /\ (forall st1,
        processQueueItem E item st = (Ok tt, st1) ->
        let s := state (dmn st) in
        let s' := state (dmn (exec (processOne E item) st)) in
        processedEmailIds s' = {[ id (email item) ]} ∪ processedEmailIds s
        /\ totalEmailsProcessed s' = totalEmailsProcessed s + 1
        /\ totalRemindersCreated s'
           = totalRemindersCreated s
             + count_created (new_log (processOne E item) st)
        /\ (exists results w1,
              processMultipleEmails E [email item] (rules item) (world st)
              = (Ok results, w1)
              /\ totalRemindersCreated s'
                 = totalRemindersCreated s
                   + Z.of_nat (length (List.filter (passes_gate (rules item))
                                                   results)))
        /\ processingQueue (dmn (exec (processOne E item) st))
           = processingQueue (dmn st))
  /\ (forall r rule rr w1 w2,
        processMultipleEmails E [email item] (rules item) (world st)
        = (Ok [r], w1) ->
        25 <= confidence r ->
        rule_of (rules item) r = Some rule ->
        createReminderFromExtractedData E (extractedFields r)
          (reminderTemplate rule) (id (email item)) w1 = (Ok rr, w2) ->
        success rr = true ->
        processOne E item st =
        (Ok tt,
         mkSt w2
              (set_state
                 (mark_processed (id (email item))
                                 (count_reminder (state (dmn st))))
                 (dmn st))
              (log st
               ++ [CallProcessMultipleEmails (email item) (rules item);
                   CallCreateReminder (extractedFields r) (reminderTemplate rule)
                                      (id (email item));
                   Emit (reminderCreated (id (email item)) (reminderId rr)
                                         (ruleName r) (confidence r))]))).
Proof.
  split; [|split].
  - intros r rest rule rr w' Hc Hrule Hsink Hok. apply Z.ltb_ge in Hc.
    rewrite (processResults_call E _ _ _ _ _ rule Hc Hrule). cbv zeta.
    now rewrite Hsink, Hok.
  - intros st1 Hattempt. cbv zeta.
    destruct (processQueueItem_frame E item st) as (r & w' & l & Heq & Hl & Hok).
    rewrite Heq in Hattempt. injection Hattempt as -> <-.
    destruct (Hok eq_refl) as (results & w1 & Hx & Hcount).
    unfold new_log, exec. rewrite processOne_unfold, Heq.
    cbn [snd dmn log world]. rewrite drop_length_app.
    assert (Hc : count_created
                   (CallProcessMultipleEmails (email item) (rules item) :: l)
                 = count_created l) by reflexivity.
    rewrite Hc. cbn.
    split; [reflexivity|]. split; [reflexivity|]. split; [reflexivity|].
    split; [|reflexivity].
    exists results, w1. split; [exact Hx|]. now rewrite Hcount.
  - intros r rule rr w1 w2 Hx Hc Hrule Hsink Hok. apply Z.ltb_ge in Hc.
    rewrite processOne_unfold, processQueueItem_unfold. cbv zeta. rewrite Hx.
    rewrite (processResults_call E _ _ _ _ _ rule Hc Hrule). cbv zeta.
    cbn [world dmn log]. rewrite Hsink, Hok. cbn [processResults ret].
    cbn [world dmn log]. rewrite <- app_assoc. reflexivity.
Qed.

(** The scenario of section 8, and an item with two results that both
    reach the sink. *)
Lemma success_bookkeeping_witness :
  new_log (processOne Scripted.env Section8.item) Section8.st
  = [CallProcessMultipleEmails Section8.m1 Section8.rs;
     CallCreateReminder [("monto", "1000"); ("vencimiento", "2025-03-01")]
                        Scripted.template "m1";
     Emit (reminderCreated "m1" (Some "R1") "r1" 85)]
  /\ totalRemindersCreated
       (state (dmn (exec (processOne Scripted.env Section8.item) Section8.st))) = 1
  /\ "m1" ∈ processedEmailIds
       (state (dmn (exec (processOne Scripted.env Section8.item) Section8.st)))
  /\ totalEmailsProcessed
       (state (dmn (exec (processOne Scripted.env TwoRules.item)
                         TwoRules.st_succeeds))) = 1
  /\ totalRemindersCreated
       (state (dmn (exec (processOne Scripted.env TwoRules.item)
                         TwoRules.st_succeeds))) = 2.
Proof.
  assert (Hc : 25 <= confidence Section8.found) by discriminate.
  assert (Hx : processMultipleEmails Scripted.env [email Section8.item]
                 (rules Section8.item) (world Section8.st)
               = (Ok [Section8.found], Section8.w1)) by (vm_compute; reflexivity).
  assert (Hsink : createReminderFromExtractedData Scripted.env
                    (extractedFields Section8.found)
                    (reminderTemplate (Scripted.rule "r1"))
                    (id (email Section8.item)) Section8.w1
                  = (Ok (Scripted.created "R1"), Section8.w2))
    by (vm_compute; reflexivity).
  pose proof (proj2 (proj2 (success_bookkeeping Scripted.env Section8.item
                              Section8.st))
                _ _ _ _ _ Hx Hc eq_refl Hsink eq_refl) as H8.
  eassert (Hattempt : processQueueItem Scripted.env TwoRules.item
                        TwoRules.st_succeeds = (Ok tt, _))
    by (vm_compute; reflexivity).
  destruct (proj1 (proj2 (success_bookkeeping Scripted.env TwoRules.item
                            TwoRules.st_succeeds)) _ Hattempt)
    as (_ & Hp & _ & (results & w1 & Hx2 & Hr) & _).
  unfold new_log, exec. rewrite H8. cbn [snd dmn log].
  split; [vm_compute; reflexivity|]. split; [vm_compute; reflexivity|].
  split; [apply (bool_decide_unpack _); vm_compute; exact I|].
  unfold exec in Hp, Hr.
  split; [rewrite Hp; vm_compute; reflexivity|].
  rewrite Hr. vm_compute in Hx2. injection Hx2 as <- _. vm_compute. reflexivity.
Defined.

(** C6, as stated, fails: the item has two results; the sink succeeds for
    the first (a reminder is counted and announced) and fails for the
    second, so the attempt fails: "m1" is not added to [processedEmailIds],
    [totalEmailsProcessed] stays 0, and the item is queued for a retry. *)
Lemma success_bookkeeping_counterexample :
  In (Emit (reminderCreated "m1" (Some "R1") "r1" 85))
     (new_log (processOne Scripted.env TwoRules.item) TwoRules.st_fails_second)
  /\ totalEmailsProcessed
       (state (dmn (exec (processOne Scripted.env TwoRules.item)
                         TwoRules.st_fails_second))) = 0
  /\ elements (processedEmailIds
       (state (dmn (exec (processOne Scripted.env TwoRules.item)
                         TwoRules.st_fails_second)))) = []
  /\ queued_ids (dmn (exec (processOne Scripted.env TwoRules.item)
                           TwoRules.st_fails_second)) = ["m1"]
  /\ ~ success_marks_processed Scripted.env TwoRules.item TwoRules.st_fails_second.
Proof.
  assert (Hin : In (Emit (reminderCreated "m1" (Some "R1") "r1" 85))
                   (new_log (processOne Scripted.env TwoRules.item)
                            TwoRules.st_fails_second))
    by (vm_compute; tauto).
  split; [exact Hin|]. split; [reflexivity|].
  split; [vm_compute; reflexivity|]. split; [reflexivity|].
  intros H. destruct H as (_ & Htotal & _).
  - exists (Some "R1"), "r1", 85. exact Hin.
  - vm_compute in Htotal. discriminate Htotal.
Qed.

(** ** Persistence *)

Section PersistenceFacts.

Context {W : Type} (E : Env W).

(** [saveState] never throws and leaves the daemon as it is; it writes
    the object built from the state, if that can be built. *)
Lemma saveState_unfold (st : St W) :
  saveState E st =
  (Ok tt,
   match stateToSave E (state (dmn st)) with
   | None => st
   | Some j =>
     mkSt (snd (writeFile E j (world st))) (dmn st) (log st ++ [CallWriteFile j])
   end).
Proof.
  unfold saveState. run_monad.
  destruct (stateToSave E (state (dmn st))) as [j|]; [|reflexivity].
  now destruct (writeFile E j (world st)) as [[[]|ex] w'].
Qed.

Lemma saveState_dmn (st : St W) : dmn (exec (saveState E) st) = dmn st.
Proof.
  unfold exec. rewrite saveState_unfold. cbn [snd].
  now destruct (stateToSave E (state (dmn st))).
Qed.

(** [loadState] never throws; it replaces the state only when the file
    was read and parsed. *)
Lemma loadState_unfold (st : St W) :
  loadState E st =
  (Ok tt,
   mkSt (snd (readFile E (world st)))
        (match fst (readFile E (world st)) with
         | ReadText (Some j) => set_state (stateFromSaved E j) (dmn st)
         | _ => dmn st
         end)
        (log st ++ [CallReadFile])).
Proof.
  unfold loadState. run_monad.
  destruct (readFile E (world st)) as [[ex|[j|]] w']; reflexivity.
Qed.

Lemma toISOString_not_empty (ms : Z) :
  iso_codec E -> (toISOString E ms =? "")%string = false.
Proof.
  intros [Hrt Hempty]. apply String.eqb_neq. intros Heq.
  specialize (Hrt ms). rewrite Heq, Hempty in Hrt. discriminate Hrt.
Qed.

(** Saving then loading gives the state back. *)
Lemma stateFromSaved_stateToSave (s : DaemonState) :
  iso_codec E -> valid_timestamps s ->
  exists j, stateToSave E s = Some j /\ stateFromSaved E j = s.
Proof.
  intros Hcodec [Hlast Herr].
  destruct s as [last ids total reminders errT errM].
  cbn [lastProcessedTimestamp lastErrorTimestamp] in *.
  unfold stateToSave, stateFromSaved, date_of_saved.
  cbn [lastProcessedTimestamp lastErrorTimestamp processedEmailIds
       totalEmailsProcessed totalRemindersCreated lastErrorMessage].
  destruct last as [ms|]; [|destruct Hlast].
  destruct errT as [[ems|]|]; [|destruct Herr|].
  - eexists. split; [reflexivity|].
    cbn [j_lastProcessedTimestamp j_processedEmailIds j_totalEmailsProcessed
         j_totalRemindersCreated j_lastErrorTimestamp j_lastErrorMessage default].
    rewrite (toISOString_not_empty ems Hcodec). unfold Datatypes.id.
    rewrite !(proj1 Hcodec), list_to_set_elements_L. reflexivity.
  - eexists. split; [reflexivity|].
    cbn [j_lastProcessedTimestamp j_processedEmailIds j_totalEmailsProcessed
         j_totalRemindersCreated j_lastErrorTimestamp j_lastErrorMessage default].
    unfold Datatypes.id.
    rewrite !(proj1 Hcodec), list_to_set_elements_L. reflexivity.
Qed.

(** [saveState] has nothing to write exactly when a timestamp of the
    state is an Invalid Date. *)
Lemma stateToSave_none (s : DaemonState) :
  stateToSave E s = None <-> ~ valid_timestamps s.
Proof.
  unfold stateToSave, valid_timestamps.
  destruct (lastProcessedTimestamp s) as [ms|]; cbn [valid_date].
  - destruct (lastErrorTimestamp s) as [[ems|]|]; cbn [valid_date];
      split; try discriminate; try tauto; intros H; exfalso; apply H; auto.
  - split; [tauto|reflexivity].
Qed.

End PersistenceFacts.

(** The stand-in codec of the scripted world obeys the laws. *)
Lemma scripted_iso_codec : iso_codec Scripted.env.
Proof.
  split; [|reflexivity].
  intros ms. cbn [parseDate toISOString Scripted.env].
  unfold Scripted.of_numeral, Scripted.numeral.
  now rewrite DecimalString.NilEmpty.isi, DecimalZ.of_to.
Qed.

(** ** C9: the state round trip *)

(** C9, as amended.  Serializing a DaemonState whose timestamps are
    dates to the persisted format ([processedEmailIds] as an array, the
    timestamps as ISO-8601 strings, absent error fields left out) and
    loading it back reproduces the id set, the counters and the
    timestamps, also when [lastErrorTimestamp] and [lastErrorMessage]
    are absent: [saveState] writes that object, and [loadState], also
    that of a daemon constructed later on the file that was written,
    reads the state back from it.  A state with an Invalid Date among its
    timestamps is not serialized: [saveState] writes nothing for it. *)
Theorem state_round_trip {W : Type} (E : Env W) (s : DaemonState) :
  iso_codec E ->
  (valid_timestamps s ->
   exists j,
     stateToSave E s = Some j
     /\ j_processedEmailIds j = Some (elements (processedEmailIds s))
     /\ j_totalEmailsProcessed j = Some (totalEmailsProcessed s)
     /\ j_totalRemindersCreated j = Some (totalRemindersCreated s)
     /\ (lastErrorTimestamp s = None -> j_lastErrorTimestamp j = None)
     /\ j_lastErrorMessage j = lastErrorMessage s
     /\ stateFromSaved E j = s
     /\ (forall st, state (dmn st) = s ->
           new_log (saveState E) st = [CallWriteFile j])
     /\ (forall st w',
           readFile E (world st) = (ReadText (Some j), w') ->
           state (dmn (exec (loadState E) st)) = s)
     /\ (forall st configuration daemonConfig,
           state (dmn st) = s ->
           keeps_written E (world st) ->
           state (dmn (exec (loadState E)
                            (reconstructed configuration daemonConfig
                                           (exec (saveState E) st)))) = s))
  /\ (~ valid_timestamps s ->
      stateToSave E s = None
      /\ forall st, state (dmn st) = s -> new_log (saveState E) st = []).
Proof.
  intros Hcodec. split.
  - intros Hvalid.
    destruct (stateFromSaved_stateToSave E s Hcodec Hvalid) as (j & Hsave & Hload).
    exists j. split; [exact Hsave|].
    assert (Hshape : j_processedEmailIds j = Some (elements (processedEmailIds s))
                     /\ j_totalEmailsProcessed j = Some (totalEmailsProcessed s)
                     /\ j_totalRemindersCreated j = Some (totalRemindersCreated s)
                     /\ (lastErrorTimestamp s = None -> j_lastErrorTimestamp j = None)
                     /\ j_lastErrorMessage j = lastErrorMessage s).
    { unfold stateToSave in Hsave.
      destruct (lastProcessedTimestamp s); [|discriminate].
      destruct (lastErrorTimestamp s) as [[|]|]; try discriminate;
        injection Hsave as <-; cbn; repeat split; auto; discriminate. }
    destruct Hshape as (H1 & H2 & H3 & H4 & H5).
    repeat (split; [assumption|]).
    split; [|split].
    + intros st Hst. unfold new_log, exec. rewrite saveState_unfold.
      rewrite Hst, Hsave. cbn [snd log]. apply drop_length_app.
    + intros st w' Hread. unfold exec. rewrite loadState_unfold.
      rewrite Hread. cbn [fst snd dmn]. exact Hload.
    + intros st configuration daemonConfig Hst Hfs.
      destruct (Hfs j) as [_ Hread].
      unfold exec at 1. rewrite loadState_unfold. cbn [snd dmn].
      unfold reconstructed at 1. cbn [world].
      unfold exec. rewrite saveState_unfold. cbn [snd]. rewrite Hst, Hsave.
      cbn [world]. rewrite Hread. cbn [state set_state]. exact Hload.
  - intros Hinvalid. apply (stateToSave_none E) in Hinvalid.
    split; [exact Hinvalid|].
    intros st Hst. unfold new_log, exec. rewrite saveState_unfold.
    rewrite Hst, Hinvalid. cbn [snd].
    rewrite <- (app_nil_r (log st)) at 2. apply drop_length_app.
Qed.

(** The state of section 8, ids a and b and five processed mails, and the
    same state with a recorded error, survive the round trip. *)
Lemma state_round_trip_witness :
  (exists j, stateToSave Scripted.env Persisted.s = Some j
             /\ j_processedEmailIds j = Some ["a"; "b"]
             /\ j_totalEmailsProcessed j = Some 5
             /\ stateFromSaved Scripted.env j = Persisted.s)
  /\ (exists j, stateToSave Scripted.env Persisted.s_err = Some j
                /\ stateFromSaved Scripted.env j = Persisted.s_err).
Proof.
  split.
  - destruct (state_round_trip Scripted.env Persisted.s scripted_iso_codec)
      as [Hvalid _].
    destruct Hvalid as (j & Hsave & Hids & Htotal & _ & _ & _ & Hload & _).
    + split; exact I.
    + exists j. split; [exact Hsave|]. split.
      * rewrite Hids. vm_compute. reflexivity.
      * split; [exact Htotal|exact Hload].
  - destruct (state_round_trip Scripted.env Persisted.s_err scripted_iso_codec)
      as [Hvalid _].
    destruct Hvalid as (j & Hsave & _ & _ & _ & _ & _ & Hload & _).
    + split; exact I.
    + exists j. split; [exact Hsave|exact Hload].
Defined.

(** C9, as stated, fails.  The state with ids a and b, five processed
    mails and an Invalid Date as [lastProcessedTimestamp] is not
    serialized, so nothing can load it back: [saveState] writes nothing,
    and a daemon constructed afterwards loads the empty state. *)
Lemma state_round_trip_counterexample :
  ~ round_trips Scripted.env Unsavable.s
  /\ new_log (saveState Disk.env) Unsavable.st = []
  /\ state (dmn (exec (loadState Disk.env)
                      (reconstructed Scripted.configuration no_override
                                     (exec (saveState Disk.env) Unsavable.st))))
     = initial_state
  /\ initial_state <> Unsavable.s.
Proof.
  split; [intros (j & Hsave & _); discriminate Hsave|].
  split; [reflexivity|]. split; [reflexivity|].
  intros H. apply (f_equal lastProcessedTimestamp) in H. discriminate H.
Qed.

(** ** The structure of a cycle *)

Section CycleFacts.

Context {W : Type} (E : Env W).

(** A cycle is its [try] block, its [catch] and its [finally], entered
    unless a cycle is in flight. *)
Lemma processEmailsOnce_unfold (st : St W) :
  processEmailsOnce E st =
  if isProcessing (dmn st) then (Ok tt, st)
  else
    try_finally
      (try_catch (cycle_body E (fst (clock E (world st)))) (cycle_catch E))
      (cycle_finally E)
      (cycle_entry E st).
Proof.
  unfold processEmailsOnce, cycle_body, cycle_until_enqueued,
    cycle_after_enqueued, cycle_catch, cycle_finally, cycle_entry, new_Date.
  run_monad.
  destruct (isProcessing (dmn st)); [reflexivity|].
  destruct (clock E (world st)) as [startTime w0]. cbn [fst snd world dmn log].
  destruct (loadRules E w0) as [[rs|ex] w1]; cbn [world dmn log]; [|reflexivity].
  destruct (fetchNewEmails E _) as [[allEmails|ex] st2]; [|reflexivity].
  destruct (length allEmails =? 0)%nat; [reflexivity|].
  destruct (enqueueMatched _ rs st2) as [[[]|ex] st3]; [|reflexivity].
  destruct (processQueue E st3) as [[[]|ex] st4]; [|reflexivity].
  destruct (clock E (world st4)) as [t w5]. cbn [world dmn log].
  destruct (clock E w5) as [t' w6]. reflexivity.
Qed.

Lemma cycle_finally_unfold (st : St W) :
  cycle_finally E st =
  (Ok tt,
   exec (saveState E) (mkSt (world st) (set_isProcessing false (dmn st)) (log st))).
Proof.
  unfold cycle_finally. run_monad. now rewrite saveState_unfold.
Qed.

Lemma cycle_catch_unfold (err : Exn) (st : St W) :
  cycle_catch E err st =
  (Ok tt,
   mkSt (snd (clock E (world st)))
        (set_state
           (record_error (ValidDate (fst (clock E (world st))))
                         (error_message err) (state (dmn st)))
           (dmn st))
        (log st ++ [Emit (processingError err)])).
Proof.
  unfold cycle_catch, new_Date. run_monad.
  now destruct (clock E (world st)) as [t w'].
Qed.

Lemma cycle_after_enqueued_unfold startTime matched (st : St W) :
  cycle_after_enqueued E startTime matched st =
  let st2 := exec (processQueue E) st in
  let '(t, w3) := clock E (world st2) in
  let '(t', w4) := clock E w3 in
  (Ok tt,
   mkSt w4
        (set_state (set_lastProcessedTimestamp (ValidDate t) (state (dmn st2)))
                   (dmn st2))
        (log st2
         ++ [Emit (processingComplete
                     (Z.of_nat (length matched)) (t' - startTime)
                     (Z.of_nat (length (processingQueue (dmn st2)))))])).
Proof.
  unfold cycle_after_enqueued, new_Date. run_monad.
  rewrite processQueue_unfold. cbn [snd].
  destruct (clock E _) as [t w3]. cbn [world dmn log].
  now destruct (clock E w3) as [t' w4].
Qed.

(** The steps up to the enqueue loop: they throw only when the rule load
    does, they return early when no fetched mail is new, and otherwise
    they append the unprocessed matched mails to the queue. *)
Lemma cycle_until_enqueued_unfold (st : St W) :
  cycle_until_enqueued E st =
  let st0 := mkSt (world st) (dmn st) (log st ++ [CallLoadRules]) in
  match loadRules E (world st) with
  | (Throw ex, w1) => (Throw ex, mkSt w1 (dmn st) (log st0))
  | (Ok rs, w1) =>
    let st1 := mkSt w1 (dmn st) (log st0) in
    match fetchNewEmails E st1 with
    | (Ok allEmails, st2) =>
      if (length allEmails =? 0)%nat then (Ok None, st2)
      else
        let matched := List.filter has_matchedRules (filterEmails E allEmails rs) in
        (Ok (Some (matched, rs)), exec (enqueueMatched matched rs) st2)
    | (Throw ex, st2) => (Throw ex, st2)
    end
  end.
Proof.
  unfold cycle_until_enqueued. run_monad.
  destruct (loadRules E (world st)) as [[rs|ex] w1]; [|reflexivity].
  cbn [world dmn log].
  destruct (fetchNewEmails E _) as [[allEmails|ex] st2]; [|reflexivity].
  destruct (length allEmails =? 0)%nat; [reflexivity|].
  rewrite enqueueMatched_spec. reflexivity.
Qed.

(** A cycle never throws. *)
Lemma processEmailsOnce_total (st : St W) :
  fst (processEmailsOnce E st) = Ok tt.
Proof.
  rewrite processEmailsOnce_unfold.
  destruct (isProcessing (dmn st)); [reflexivity|].
  unfold try_finally, try_catch, cycle_body, bind.
  rewrite cycle_until_enqueued_unfold. cbv zeta. cbn [world dmn log].
  destruct (loadRules E _) as [[rs|ex] w1].
  - match goal with
    | |- context [fetchNewEmails E ?s] =>
      destruct (fetchNewEmails_spec E s) as (all & w2 & Hf); rewrite Hf
    end.
    destruct (length _ =? 0)%nat.
    + cbn [ret]. now rewrite cycle_finally_unfold.
    + rewrite cycle_after_enqueued_unfold. cbv zeta.
      destruct (clock E _) as [t w3]. destruct (clock E w3) as [t' w4].
      now rewrite cycle_finally_unfold.
  - rewrite cycle_catch_unfold. now rewrite cycle_finally_unfold.
Qed.

End CycleFacts.

(** ** C8: a missing or corrupt state file *)

Section StartFacts.

Context {W : Type} (E : Env W).

Lemma loadState_unreadable (st : St W) :
  missing_or_corrupt (fst (readFile E (world st))) ->
  loadState E st =
  (Ok tt, mkSt (snd (readFile E (world st))) (dmn st) (log st ++ [CallReadFile])).
Proof.
  intros H. rewrite loadState_unfold.
  destruct (fst (readFile E (world st))) as [ex|[j|]]; [reflexivity|destruct H|reflexivity].
Qed.

Lemma initializeEmailClients_result (st : St W) :
  result (initializeEmailClients E) st = Ok tt
  \/ result (initializeEmailClients E) st
     = Throw (Error "No email clients available - check configuration" None).
Proof.
  unfold initializeEmailClients. run_monad.
  destruct (gmailClient (dmn st)) eqn:Hg; run_monad.
  - destruct (gmail_initialize E (world st)) as [[[]|ex] w1];
      cbn [world dmn log icloudClient gmailClient set_gmailClient];
      (destruct (icloudClient (dmn st)) eqn:Hi; run_monad;
       [destruct (icloud_initialize E w1) as [[[]|ex'] w2]|]);
      cbn [fst snd world dmn log icloudClient gmailClient set_gmailClient
           set_icloudClient negb andb];
      rewrite ?Hg, ?Hi; cbn [fst negb andb]; auto.
  - destruct (icloudClient (dmn st)) eqn:Hi; run_monad;
      [destruct (icloud_initialize E (world st)) as [[[]|ex'] w2]|];
      cbn [fst snd world dmn log icloudClient gmailClient set_gmailClient
           set_icloudClient negb andb];
      rewrite ?Hg, ?Hi; cbn [fst negb andb]; auto.
Qed.

Lemma testAppleRemindersAccess_result (st : St W) :
  result (testAppleRemindersAccess E) st = Ok tt
  \/ exists reason,
       result (testAppleRemindersAccess E) st
       = Throw (Error ("Apple Reminders not accessible: " +:+ reason) None).
Proof.
  unfold testAppleRemindersAccess. run_monad.
  destruct (testAccess E (world st)) as [[ok reason] w1]. cbn [fst snd].
  destruct ok; [now left|right]. eauto.
Qed.

(** [start] on a stopped daemon ends with the [started] event, or gives up
    with one of its two startup errors; the state file is never the
    cause. *)
Lemma start_outcome (st : St W) :
  _isRunning (dmn st) = false ->
  match start E st with
  | (Ok _, st') => exists l, log st' = l ++ [Emit started]
  | (Throw e, _) => startup_fatal e
  end.
Proof.
  intros Hstopped. unfold start, try_catch, bind at 1.
  cbn [get_dmn]. rewrite Hstopped. unfold bind at 1.
  rewrite loadState_unfold. unfold bind at 1.
  match goal with
  | |- context [initializeEmailClients E ?s] =>
    pose proof (initializeEmailClients_result s) as Hinit;
    unfold result in Hinit;
    destruct (initializeEmailClients E s) as [ri s1]
  end.
  cbn [fst] in Hinit. destruct Hinit as [-> | ->].
  - unfold bind at 1.
    pose proof (testAppleRemindersAccess_result s1) as Htest.
    unfold result in Htest.
    destruct (testAppleRemindersAccess E s1) as [rt s2].
    cbn [fst] in Htest. destruct Htest as [-> | [reason ->]].
    + unfold bind at 1. unfold modify at 1. unfold bind at 1.
      match goal with
      | |- context [processEmailsOnce E ?s] =>
        pose proof (processEmailsOnce_total E s) as Hcycle;
        destruct (processEmailsOnce E s) as [rc s3]
      end.
      cbn [fst] in Hcycle. subst rc. run_monad. eauto.
    + run_monad. right. eauto.
  - run_monad. now left.
Qed.

End StartFacts.

(** C8.  When the state file is missing or its content does not parse as
    JSON, loading the state does not throw and leaves the freshly
    constructed daemon with the default empty state: the epoch as
    [lastProcessedTimestamp], no processed id, both counters 0; and
    [start] does not fail because of the state file: it completes, or
    gives up for lack of a mail client or of access to the reminders. *)
Theorem corrupt_state_resilience {W : Type} (E : Env W)
    (configuration : Configuration) (daemonConfig : PartialDaemonConfig)
    (w : W) (l : list Action) :
  let st := mkSt w (constructor configuration daemonConfig) l in
  missing_or_corrupt (fst (readFile E w)) ->
  result (loadState E) st = Ok tt
  /\ state (dmn (exec (loadState E) st)) = initial_state
  /\ lastProcessedTimestamp (state (dmn (exec (loadState E) st))) = ValidDate 0
  /\ processedEmailIds (state (dmn (exec (loadState E) st))) = ∅
  /\ totalEmailsProcessed (state (dmn (exec (loadState E) st))) = 0
  /\ totalRemindersCreated (state (dmn (exec (loadState E) st))) = 0
  /\ match start E st with
     | (Ok _, st') => exists l', log st' = l' ++ [Emit started]
     | (Throw e, _) => startup_fatal e
     end.
Proof.
  intros st Hfile. unfold result, exec.
  rewrite (loadState_unreadable E st Hfile). cbn [fst snd dmn].
  repeat (split; [reflexivity|]).
  apply (start_outcome E st). reflexivity.
Qed.

(** Without a state file, and with a state file holding text that is not
    JSON, the daemon starts from the empty state. *)
Lemma corrupt_state_resilience_witness :
  state (dmn (exec (loadState Scripted.env) (Persisted.fresh Persisted.missing)))
  = initial_state
  /\ state (dmn (exec (loadState Scripted.env) (Persisted.fresh Persisted.corrupt)))
     = initial_state
  /\ result (start Scripted.env) (Persisted.fresh Persisted.corrupt) = Ok tt.
Proof.
  assert (Hmissing : missing_or_corrupt (fst (readFile Scripted.env Persisted.missing)))
    by exact I.
  assert (Hcorrupt : missing_or_corrupt (fst (readFile Scripted.env Persisted.corrupt)))
    by exact I.
  destruct (corrupt_state_resilience Scripted.env Scripted.configuration
              no_override Persisted.missing [] Hmissing) as (_ & Hm & _).
  destruct (corrupt_state_resilience Scripted.env Scripted.configuration
              no_override Persisted.corrupt [] Hcorrupt) as (_ & Hc & _).
  split; [exact Hm|]. split; [exact Hc|].
  vm_compute. reflexivity.
Defined.

(** ** What a drain touches *)

Section DrainFacts.

Context {W : Type} (E : Env W).

Lemma sink_action_subject (i : string) (a : Action) :
  sink_action i a -> subject_id a = Some i.
Proof.
  destruct a as [| | | f t j | | | | |ev]; cbn; try tauto.
  - now intros ->.
  - destruct ev; cbn; try tauto. now intros ->.
Qed.

(** The body of the drain loop keeps the configuration, adds at most the
    item's id to [processedEmailIds], appends at most a retry of the item
    to the queue, and logs only actions about the item's message. *)
Lemma processOne_effect (item : ProcessingQueueItem) (st : St W) :
  let st' := exec (processOne E item) st in
  config (dmn st') = config (dmn st)
  /\ (processedEmailIds (state (dmn st')) = processedEmailIds (state (dmn st))
      \/ processedEmailIds (state (dmn st'))
         = {[ id (email item) ]} ∪ processedEmailIds (state (dmn st)))
  /\ (exists q',
        processingQueue (dmn st') = processingQueue (dmn st) ++ q'
        /\ Forall (fun it => email it = email item /\ rules it = rules item) q')
  /\ (exists l,
        log st' = log st ++ l
        /\ Forall (fun a => subject_id a = Some (id (email item))) l).
Proof.
  cbv zeta. unfold exec. rewrite processOne_unfold.
  destruct (processQueueItem_frame E item st) as (r & w' & l & Heq & Hl & _).
  rewrite Heq.
  assert (Hsub : Forall (fun a => subject_id a = Some (id (email item)))
                        (CallProcessMultipleEmails (email item) (rules item) :: l)).
  { constructor; [reflexivity|].
    eapply List.Forall_impl; [|exact Hl]. intros a. apply sink_action_subject. }
  destruct r as [[]|ex]; cbn [snd dmn log world].
  - split; [reflexivity|]. split; [right; reflexivity|].
    split; [exists []; split; [now rewrite app_nil_r|constructor]|].
    eauto.
  - destruct (clock E w') as [t w'']. cbv zeta.
    cbn [attempts failed_item dmn log config add_reminders set_state].
    destruct (attempts item + 1 <? retryAttempts (config (dmn st)));
      cbn [snd dmn log world].
    + split; [reflexivity|]. split; [left; reflexivity|].
      split; [|eauto].
      eexists [_]. split; [reflexivity|]. repeat constructor.
    + split; [reflexivity|]. split; [left; reflexivity|].
      split; [exists []; split; [now rewrite app_nil_r|constructor]|].
      eexists. split; [now rewrite <- app_assoc|].
      apply Forall_app. split; [exact Hsub|]. repeat constructor.
Qed.

(** The fold of the drain loop over a snapshot [items]. *)
Lemma drain_effect (items : list ProcessingQueueItem) (st : St W) :
  let st' := fold_left (fun st it => exec (processOne E it) st) items st in
  config (dmn st') = config (dmn st)
  /\ processedEmailIds (state (dmn st)) ⊆ processedEmailIds (state (dmn st'))
  /\ (exists q',
        processingQueue (dmn st') = processingQueue (dmn st) ++ q'
        /\ Forall (fun it' => exists it, In it items /\ email it' = email it) q')
  /\ (exists l,
        log st' = log st ++ l
        /\ Forall (fun a => exists it,
                       In it items /\ subject_id a = Some (id (email it))) l)
  /\ (forall j,
        j ∈ processedEmailIds (state (dmn st')) ->
        j ∈ processedEmailIds (state (dmn st))
        \/ exists it, In it items /\ id (email it) = j).
Proof.
  revert st. induction items as [|item items IH]; intros st; cbv zeta.
  - cbn [fold_left]. split; [reflexivity|]. split; [reflexivity|].
    split; [exists []; split; [now rewrite app_nil_r|constructor]|].
    split; [exists []; split; [now rewrite app_nil_r|constructor]|].
    intros j Hj. now left.
  - cbn [fold_left].
    destruct (processOne_effect item st) as (Hc & Hids & (q1 & Hq1 & Hq1') & (l1 & Hl1 & Hl1')).
    destruct (IH (exec (processOne E item) st))
      as (Hc2 & Hids2 & (q2 & Hq2 & Hq2') & (l2 & Hl2 & Hl2') & Hnew).
    split; [congruence|].
    split.
    { destruct Hids as [Hids|Hids]; rewrite Hids in Hids2; [exact Hids2|].
      etransitivity; [|exact Hids2]. apply union_subseteq_r. }
    split; [|split].
    + exists (q1 ++ q2). split; [rewrite Hq2, Hq1; now rewrite app_assoc|].
      apply Forall_app. split.
      * eapply List.Forall_impl; [|exact Hq1']. intros it' [He _].
        exists item. split; [now left|exact He].
      * eapply List.Forall_impl; [|exact Hq2']. intros it' (it & Hin & He).
        exists it. split; [now right|exact He].
    + exists (l1 ++ l2). split; [rewrite Hl2, Hl1; now rewrite app_assoc|].
      apply Forall_app. split.
      * eapply List.Forall_impl; [|exact Hl1']. intros a Ha.
        exists item. split; [now left|exact Ha].
      * eapply List.Forall_impl; [|exact Hl2']. intros a (it & Hin & Ha).
        exists it. split; [now right|exact Ha].
    + intros j Hj. destruct (Hnew j Hj) as [Hj1|(it & Hin & Hit)].
      * destruct Hids as [Hids|Hids]; rewrite Hids in Hj1; [now left|].
        apply elem_of_union in Hj1 as [Hj1|Hj1]; [|now left].
        apply elem_of_singleton in Hj1. right. exists item. split; [now left|auto].
      * right. exists it. split; [now right|exact Hit].
Qed.

(** A drain: the queue afterwards holds retries of items of the queue
    before, and the trace grew by actions about those items. *)
Lemma processQueue_effect (st : St W) :
  let st' := exec (processQueue E) st in
  config (dmn st') = config (dmn st)
  /\ processedEmailIds (state (dmn st)) ⊆ processedEmailIds (state (dmn st'))
  /\ Forall (fun it' => exists it,
                 In it (processingQueue (dmn st)) /\ email it' = email it)
            (processingQueue (dmn st'))
  /\ (exists l,
        log st' = log st ++ l
        /\ Forall (fun a => exists it,
                       In it (processingQueue (dmn st))
                       /\ subject_id a = Some (id (email it))) l).
Proof.
  cbv zeta. unfold exec. rewrite processQueue_unfold. cbn [snd].
  match goal with
  | |- context [fold_left _ ?items ?s] =>
    destruct (drain_effect items s) as (Hc & Hids & (q' & Hq & Hq') & Hl & _)
  end.
  cbn [dmn log config state set_processingQueue processingQueue app] in *.
  rewrite Hq. auto.
Qed.

End DrainFacts.

(** ** C7: the end of a cycle *)

Section CycleEndFacts.

Context {W : Type} (E : Env W).

Lemma filter_none {A} (f : A -> bool) (l : list A) :
  Forall (fun a => f a = false) l -> List.filter f l = [].
Proof.
  induction 1 as [|a l Ha _ IH]; cbn; [reflexivity|]. now rewrite Ha.
Qed.

Lemma new_log_app {A} (m : M W A) (st : St W) (l : list Action) :
  log (exec m st) = log st ++ l -> new_log m st = l.
Proof. intros H. unfold new_log. rewrite H. apply drop_length_app. Qed.

Lemma subject_not_cycle_event (a : Action) (i : string) :
  subject_id a = Some i -> is_cycle_event a = false.
Proof.
  destruct a as [| | | | | | | |ev]; cbn; try discriminate; try reflexivity.
  destruct ev; cbn; try discriminate; reflexivity.
Qed.

Lemma fetch_requests_housekeeping (st : St W) :
  Forall housekeeping (fetch_requests E st).
Proof.
  unfold fetch_requests.
  destruct (gmail_ready E st), (icloud_ready E st); repeat constructor.
Qed.

(** Up to the enqueue loop a cycle logs the rule load and the fetch
    requests, and leaves [processedEmailIds] as it is. *)
Lemma cycle_until_enqueued_effect (st : St W) :
  let st1 := exec (cycle_until_enqueued E) st in
  state (dmn st1) = state (dmn st)
  /\ config (dmn st1) = config (dmn st)
  /\ (exists fresh,
        processingQueue (dmn st1) = processingQueue (dmn st) ++ fresh
        /\ Forall (fun it => attempts it = 0
                             /\ id (email it) ∉ processedEmailIds (state (dmn st)))
                  fresh)
  /\ (exists l, log st1 = log st ++ l /\ Forall housekeeping l).
Proof.
  cbv zeta. unfold exec. rewrite cycle_until_enqueued_unfold. cbv zeta.
  assert (Hnil : exists fresh : list ProcessingQueueItem,
             processingQueue (dmn st) = processingQueue (dmn st) ++ fresh
             /\ Forall (fun it => attempts it = 0
                                  /\ id (email it) ∉ processedEmailIds (state (dmn st)))
                       fresh)
    by (exists []; split; [now rewrite app_nil_r|constructor]).
  destruct (loadRules E (world st)) as [[rs|ex] w1]; cbn [snd dmn log].
  - match goal with
    | |- context [fetchNewEmails E ?s] =>
      destruct (fetchNewEmails_spec E s) as (all & w2 & Hf); rewrite Hf;
        pose proof (fetch_requests_housekeeping s) as Hreq
    end.
    cbn [dmn log] in *.
    assert (Hlog : exists l,
               (log st ++ [CallLoadRules])
               ++ fetch_requests E (mkSt w1 (dmn st) (log st ++ [CallLoadRules]))
               = log st ++ l /\ Forall housekeeping l).
    { eexists. split; [now rewrite <- app_assoc|].
      constructor; [split; reflexivity|exact Hreq]. }
    destruct (length _ =? 0)%nat; cbn [snd dmn log].
    + auto.
    + unfold exec. rewrite enqueueMatched_spec. cbn [snd dmn log world].
      split; [reflexivity|]. split; [reflexivity|]. split; [|exact Hlog].
      eexists. split; [reflexivity|].
      apply List.Forall_forall. intros it Hit.
      apply in_map_iff in Hit as (e & <- & He).
      apply filter_In in He as [_ Hnew].
      split; [reflexivity|]. cbn. unfold has in Hnew.
      apply negb_true_iff in Hnew. now apply bool_decide_eq_false in Hnew.
  - split; [reflexivity|]. split; [reflexivity|]. split; [exact Hnil|].
    exists [CallLoadRules]. split; [reflexivity|]. repeat constructor.
Qed.

(** A cycle that is entered ends by calling [saveState]. *)
Lemma processEmailsOnce_saves (st : St W) :
  isProcessing (dmn st) = false ->
  processEmailsOnce E st = (Ok tt, exec (saveState E) (cycle_before_save E st)).
Proof.
  intros Hidle. rewrite processEmailsOnce_unfold, Hidle.
  unfold cycle_before_save, try_finally, try_catch, cycle_body, bind.
  destruct (cycle_until_enqueued E (cycle_entry E st))
    as [[[[matched rs]|]|err] st1].
  - rewrite cycle_after_enqueued_unfold. cbv zeta.
    destruct (clock E (world (exec (processQueue E) st1))) as [t w3].
    destruct (clock E w3) as [t' w4].
    now rewrite cycle_finally_unfold.
  - cbn [ret]. now rewrite cycle_finally_unfold.
  - rewrite cycle_catch_unfold. now rewrite cycle_finally_unfold.
Qed.

Lemma saveState_log (st : St W) :
  exists l, log (exec (saveState E) st) = log st ++ l /\ Forall housekeeping l
            /\ (forall j, stateToSave E (state (dmn st)) = Some j ->
                          l = [CallWriteFile j]).
Proof.
  unfold exec. rewrite saveState_unfold. cbn [snd].
  destruct (stateToSave E (state (dmn st))) as [j|]; cbn [log].
  - exists [CallWriteFile j]. split; [reflexivity|].
    split; [repeat constructor|]. now intros j' [= <-].
  - exists []. split; [now rewrite app_nil_r|]. split; [constructor|discriminate].
Qed.

Lemma housekeeping_filter (l : list Action) :
  Forall housekeeping l -> List.filter is_cycle_event l = [].
Proof.
  intros H. apply filter_none. eapply List.Forall_impl; [|exact H].
  now intros a [_ Ha].
Qed.

End CycleEndFacts.

(** What an entered cycle does, by the outcome of its steps up to the
    enqueue loop, with [saveState] run last. *)
Lemma cycle_end_effect {W : Type} (E : Env W) (st : St W) :
  isProcessing (dmn st) = false ->
  let final := exec (processEmailsOnce E) st in
  let saved := new_log (saveState E) (cycle_before_save E st) in
  result (processEmailsOnce E) st = Ok tt
  /\ final = exec (saveState E) (cycle_before_save E st)
  /\ isProcessing (dmn final) = false
  /\ Forall housekeeping saved
  /\ (forall j, stateToSave E (state (dmn final)) = Some j ->
                saved = [CallWriteFile j])
  /\ (forall err,
        result (cycle_until_enqueued E) (cycle_entry E st) = Throw err ->
        (exists l,
            new_log (processEmailsOnce E) st
            = l ++ Emit (processingError err) :: saved
            /\ Forall housekeeping l)
        /\ lastErrorMessage (state (dmn final)) = Some (error_message err)
        /\ exists t, lastErrorTimestamp (state (dmn final)) = Some (ValidDate t))
  /\ (forall matched rs,
        result (cycle_until_enqueued E) (cycle_entry E st)
        = Ok (Some (matched, rs)) ->
        let drained :=
          exec (processQueue E) (exec (cycle_until_enqueued E) (cycle_entry E st)) in
        (exists l dt,
            new_log (processEmailsOnce E) st
            = l ++ Emit (processingComplete
                           (Z.of_nat (length matched)) dt
                           (Z.of_nat (length (processingQueue (dmn final)))))
                :: saved
            /\ Forall (fun a => is_cycle_event a = false) l)
        /\ lastProcessedTimestamp (state (dmn final))
           = ValidDate (fst (clock E (world drained)))).
Proof.
  intros Hidle final saved.
  pose proof (processEmailsOnce_saves E st Hidle) as Hsaves.
  assert (Hfinal : final = exec (saveState E) (cycle_before_save E st))
    by (unfold final, exec; now rewrite Hsaves).
  assert (Hdmn : dmn final = dmn (cycle_before_save E st))
    by (rewrite Hfinal; apply saveState_dmn).
  destruct (saveState_log E (cycle_before_save E st)) as (ls & Hls & Hhk & Hwrite).
  assert (Hsaved : saved = ls) by (unfold saved; now apply new_log_app).
  assert (Hlog : forall l,
             log (cycle_before_save E st) = log st ++ l ->
             new_log (processEmailsOnce E) st = l ++ saved).
  { intros l Hl. apply new_log_app. fold final.
    rewrite Hfinal, Hls, Hl, Hsaved. now rewrite app_assoc. }
  destruct (cycle_until_enqueued_effect E (cycle_entry E st))
    as (Hstate1 & _ & _ & (l1 & Hl1 & Hl1')).
  cbn [log cycle_entry] in Hl1.
  split; [unfold result; now rewrite Hsaves|].
  split; [exact Hfinal|].
  split.
  { rewrite Hdmn. unfold cycle_before_save.
    destruct (cycle_until_enqueued E (cycle_entry E st))
      as [[[[matched rs]|]|err] st1]; try reflexivity.
    cbv zeta. destruct (clock E _) as [t w3]. now destruct (clock E w3). }
  split; [now rewrite Hsaved|].
  split.
  { intros j Hj. rewrite Hsaved. apply Hwrite. now rewrite <- Hdmn. }
  split.
  - intros err Herr. unfold result in Herr.
    destruct (cycle_until_enqueued E (cycle_entry E st)) as [r st1] eqn:Hcue.
    cbn [fst] in Herr. subst r.
    assert (Hmid : cycle_before_save E st =
                   mkSt (snd (clock E (world st1)))
                        (set_isProcessing false
                           (set_state
                              (record_error (ValidDate (fst (clock E (world st1))))
                                            (error_message err) (state (dmn st1)))
                              (dmn st1)))
                        (log st1 ++ [Emit (processingError err)]))
      by (unfold cycle_before_save; now rewrite Hcue).
    unfold exec in Hl1. rewrite Hcue in Hl1. cbn [snd] in Hl1.
    rewrite Hdmn, Hmid. cbn [dmn state set_isProcessing set_state
      record_error lastErrorMessage lastErrorTimestamp].
    split; [|split; [reflexivity|eauto]].
    exists l1. split; [|exact Hl1'].
    rewrite (Hlog (l1 ++ [Emit (processingError err)])).
    + now rewrite <- app_assoc.
    + rewrite Hmid. cbn [log]. now rewrite Hl1, <- app_assoc.
  - intros matched rs Hok drained. unfold drained, result, exec in *.
    destruct (cycle_until_enqueued E (cycle_entry E st)) as [r st1] eqn:Hcue.
    cbn [fst snd] in *. subst r.
    destruct (processQueue_effect E st1) as (_ & _ & _ & (l2 & Hl2 & Hl2')).
    unfold exec in Hl2.
    assert (Hmid : cycle_before_save E st =
                   let st2 := snd (processQueue E st1) in
                   let '(t, w3) := clock E (world st2) in
                   let '(t', w4) := clock E w3 in
                   mkSt w4
                     (set_isProcessing false
                        (set_state
                           (set_lastProcessedTimestamp (ValidDate t) (state (dmn st2)))
                           (dmn st2)))
                     (log st2
                      ++ [Emit (processingComplete
                                  (Z.of_nat (length matched))
                                  (t' - fst (clock E (world st)))
                                  (Z.of_nat (length (processingQueue (dmn st2)))))]))
      by (unfold cycle_before_save, exec; now rewrite Hcue).
    cbv zeta in Hmid.
    destruct (clock E (world (snd (processQueue E st1)))) as [t w3].
    destruct (clock E w3) as [t' w4].
    rewrite Hdmn, Hmid.
    cbn [dmn state set_isProcessing set_state set_lastProcessedTimestamp
         lastProcessedTimestamp processingQueue fst].
    split; [|reflexivity].
    exists (l1 ++ l2), (t' - fst (clock E (world st))). split.
    + rewrite (Hlog ((l1 ++ l2) ++ [Emit (processingComplete
                                            (Z.of_nat (length matched))
                                            (t' - fst (clock E (world st)))
                                            (Z.of_nat (length (processingQueue
                                               (dmn (snd (processQueue E st1)))))))])).
      * now rewrite <- app_assoc.
      * rewrite Hmid. cbn [log]. rewrite Hl2, Hl1. now rewrite <- !app_assoc.
    + apply Forall_app. split.
      * eapply List.Forall_impl; [|exact Hl1']. now intros a [_ Ha].
      * eapply List.Forall_impl; [|exact Hl2']. intros a (it & _ & Ha).
        eapply subject_not_cycle_event. exact Ha.
Qed.

(** C7, as stated, fails.  In the cycle of the section 8 scenario the
    [processingComplete] event is emitted before the state file is
    written, not after.  And a cycle whose fetch returns no new message
    leaves [lastProcessedTimestamp] where it was (here the epoch, with the
    clock at 5000) and emits neither closing event.  And the state is
    not persisted unconditionally: the daemon that was started on a state
    file holding the object without keys has an Invalid Date as
    [lastProcessedTimestamp], and its cycle loads the rules, asks Gmail
    and writes nothing. *)
Lemma cycle_end_counterexample :
  (exists l j,
      new_log (processEmailsOnce Scripted.env) Section8.st
      = l ++ [Emit (processingComplete 1 2 0); CallWriteFile j])
  /\ ~ persists_then_emits Scripted.env Section8.st
  /\ List.filter is_cycle_event
       (new_log (processEmailsOnce Scripted.env) QuietCycles.st_nothing_new) = []
  /\ lastProcessedTimestamp
       (state (dmn (exec (processEmailsOnce Scripted.env)
                         QuietCycles.st_nothing_new)))
     = ValidDate 0
  /\ lastProcessedTimestamp
       (state (dmn (exec (start Scripted.env) EmptyObject.st))) = InvalidDate
  /\ new_log (processEmailsOnce Scripted.env)
             (exec (start Scripted.env) EmptyObject.st)
     = [CallLoadRules; CallGetEmails gmail 25].
Proof.
  split.
  { eexists [_; _; _; _; _], _. vm_compute. reflexivity. }
  split.
  { intros (l & j & ev & Hlog & _).
    apply (f_equal (@rev Action)) in Hlog. rewrite rev_app_distr in Hlog.
    vm_compute in Hlog. discriminate Hlog. }
  split; [reflexivity|]. split; [reflexivity|].
  split; vm_compute; reflexivity.
Qed.

(** ** C5: the retry bound *)

Section RetryFacts.

Context {W : Type} (E : Env W).















End RetryFacts.




(** ** Deduplication *)

Section DedupFacts.

Context {W : Type} (E : Env W).

Lemma respects_dedup_refl (st : St W) : respects_dedup st st.
Proof.
  split; [reflexivity|]. split.
  - apply List.Forall_forall. intros it Hit. left. eauto.
  - exists []. split; [now rewrite app_nil_r|constructor].
Qed.

Lemma housekeeping_may_be_handled (st : St W) (l : list Action) :
  Forall housekeeping l ->
  Forall (fun a => forall j, subject_id a = Some j -> may_be_handled st j) l.
Proof.
  intros H. eapply List.Forall_impl; [|exact H].
  intros a [Ha _] j Hj. congruence.
Qed.

(** The machine before the final [saveState] of a cycle. *)
Lemma cycle_before_save_respects (st : St W) :
  respects_dedup st (cycle_before_save E st).
Proof.
  destruct (cycle_until_enqueued_effect E (cycle_entry E st))
    as (Hstate1 & _ & (fresh & Hq1 & Hfresh) & (l1 & Hl1 & Hl1')).
  cbn [cycle_entry dmn log state set_isProcessing processingQueue] in Hstate1, Hq1, Hfresh, Hl1.
  assert (Hqueue1 : Forall (fun it => may_be_handled st (id (email it)))
                           (processingQueue
                              (dmn (exec (cycle_until_enqueued E) (cycle_entry E st))))).
  { rewrite Hq1. apply Forall_app. split.
    - apply List.Forall_forall. intros it Hit. left. eauto.
    - eapply List.Forall_impl; [|exact Hfresh]. intros it [_ Hit]. now right. }
  unfold cycle_before_save, exec in *.
  destruct (cycle_until_enqueued E (cycle_entry E st))
    as [[[[matched rs]|]|err] st1]; cbn [snd] in *.
  - destruct (processQueue_effect E st1) as (_ & Hids2 & Hq2 & (l2 & Hl2 & Hl2')).
    unfold exec in *.
    destruct (clock E (world (snd (processQueue E st1)))) as [t w3].
    destruct (clock E w3) as [t' w4].
    cbn [dmn log state set_isProcessing set_state set_lastProcessedTimestamp
         processedEmailIds processingQueue].
    assert (Hfrom1 : forall it, In it (processingQueue (dmn st1)) ->
                                may_be_handled st (id (email it)))
      by (apply List.Forall_forall; exact Hqueue1).
    rewrite Hstate1 in Hids2.
    split; [exact Hids2|]. split.
    + eapply List.Forall_impl; [|exact Hq2]. intros it' (it & Hin & He).
      rewrite He. now apply Hfrom1.
    + eexists. split; [rewrite Hl2, Hl1; now rewrite <- !app_assoc|].
      apply Forall_app. split; [now apply housekeeping_may_be_handled|].
      apply Forall_app. split.
      * eapply List.Forall_impl; [|exact Hl2']. intros a (it & Hin & Ha) j Hj.
        rewrite Ha in Hj. injection Hj as <-. now apply Hfrom1.
      * repeat constructor. discriminate.
  - split; [cbn; now rewrite Hstate1|]. split; [exact Hqueue1|].
    exists l1. split; [exact Hl1|]. now apply housekeeping_may_be_handled.
  - split; [cbn; now rewrite Hstate1|]. split; [exact Hqueue1|].
    eexists. split; [rewrite Hl1; now rewrite <- app_assoc|].
    apply Forall_app. split; [now apply housekeeping_may_be_handled|].
    repeat constructor. discriminate.
Qed.

(** A cycle adds ids, and queues and handles only messages that had a
    reason to be handled when it began. *)
Lemma processEmailsOnce_respects (st : St W) :
  respects_dedup st (exec (processEmailsOnce E) st).
Proof.
  destruct (isProcessing (dmn st)) eqn:Hidle.
  - unfold exec. rewrite processEmailsOnce_unfold, Hidle. apply respects_dedup_refl.
  - unfold exec. rewrite (processEmailsOnce_saves E st Hidle). cbn [snd].
    destruct (cycle_before_save_respects st) as (Hids & Hq & (l & Hl & Hl')).
    destruct (saveState_log E (cycle_before_save E st)) as (ls & Hls & Hhk & _).
    split; [now rewrite saveState_dmn|].
    split; [now rewrite saveState_dmn|].
    exists (l ++ ls). split; [rewrite Hls, Hl; now rewrite app_assoc|].
    apply Forall_app. split; [exact Hl'|now apply housekeeping_may_be_handled].
Qed.

Lemma run_op_respects (o : Op) (st : St W) :
  respects_dedup st (exec (run_op E o) st).
Proof.
  destruct o as [| |newConfig]; cbn [run_op].
  - unfold forceProcessing, exec, bind. cbn [get_dmn].
    destruct (negb (_isRunning (dmn st))); [apply respects_dedup_refl|].
    apply processEmailsOnce_respects.
  - unfold timer_tick, exec, bind. cbn [get_dmn].
    destruct (negb (isProcessing (dmn st))); [|apply respects_dedup_refl].
    apply processEmailsOnce_respects.
  - assert (H : exists d,
               exec (updateConfig newConfig) st = mkSt (world st) d (log st)
               /\ state d = state (dmn st)
               /\ processingQueue d = processingQueue (dmn st)).
    { unfold updateConfig. run_monad.
      destruct (p_intervalMinutes newConfig) as [n|]; cbn [intervalId set_config];
        [destruct (intervalId (dmn st));
         [destruct (_isRunning _ && negb (n =? 0))|]|];
        cbn [snd]; eexists; split; try reflexivity; split; reflexivity. }
    destruct H as (d & -> & Hs & Hq).
    split; [cbn [dmn]; now rewrite Hs|]. split.
    + cbn [dmn]. rewrite Hq. apply List.Forall_forall. intros it Hit. left. eauto.
    + exists []. split; [cbn [log]; now rewrite app_nil_r|constructor].
Qed.

(** A settled message stays settled, and nothing is done about it. *)
Lemma settled_preserved (i : string) (st st' : St W) :
  settled i st -> respects_dedup st st' ->
  settled i st' /\ silent_about i st st'.
Proof.
  intros [Hin Hq] (Hids & Hq' & (l & Hl & Hl')).
  assert (Hno : forall j, may_be_handled st j -> j <> i).
  { intros j [(it & Hit & <-)|Hj].
    - revert it Hit. apply List.Forall_forall. exact Hq.
    - intros ->. contradiction. }
  split; [split|].
  - now apply Hids.
  - eapply List.Forall_impl; [|exact Hq']. intros it Hit. now apply Hno.
  - exists l. split; [exact Hl|].
    eapply List.Forall_impl; [|exact Hl']. intros a Ha Heq.
    now apply (Hno i (Ha i Heq)).
Qed.

Lemma silent_about_trans (i : string) (st1 st2 st3 : St W) :
  silent_about i st1 st2 -> silent_about i st2 st3 -> silent_about i st1 st3.
Proof.
  intros (l & Hl & Hl') (k & Hk & Hk').
  exists (l ++ k). split; [rewrite Hk, Hl; now rewrite app_assoc|].
  apply Forall_app. now split.
Qed.

Lemma run_ops_grows (ops : list Op) (st : St W) :
  processedEmailIds (state (dmn st))
  ⊆ processedEmailIds (state (dmn (run_ops E ops st))).
Proof.
  revert st. induction ops as [|o ops IH]; intros st; [reflexivity|].
  cbn [run_ops fold_left]. etransitivity; [|apply IH].
  apply run_op_respects.
Qed.

Lemma run_ops_settled (i : string) (ops : list Op) (st : St W) :
  settled i st ->
  settled i (run_ops E ops st) /\ silent_about i st (run_ops E ops st).
Proof.
  revert st. induction ops as [|o ops IH]; intros st Hs.
  - split; [exact Hs|]. exists []. split; [now rewrite app_nil_r|constructor].
  - cbn [run_ops fold_left].
    destruct (settled_preserved i st _ Hs (run_op_respects o st)) as [Hs1 Hq1].
    destruct (IH _ Hs1) as [Hs2 Hq2].
    split; [exact Hs2|]. eapply silent_about_trans; eassumption.
Qed.

(** The fetch filter lets no processed id through. *)
Lemma fetchNewEmails_excludes (st : St W) :
  exists fetched st',
    fetchNewEmails E st = (Ok fetched, st')
    /\ Forall (fun e => id e ∉ processedEmailIds (state (dmn st))) fetched.
Proof.
  destruct (fetchNewEmails_spec E st) as (all & w' & H).
  eexists _, _. split; [exact H|].
  apply List.Forall_forall. intros e He. apply filter_In in He as [_ He].
  unfold is_new, has in He. apply andb_true_iff in He as [He _].
  apply negb_true_iff in He. now apply bool_decide_eq_false in He.
Qed.

End DedupFacts.

(** ** C1: the deduplication invariant *)

(** The part of the invariant that the code keeps.  Over any run of
    cycles and configuration updates [processedEmailIds] only grows; every
    later cycle excludes a message whose id is in the set at the fetch
    filter and at the enqueue step, so no queue item is created for it
    again; and if no item for the message was still queued when its id
    entered the set, the message is never queued, extracted, handed to the
    sink or announced again, even when a provider fetches it again. *)
Theorem dedup_invariant {W : Type} (E : Env W) (st : St W) (ops : list Op) :
  let later := run_ops E ops st in
  processedEmailIds (state (dmn st)) ⊆ processedEmailIds (state (dmn later))
  /\ (exists fetched st',
        fetchNewEmails E later = (Ok fetched, st')
        /\ Forall (fun e => id e ∉ processedEmailIds (state (dmn st))) fetched)
  /\ (forall matched rs,
        exists fresh,
          processingQueue (dmn (exec (enqueueMatched matched rs) later))
          = processingQueue (dmn later) ++ fresh
          /\ Forall (fun it => id (email it) ∉ processedEmailIds (state (dmn st)))
                    fresh)
  /\ (forall i, settled i st -> settled i later /\ silent_about i st later).
Proof.
  cbv zeta. pose proof (run_ops_grows E ops st) as Hgrow.
  split; [exact Hgrow|]. split; [|split].
  - destruct (fetchNewEmails_excludes E (run_ops E ops st))
      as (fetched & st' & Hf & Hnew).
    exists fetched, st'. split; [exact Hf|].
    eapply List.Forall_impl; [|exact Hnew]. intros e He Hin. apply He. now apply Hgrow.
  - intros matched rs. unfold exec. rewrite enqueueMatched_spec. cbn [snd dmn].
    eexists. split; [reflexivity|].
    apply List.Forall_forall. intros it Hit.
    apply in_map_iff in Hit as (e & <- & He).
    apply filter_In in He as [_ Hnew]. cbn. unfold has in Hnew.
    apply negb_true_iff in Hnew. apply bool_decide_eq_false in Hnew.
    intros Hin. apply Hnew. now apply Hgrow.
  - intros i. apply run_ops_settled.
Qed.

(** After the first cycle created the reminder for "m1", three more
    triggers with "m1" fetched again leave it alone. *)
Lemma dedup_invariant_witness :
  settled "m1" (run_ops Scripted.env [Force; Tick; Force] Repeated.after_cycle1)
  /\ silent_about "m1" Repeated.after_cycle1
                  (run_ops Scripted.env [Force; Tick; Force] Repeated.after_cycle1).
Proof.
  apply (proj2 (proj2 (proj2 (dedup_invariant Scripted.env Repeated.after_cycle1
                                [Force; Tick; Force])))).
  assert (Hq : processingQueue (dmn Repeated.after_cycle1) = [])
    by (vm_compute; reflexivity).
  split.
  - apply (bool_decide_unpack _). vm_compute. exact I.
  - rewrite Hq. constructor.
Defined.

(** C1: the code departs from the invariant.  The fetch filter (line
    326-329) and the enqueue guard (line 266) consult
    [processedEmailIds]; the drain (line 349-353) does not.  "m1" was
    queued twice (it was fetched again while its retry was pending); the
    second cycle marks it processed through one item and requeues the
    other; the third cycle, in which Gmail returns "m1" once more, drains
    that item: "m1", whose id is in the set, is extracted again and a
    second reminder is created. *)
Lemma dedup_fails_on_pending_item :
  elements (processedEmailIds (state (dmn Refetched.after_cycle2))) = ["m1"]
  /\ queued_ids (dmn Refetched.after_cycle2) = ["m1"]
  /\ List.filter is_reminderCreated
       (new_log (processEmailsOnce Scripted.env) Refetched.after_cycle2)
     = [Emit (reminderCreated "m1" (Some "R2") "r1" 85)]
  /\ ~ never_handled_again Scripted.env Refetched.after_cycle2 "m1".
Proof.
  assert (Hlog : List.filter is_reminderCreated
                   (new_log (processEmailsOnce Scripted.env) Refetched.after_cycle2)
                 = [Emit (reminderCreated "m1" (Some "R2") "r1" 85)])
    by (vm_compute; reflexivity).
  split; [vm_compute; reflexivity|]. split; [vm_compute; reflexivity|].
  split; [exact Hlog|].
  intros H.
  assert (Hin : "m1" ∈ processedEmailIds (state (dmn Refetched.after_cycle2)))
    by (apply (bool_decide_unpack _); vm_compute; exact I).
  specialize (H Hin).
  assert (Hev : In (Emit (reminderCreated "m1" (Some "R2") "r1" 85))
                   (List.filter is_reminderCreated
                      (new_log (processEmailsOnce Scripted.env)
                               Refetched.after_cycle2)))
    by (rewrite Hlog; now left).
  destruct (proj1 (filter_In _ _ _) Hev) as [Hev' _].
  exact (proj1 (List.Forall_forall _ _) H _ Hev' eq_refl).
Qed.

(** ** C10: items without a reminder *)

(** The part of C10 that the code keeps.  A queue item whose extraction
    results all have confidence below 25, or a rule name that is not in
    the item's rule list, is processed without throwing and without a
    sink call: the drain
    adds its message id to [processedEmailIds] and raises
    [totalEmailsProcessed] by one, [totalRemindersCreated] is unchanged and
    the item is not queued again.  The id then stays in the set over any
    run of cycles and configuration updates, whatever the rules become:
    every later cycle excludes the message at the fetch filter and at the
    enqueue step, and nothing more is done about it unless another item
    for the same id is still in the queue. *)
Theorem unmatched_item_is_marked_processed {W : Type} (E : Env W)
    (item : ProcessingQueueItem) (st : St W)
    (results : list ProcessingResult) (w' : W) :
  processMultipleEmails E [email item] (rules item) (world st) = (Ok results, w') ->
  Forall (fun r => confidence r < 25 \/ rule_of (rules item) r = None) results ->
  let st' := exec (processOne E item) st in
  let i := id (email item) in
  result (processOne E item) st = Ok tt
  /\ processedEmailIds (state (dmn st')) = {[ i ]} ∪ processedEmailIds (state (dmn st))
  /\ totalEmailsProcessed (state (dmn st')) = totalEmailsProcessed (state (dmn st)) + 1
  /\ totalRemindersCreated (state (dmn st')) = totalRemindersCreated (state (dmn st))
  /\ new_log (processOne E item) st
     = [CallProcessMultipleEmails (email item) (rules item)]
  /\ processingQueue (dmn st') = processingQueue (dmn st)
  /\ (forall items,
        i ∈ processedEmailIds
              (state (dmn (fold_left (fun s it => exec (processOne E it) s)
                                     items st'))))
  /\ (forall later ops,
        i ∈ processedEmailIds (state (dmn later)) ->
        let after := run_ops E ops later in
        i ∈ processedEmailIds (state (dmn after))
        /\ (exists fetched st'',
              fetchNewEmails E after = (Ok fetched, st'')
              /\ Forall (fun e => id e <> i) fetched)
        /\ (forall matched rs,
              exists fresh,
                processingQueue (dmn (exec (enqueueMatched matched rs) after))
                = processingQueue (dmn after) ++ fresh
                /\ Forall (fun it => id (email it) <> i) fresh)
        /\ (Forall (fun it => id (email it) <> i) (processingQueue (dmn later)) ->
            settled i after /\ silent_about i later after)).
Proof.
  intros Hx Hlow. cbv zeta.
  assert (Hgate : Forall (fun r => passes_gate (rules item) r = false) results).
  { eapply List.Forall_impl; [|exact Hlow]. intros r [Hc|Hr].
    - now apply low_confidence_fails_gate.
    - unfold passes_gate. rewrite Hr. apply andb_false_r. }
  pose proof (processOne_none_pass E item st results w' Hx Hgate) as Hone.
  unfold new_log, result, exec. rewrite Hone. cbn [fst snd dmn log state set_state
    mark_processed processedEmailIds totalEmailsProcessed totalRemindersCreated
    processingQueue].
  split; [reflexivity|]. split; [reflexivity|]. split; [reflexivity|].
  split; [reflexivity|]. split; [apply drop_length_app|]. split; [reflexivity|].
  split.
  - intros items.
    match goal with
    | |- context [fold_left _ items ?s] =>
      destruct (drain_effect E items s) as (_ & Hids & _)
    end.
    apply Hids. cbn. apply elem_of_union_l. now apply elem_of_singleton.
  - intros later ops Hin.
    destruct (fetchNewEmails_excludes E (run_ops E ops later))
      as (fetched & st'' & Hf & Hnew).
    pose proof (run_ops_grows E ops later) as Hgrow.
    assert (Hin' : id (email item)
                   ∈ processedEmailIds (state (dmn (run_ops E ops later))))
      by now apply Hgrow.
    split; [exact Hin'|]. split; [|split].
    + exists fetched, st''. split; [exact Hf|].
      eapply List.Forall_impl; [|exact Hnew]. intros e He Heq.
      apply He. now rewrite Heq.
    + intros matched rs. unfold exec. rewrite enqueueMatched_spec. cbn [snd dmn].
      eexists. split; [reflexivity|].
      apply List.Forall_forall. intros it Hit.
      apply in_map_iff in Hit as (e & <- & He).
      apply filter_In in He as [_ He]. cbn. unfold has in He.
      apply negb_true_iff in He. apply bool_decide_eq_false in He.
      intros Heq. apply He. now rewrite Heq.
    + intros Hq. apply run_ops_settled. now split.
Qed.

(** The item whose only extraction result has confidence 20 is marked
    processed after the extraction call alone. *)
Lemma unmatched_item_is_marked_processed_witness :
  processedEmailIds (state (dmn (exec (processOne Scripted.env Gate.item) Gate.st_low)))
  = {[ "m1" ]} ∪ processedEmailIds (state (dmn Gate.st_low))
  /\ totalEmailsProcessed
       (state (dmn (exec (processOne Scripted.env Gate.item) Gate.st_low)))
     = totalEmailsProcessed (state (dmn Gate.st_low)) + 1
  /\ totalRemindersCreated
       (state (dmn (exec (processOne Scripted.env Gate.item) Gate.st_low)))
     = totalRemindersCreated (state (dmn Gate.st_low))
  /\ new_log (processOne Scripted.env Gate.item) Gate.st_low
     = [CallProcessMultipleEmails Gate.m1 Gate.rs].
Proof.
  assert (Hx : processMultipleEmails Scripted.env [email Gate.item]
                 (rules Gate.item) (world Gate.st_low)
               = (Ok [Gate.low20], snd (Scripted.next_extract (world Gate.st_low))))
    by (vm_compute; reflexivity).
  assert (Hlow : Forall (fun r => confidence r < 25
                                  \/ rule_of (rules Gate.item) r = None)
                        [Gate.low20])
    by (repeat constructor).
  destruct (unmatched_item_is_marked_processed Scripted.env Gate.item Gate.st_low
              _ _ Hx Hlow) as (_ & Hids & Htotal & Hrem & Hlog & _).
  split; [exact Hids|]. split; [exact Htotal|]. split; [exact Hrem|exact Hlog].
Defined.

(** C10: the code departs from the claim, by the defect of C1 (the
    drain, line 349-353, does not consult [processedEmailIds]).  "m1"
    waits in the queue for a retry when it is fetched and enqueued again;
    in the second cycle the retry fails once more and stays queued, while
    the new copy is found with confidence 20 and marks "m1" processed
    without a reminder.  The third cycle then drains the retry: "m1",
    marked processed without a reminder, is extracted again and its
    reminder created. *)
Lemma unmatched_item_is_processed_again :
  elements (processedEmailIds (state (dmn LowTwin.after_cycle2))) = ["m1"]
  /\ totalRemindersCreated (state (dmn LowTwin.after_cycle2)) = 0
  /\ queued_ids (dmn LowTwin.after_cycle2) = ["m1"]
  /\ List.filter is_reminderCreated
       (new_log (processEmailsOnce Scripted.env) LowTwin.after_cycle2)
     = [Emit (reminderCreated "m1" (Some "R1") "r1" 85)]
  /\ ~ never_handled_again Scripted.env LowTwin.after_cycle2 "m1".
Proof.
  assert (Hlog : List.filter is_reminderCreated
                   (new_log (processEmailsOnce Scripted.env) LowTwin.after_cycle2)
                 = [Emit (reminderCreated "m1" (Some "R1") "r1" 85)])
    by (vm_compute; reflexivity).
  split; [vm_compute; reflexivity|]. split; [vm_compute; reflexivity|].
  split; [vm_compute; reflexivity|]. split; [exact Hlog|].
  intros H.
  assert (Hin : "m1" ∈ processedEmailIds (state (dmn LowTwin.after_cycle2)))
    by (apply (bool_decide_unpack _); vm_compute; exact I).
  specialize (H Hin).
  assert (Hev : In (Emit (reminderCreated "m1" (Some "R1") "r1" 85))
                   (List.filter is_reminderCreated
                      (new_log (processEmailsOnce Scripted.env)
                               LowTwin.after_cycle2)))
    by (rewrite Hlog; now left).
  destruct (proj1 (filter_In _ _ _) Hev) as [Hev' _].
  exact (proj1 (List.Forall_forall _ _) H _ Hev' eq_refl).
Qed.

(** * Invariants of the running daemon *)

(** ** Lifting a step-wise property to drains, cycles and runs *)

Section AttemptInduction.

Context {W : Type} (E : Env W).
Variable R : St W -> St W -> Prop.
Hypothesis HR : closed_under_attempts R.

Lemma processResults_closed e rs results (st : St W) :
  R st (exec (processResults E e rs results) st).
Proof.
  revert st. induction results as [|r rest IH]; intros st.
  - apply (att_refl R HR).
  - destruct (passes_gate rs r) eqn:Hgate.
    + unfold passes_gate in Hgate. apply andb_true_iff in Hgate as [Hc Hrule].
      apply negb_true_iff in Hc.
      destruct (rule_of rs r) as [rule|] eqn:Hr; [|discriminate].
      unfold exec. rewrite (processResults_call E e rs r rest st rule Hc Hr).
      cbv zeta.
      set (c := CallCreateReminder (extractedFields r) (reminderTemplate rule) (id e)).
      assert (Hcall : forall w', R st (mkSt w' (dmn st) (log st ++ [c]))).
      { intros w'.
        apply (att_trans R HR _ (with_action c st)); [apply (att_sink R HR)|].
        exact (att_world R HR (with_action c st) w'). }
      destruct (createReminderFromExtractedData E _ _ _ _) as [[rr|ex] w'].
      * destruct (success rr); cbn [snd]; [|apply Hcall].
        eapply (att_trans R HR); [apply (Hcall w')|].
        eapply (att_trans R HR); [|apply IH].
        match goal with
        | |- R ?s _ =>
          pose proof (att_created R HR s (id e) (reminderId rr)
                                  (ruleName r) (confidence r)) as Hstep
        end.
        unfold with_action, with_state, with_dmn in Hstep.
        cbn [world dmn log] in Hstep.
        rewrite count_reminder_add, <- app_assoc in Hstep. exact Hstep.
      * cbn [snd]. apply Hcall.
    + unfold exec. rewrite (processResults_skip E e rs r rest st Hgate). apply IH.
Qed.

Lemma processQueueItem_closed (item : ProcessingQueueItem) (st : St W) :
  R st (exec (processQueueItem E item) st).
Proof.
  unfold exec. rewrite processQueueItem_unfold. cbv zeta.
  assert (Hcall : forall w',
             R st (mkSt w' (dmn st)
                        (log st ++ [CallProcessMultipleEmails (email item) (rules item)]))).
  { intros w'.
    apply (att_trans R HR _ (with_action (CallProcessMultipleEmails (email item) (rules item)) st));
      [apply (att_extract R HR)|].
    exact (att_world R HR (with_action _ st) w'). }
  destruct (processMultipleEmails E _ _ _) as [[results|ex] w']; cbn [snd].
  - eapply (att_trans R HR); [apply (Hcall w')|]. apply processResults_closed.
  - apply Hcall.
Qed.

Lemma processOne_closed (item : ProcessingQueueItem) (st : St W) :
  R st (exec (processOne E item) st).
Proof.
  pose proof (processQueueItem_closed item st) as Hitem.
  destruct (processQueueItem_frame E item st) as (r & w1 & l & Heq & _).
  unfold exec in *. rewrite processOne_unfold. rewrite Heq in *. cbn [snd] in Hitem.
  apply (att_trans R HR _ _ _ Hitem).
  destruct r as [[]|ex]; cbn [snd world dmn log].
  - match goal with
    | |- R ?s _ => exact (att_mark R HR s (id (email item)))
    end.
  - destruct (clock E w1) as [t w2]. cbv zeta.
    cbn [attempts failed_item dmn config add_reminders set_state].
    match goal with
    | |- R ?s _ =>
      apply (att_trans R HR _ (with_world w2 s)); [apply (att_world R HR)|]
    end.
    destruct (attempts item + 1 <? retryAttempts (config (dmn st))) eqn:Hleft;
      cbn [snd].
    + match goal with
      | |- R ?s _ =>
        refine (att_requeue R HR s item (ValidDate t) (error_message ex) _)
      end.
      cbn. now apply Z.ltb_lt.
    + match goal with
      | |- R ?s _ =>
        refine (att_failed R HR s (id (email item)) (error_message ex)
                           (attempts item + 1) _)
      end.
      cbn. now apply Z.ltb_ge.
Qed.

Lemma drain_closed (items : list ProcessingQueueItem) (st : St W) :
  R st (fold_left (fun st it => exec (processOne E it) st) items st).
Proof.
  revert st. induction items as [|item items IH]; intros st; cbn [fold_left].
  - apply (att_refl R HR).
  - eapply (att_trans R HR); [apply processOne_closed|apply IH].
Qed.

Lemma processQueue_closed (st : St W) : R st (exec (processQueue E) st).
Proof.
  unfold exec. rewrite processQueue_unfold. cbn [snd].
  apply (att_trans R HR _ (with_dmn (set_processingQueue []) st));
    [apply (att_clear R HR)|].
  apply drain_closed.
Qed.

End AttemptInduction.

Section DrainFrame.

Context {W : Type} (E : Env W).

(** A drain leaves [lastProcessedTimestamp] and the error fields of the
    state alone. *)
Lemma attempts_keep_timestamp :
  closed_under_attempts
    (fun st st' : St W =>
       lastProcessedTimestamp (state (dmn st')) = lastProcessedTimestamp (state (dmn st))
       /\ lastErrorTimestamp (state (dmn st')) = lastErrorTimestamp (state (dmn st))
       /\ lastErrorMessage (state (dmn st')) = lastErrorMessage (state (dmn st))).
Proof.
  split; try (intros; cbn; auto; fail).
  intros st1 st2 st3 (H1 & H2 & H3) (H4 & H5 & H6). repeat split; congruence.
Qed.

Lemma processQueue_keeps_timestamp (st : St W) :
  lastProcessedTimestamp (state (dmn (exec (processQueue E) st)))
  = lastProcessedTimestamp (state (dmn st)).
Proof. apply (processQueue_closed E _ attempts_keep_timestamp st). Qed.

End DrainFrame.

Section CycleInduction.

Context {W : Type} (E : Env W).
Variable R : St W -> St W -> Prop.
Hypothesis HR : closed_under_cycles E R.

Lemma fetchNewEmails_closed (st : St W) : R st (exec (fetchNewEmails E) st).
Proof.
  destruct (fetchNewEmails_spec E st) as (all & w' & Heq).
  unfold exec. rewrite Heq. cbn [snd]. unfold fetch_requests.
  assert (Hg : gmail_ready E st = true ->
               R st (with_action
                       (CallGetEmails gmail (maxEmailsPerScan (config (dmn st)) / 2)) st)).
  { intros Hr. apply (cyc_fetch E R HR st gmail).
    unfold gmail_ready in Hr. now apply andb_true_iff in Hr as [Hr _]. }
  assert (Hi : forall st1 : St W,
             dmn st1 = dmn st -> icloud_ready E st = true ->
             R st1 (with_action
                      (CallGetEmails icloud (maxEmailsPerScan (config (dmn st)) / 2)) st1)).
  { intros st1 Hd Hr. rewrite <- Hd. apply (cyc_fetch E R HR st1 icloud).
    rewrite Hd. unfold icloud_ready in Hr. now apply andb_true_iff in Hr as [Hr _]. }
  destruct (gmail_ready E st) eqn:Hgr, (icloud_ready E st) eqn:Hir; cbn [app].
  - apply (cyc_trans E R HR _ _ _ (Hg eq_refl)).
    match goal with
    | |- R ?s _ => apply (cyc_trans E R HR _ _ _ (Hi s eq_refl eq_refl))
    end.
    unfold with_action. cbn [world dmn log]. rewrite <- app_assoc.
    match goal with |- R ?s _ => exact (cyc_world E R HR s w') end.
  - apply (cyc_trans E R HR _ _ _ (Hg eq_refl)).
    match goal with |- R ?s _ => exact (cyc_world E R HR s w') end.
  - apply (cyc_trans E R HR _ _ _ (Hi st eq_refl eq_refl)).
    match goal with |- R ?s _ => exact (cyc_world E R HR s w') end.
  - rewrite app_nil_r. exact (cyc_world E R HR st w').
Qed.

Lemma enqueue_all_closed (l : list EmailData) (rs : list EmailRule) (st : St W) :
  Forall (fun e => is_new (state (dmn st)) e = true /\ has_matchedRules e = true) l ->
  R st (with_dmn (fun d => set_processingQueue
                             (processingQueue d ++ map (fun e => new_item e rs) l) d)
                 st).
Proof.
  revert st. induction l as [|e l IH]; intros st Hl.
  - unfold with_dmn. cbn [map]. rewrite app_nil_r, set_processingQueue_same.
    destruct st. apply (cyc_refl E R HR).
  - inversion Hl as [|? ? [Hnew Hm] Hl']; subst.
    apply (cyc_trans E R HR _ _ _ (cyc_enqueue E R HR st e rs Hnew Hm)).
    specialize (IH (enqueued (new_item e rs) st) Hl').
    unfold enqueued, with_dmn in *. cbn [world dmn log processingQueue set_processingQueue] in *.
    unfold set_processingQueue in *.
    cbn [config state _isRunning intervalId processingQueue isProcessing
         gmailClient icloudClient] in *.
    rewrite <- app_assoc in IH. exact IH.
Qed.

Lemma filterEmails_keeps_new (s : DaemonState) (emails : list EmailData)
    (rs : list EmailRule) :
  Forall (fun e => is_new s e = true) emails ->
  Forall (fun e => is_new s e = true) (filterEmails E emails rs).
Proof.
  intros H. unfold filterEmails.
  destruct ((length emails =? 0)%nat || (length rs =? 0)%nat); [exact H|].
  apply List.Forall_forall. intros e' He'.
  apply in_map_iff in He' as (e & <- & He).
  exact (proj1 (List.Forall_forall _ _) H e He).
Qed.

Lemma cycle_until_enqueued_closed (st : St W) :
  R st (exec (cycle_until_enqueued E) st)
  /\ (forall matched rs,
        result (cycle_until_enqueued E) st = Ok (Some (matched, rs)) ->
        valid_date (lastProcessedTimestamp (state (dmn st)))).
Proof.
  unfold exec, result. rewrite cycle_until_enqueued_unfold. cbv zeta.
  pose proof (cyc_load_rules E R HR st) as Hload.
  destruct (loadRules E (world st)) as [[rs|ex] w1]; cbn [fst snd world dmn log].
  - set (st1 := mkSt w1 (dmn st) (log st ++ [CallLoadRules])).
    assert (H1 : R st st1).
    { apply (cyc_trans E R HR _ _ _ Hload).
      exact (cyc_world E R HR (with_action CallLoadRules st) w1). }
    pose proof (fetchNewEmails_closed st1) as Hfetch.
    destruct (fetchNewEmails_spec E st1) as (all & w2 & Heq).
    unfold exec in Hfetch. rewrite Heq in *. cbn [snd] in Hfetch.
    cbn [dmn st1] in *.
    destruct (length (List.filter (is_new (state (dmn st))) all) =? 0)%nat eqn:Hlen;
      cbn [fst snd].
    + split; [exact (cyc_trans E R HR _ _ _ H1 Hfetch)|discriminate].
    + assert (Hnew : Forall (fun e => is_new (state (dmn st)) e = true)
                            (List.filter (is_new (state (dmn st))) all)).
      { apply List.Forall_forall. intros e He. now apply filter_In in He. }
      split.
      * apply (cyc_trans E R HR _ _ _ H1). apply (cyc_trans E R HR _ _ _ Hfetch).
        unfold exec. rewrite enqueueMatched_spec. cbn [snd world dmn log].
        match goal with
        | |- R ?s _ =>
          pose proof (enqueue_all_closed
                        (unprocessed (state (dmn st))
                           (List.filter has_matchedRules
                              (filterEmails E (List.filter (is_new (state (dmn st))) all) rs)))
                        rs s) as Henq
        end.
        apply Henq. cbn [dmn].
        apply List.Forall_forall. intros e He.
        apply filter_In in He as [He _]. apply filter_In in He as [He Hm].
        split; [|exact Hm].
        exact (proj1 (List.Forall_forall _ _)
                     (filterEmails_keeps_new _ _ rs Hnew) e He).
      * intros _ _ _.
        destruct (List.filter (is_new (state (dmn st))) all) as [|e rest];
          [discriminate|].
        inversion Hnew as [|? ? He _]; subst.
        unfold is_new in He. apply andb_true_iff in He as [_ He].
        destruct (lastProcessedTimestamp (state (dmn st))); [exact I|].
        destruct (date e); discriminate.
  - split; [|discriminate].
    apply (cyc_trans E R HR _ _ _ Hload).
    exact (cyc_world E R HR (with_action CallLoadRules st) w1).
Qed.

Lemma saveState_closed (st : St W) : R st (exec (saveState E) st).
Proof.
  unfold exec. rewrite saveState_unfold. cbn [snd].
  destruct (stateToSave E (state (dmn st))) as [j|] eqn:Hj.
  - apply (cyc_trans E R HR _ _ _ (cyc_write E R HR st j Hj)).
    exact (cyc_world E R HR (with_action (CallWriteFile j) st) _).
  - apply (cyc_refl E R HR).
Qed.

Lemma cycle_before_save_closed (st : St W) : R st (cycle_before_save E st).
Proof.
  unfold cycle_before_save.
  assert (Hentry : R st (cycle_entry E st)).
  { apply (cyc_trans E R HR _ _ _ (cyc_flag E R HR st true)).
    exact (cyc_world E R HR (with_dmn (set_isProcessing true) st) _). }
  destruct (cycle_until_enqueued_closed (cycle_entry E st)) as [Hpre Hvalid].
  destruct (cycle_until_enqueued_effect E (cycle_entry E st)) as (Hstate & _).
  apply (cyc_trans E R HR _ _ _ Hentry).
  unfold exec, result in Hpre, Hvalid, Hstate.
  destruct (cycle_until_enqueued E (cycle_entry E st))
    as [[[[matched rs]|]|err] st1] eqn:Hrun; cbn [fst snd] in *.
  - specialize (Hvalid matched rs eq_refl).
    apply (cyc_trans E R HR _ _ _ Hpre).
    set (st2 := exec (processQueue E) st1).
    apply (cyc_trans E R HR _ _ _ (cyc_drain E R HR st1)). fold st2.
    assert (Hv2 : valid_date (lastProcessedTimestamp (state (dmn st2)))).
    { unfold st2. rewrite processQueue_keeps_timestamp, Hstate. exact Hvalid. }
    destruct (clock E (world st2)) as [t w3]. destruct (clock E w3) as [t' w4].
    apply (cyc_trans E R HR _ _ _ (cyc_stamp E R HR st2 t Hv2)).
    set (st3 := with_state (set_lastProcessedTimestamp (ValidDate t)) st2).
    apply (cyc_trans E R HR _ _ _
             (cyc_complete E R HR st3 (Z.of_nat (length matched))
                           (t' - fst (clock E (world st))) I)).
    match goal with
    | |- R ?s _ =>
      apply (cyc_trans E R HR _ _ _ (cyc_flag E R HR s false));
        exact (cyc_world E R HR (with_dmn (set_isProcessing false) s) w4)
    end.
  - apply (cyc_trans E R HR _ _ _ Hpre).
    exact (cyc_flag E R HR st1 false).
  - apply (cyc_trans E R HR _ _ _ Hpre).
    destruct (clock E (world st1)) as [t w2]. cbn [fst snd].
    apply (cyc_trans E R HR _ _ _ (cyc_error E R HR st1 t err)).
    match goal with
    | |- R ?s _ =>
      apply (cyc_trans E R HR _ _ _ (cyc_flag E R HR s false));
        exact (cyc_world E R HR (with_dmn (set_isProcessing false) s) w2)
    end.
Qed.

(** Every cycle keeps a relation that is closed under its steps. *)
Lemma processEmailsOnce_closed (st : St W) : R st (exec (processEmailsOnce E) st).
Proof.
  destruct (isProcessing (dmn st)) eqn:Hflag.
  - unfold exec. rewrite processEmailsOnce_unfold, Hflag. apply (cyc_refl E R HR).
  - unfold exec at 1. rewrite (processEmailsOnce_saves E st Hflag). cbn [snd].
    apply (cyc_trans E R HR _ _ _ (cycle_before_save_closed st)).
    apply saveState_closed.
Qed.

Variable allowed : PartialDaemonConfig -> Prop.
Hypothesis Hupdate :
  forall newConfig st, allowed newConfig -> R st (exec (updateConfig newConfig) st).

Lemma run_op_closed (o : Op) (st : St W) :
  updates_satisfy allowed o -> R st (exec (run_op E o) st).
Proof.
  destruct o as [| |newConfig]; cbn [run_op updates_satisfy]; intros Hok.
  - unfold forceProcessing, exec, bind, get_dmn. cbn [fst snd dmn].
    destruct (_isRunning (dmn st)); cbn [negb].
    + apply processEmailsOnce_closed.
    + apply (cyc_refl E R HR).
  - unfold timer_tick, exec, bind, get_dmn. cbn [fst snd dmn].
    destruct (isProcessing (dmn st)); cbn [negb].
    + apply (cyc_refl E R HR).
    + apply processEmailsOnce_closed.
  - now apply Hupdate.
Qed.

(** So does every run of operations whose updates are allowed. *)
Lemma run_ops_closed (ops : list Op) (st : St W) :
  Forall (updates_satisfy allowed) ops -> R st (run_ops E ops st).
Proof.
  revert st. induction ops as [|o ops IH]; intros st Hops; cbn [run_ops fold_left].
  - apply (cyc_refl E R HR).
  - inversion Hops as [|? ? Ho Hops']; subst.
    apply (cyc_trans E R HR _ _ _ (run_op_closed o st Ho)).
    apply (IH _ Hops').
Qed.

End CycleInduction.

(** ** The life cycle *)

Section LifecycleFacts.

Context {W : Type} (E : Env W).

Lemma set_gmailClient_same (d : Daemon) : set_gmailClient (gmailClient d) d = d.
Proof. now destruct d. Qed.

Lemma set_icloudClient_same (d : Daemon) : set_icloudClient (icloudClient d) d = d.
Proof. now destruct d. Qed.

(** [initializeEmailClients], provider by provider. *)
Lemma initializeEmailClients_unfold (st : St W) :
  let g := initialized E gmail (dmn st) (world st) in
  let i := initialized E icloud (dmn st) (snd (fst g)) in
  initializeEmailClients E st =
  (if negb (fst (fst g)) && negb (fst (fst i))
   then Throw (Error "No email clients available - check configuration" None)
   else Ok tt,
   mkSt (snd (fst i))
        (set_icloudClient (fst (fst i)) (set_gmailClient (fst (fst g)) (dmn st)))
        (log st ++ snd g ++ snd i)).
Proof.
  cbv zeta. unfold initialized, initializeEmailClients, client, initialize.
  run_monad.
  destruct (gmailClient (dmn st)) eqn:Hg; run_monad.
  - destruct (gmail_initialize E (world st)) as [[[]|ex] w1];
      cbn [fst snd world dmn log icloudClient gmailClient set_gmailClient];
      (destruct (icloudClient (dmn st)) eqn:Hi; run_monad;
       [destruct (icloud_initialize E w1) as [[[]|ex'] w2]|]);
      cbn [fst snd world dmn log icloudClient gmailClient set_gmailClient
           set_icloudClient negb andb];
      rewrite ?Hg, ?Hi; cbn [fst snd negb andb];
      rewrite <- ?Hg, <- ?Hi, ?set_gmailClient_same, ?set_icloudClient_same;
      rewrite <- ?app_assoc, ?app_nil_r; try reflexivity;
      destruct st as [w [] l]; cbn in *; subst; reflexivity.
  - destruct (icloudClient (dmn st)) eqn:Hi; run_monad;
      [destruct (icloud_initialize E (world st)) as [[[]|ex'] w2]|];
      cbn [fst snd world dmn log icloudClient gmailClient set_gmailClient
           set_icloudClient negb andb];
      rewrite ?Hg, ?Hi; cbn [fst snd negb andb];
      rewrite <- ?app_assoc, ?app_nil_r; try reflexivity;
      destruct st as [w [] l]; cbn in *; subst; reflexivity.
Qed.

End LifecycleFacts.

Section StartupFacts.

Context {W : Type} (E : Env W).

Lemma testAppleRemindersAccess_unfold (st : St W) :
  testAppleRemindersAccess E st =
  (if fst (fst (testAccess E (world st))) then Ok tt
   else Throw (Error ("Apple Reminders not accessible: "
                      +:+ default "undefined" (snd (fst (testAccess E (world st)))))
                     None),
   mkSt (snd (testAccess E (world st))) (dmn st) (log st ++ [CallTestAccess])).
Proof.
  unfold testAppleRemindersAccess. run_monad.
  destruct (testAccess E (world st)) as [[ok reason] w1]. cbn [fst snd].
  now destruct ok.
Qed.

Lemma startup_unfold (st : St W) :
  startup E st =
  match initializeEmailClients E (exec (loadState E) st) with
  | (Ok _, st2) => testAppleRemindersAccess E st2
  | (Throw e, st2) => (Throw e, st2)
  end.
Proof.
  unfold startup, exec, bind at 1. rewrite loadState_unfold. cbn [snd].
  unfold bind. now destruct (initializeEmailClients E _) as [[[]|e] st2].
Qed.

(** [start] on a stopped daemon: the startup steps, then either the first
    cycle, the timer and the [started] event, or the [error] event and
    the rethrown error. *)
Lemma start_unfold (st : St W) :
  _isRunning (dmn st) = false ->
  start E st =
  match startup E st with
  | (Ok _, st1) =>
    (Ok tt,
     with_action (Emit started)
       (with_dmn arm_timer
          (exec (processEmailsOnce E) (with_dmn (set_isRunning true) st1))))
  | (Throw e, st1) =>
    (Throw e, with_action (Emit (error_event e)) (with_dmn (set_isRunning false) st1))
  end.
Proof.
  intros Hstopped. rewrite startup_unfold.
  unfold start, try_catch, bind at 1.
  cbn [get_dmn]. rewrite Hstopped. unfold bind at 1.
  unfold exec. rewrite loadState_unfold. cbn [snd]. unfold bind at 1.
  destruct (initializeEmailClients E _) as [[[]|e] s1].
  - unfold bind at 1.
    destruct (testAppleRemindersAccess E s1) as [[[]|e] s2].
    + unfold bind at 1. unfold modify at 1. unfold bind at 1.
      unfold with_action, with_dmn. cbn [fst snd world dmn log].
      match goal with
      | |- context [processEmailsOnce E ?s] =>
        pose proof (processEmailsOnce_total E s) as Hcycle;
        destruct (processEmailsOnce E s) as [rc s3]
      end.
      cbn [fst] in Hcycle. subst rc. run_monad. reflexivity.
    + run_monad. reflexivity.
  - run_monad. reflexivity.
Qed.


(** What the startup steps change: the state, when the state file was
    read and parsed, and the clients whose [initialize] rejected. *)
Lemma startup_effect (st : St W) :
  let st1 := exec (startup E) st in
  config (dmn st1) = config (dmn st)
  /\ _isRunning (dmn st1) = _isRunning (dmn st)
  /\ intervalId (dmn st1) = intervalId (dmn st)
  /\ processingQueue (dmn st1) = processingQueue (dmn st)
  /\ isProcessing (dmn st1) = isProcessing (dmn st)
  /\ state (dmn st1) = state (dmn (exec (loadState E) st))
  /\ gmailClient (dmn st1)
     = fst (fst (initialized E gmail (dmn st) (snd (readFile E (world st)))))
  /\ icloudClient (dmn st1)
     = fst (fst (initialized E icloud (dmn st)
                   (snd (fst (initialized E gmail (dmn st)
                                          (snd (readFile E (world st))))))))
  /\ (exists l, log st1 = log st ++ CallReadFile :: l
                /\ Forall (fun a => is_startup_call a = true) l)
  /\ (result (startup E) st = Ok tt
      \/ exists e, result (startup E) st = Throw e /\ startup_fatal e)
  /\ (result (startup E) st = Ok tt ->
      gmailClient (dmn st1) = true \/ icloudClient (dmn st1) = true).
Proof.
  cbv zeta. unfold exec, result. rewrite startup_unfold.
  unfold exec. rewrite loadState_unfold. cbn [snd].
  rewrite initializeEmailClients_unfold. cbv zeta. cbn [world dmn log].
  set (d1 := match fst (readFile E (world st)) with
             | ReadText (Some j) => set_state (stateFromSaved E j) (dmn st)
             | _ => dmn st
             end).
  assert (Hd1 : config d1 = config (dmn st) /\ _isRunning d1 = _isRunning (dmn st)
                /\ intervalId d1 = intervalId (dmn st)
                /\ processingQueue d1 = processingQueue (dmn st)
                /\ isProcessing d1 = isProcessing (dmn st)
                /\ gmailClient d1 = gmailClient (dmn st)
                /\ icloudClient d1 = icloudClient (dmn st)).
  { unfold d1. destruct (fst (readFile E (world st))) as [|[j|]]; cbn; auto 10. }
  destruct Hd1 as (Hc & Hr & Hi & Hq & Hp & Hg & Hic).
  assert (Hinit : forall p w, initialized E p d1 w = initialized E p (dmn st) w).
  { intros p w. unfold initialized.
    replace (client p d1) with (client p (dmn st)); [reflexivity|].
    destruct p; cbn; congruence. }
  rewrite !Hinit.
  set (g := initialized E gmail (dmn st) (snd (readFile E (world st)))).
  set (i := initialized E icloud (dmn st) (snd (fst g))).
  assert (Hcalls : Forall (fun a => is_startup_call a = true) (snd g ++ snd i)).
  { apply Forall_app. split.
    - unfold g, initialized. destruct (client gmail (dmn st)); [|constructor].
      destruct (initialize E gmail _) as [[[]|] ?]; repeat constructor.
    - unfold i, initialized. destruct (client icloud (dmn st)); [|constructor].
      destruct (initialize E icloud _) as [[[]|] ?]; repeat constructor. }
  destruct (negb (fst (fst g)) && negb (fst (fst i))) eqn:Hnone.
  - cbn [fst snd dmn log config _isRunning intervalId processingQueue isProcessing
         state gmailClient icloudClient set_icloudClient set_gmailClient].
    repeat (split; [first [assumption | reflexivity]|]).
    split.
    { exists (snd g ++ snd i). split; [now rewrite <- app_assoc|exact Hcalls]. }
    split; [|discriminate].
    right. eexists. split; [reflexivity|now left].
  - rewrite testAppleRemindersAccess_unfold.
    cbn [fst snd world dmn log config _isRunning intervalId processingQueue
         isProcessing state gmailClient icloudClient set_icloudClient
         set_gmailClient].
    repeat (split; [first [assumption | reflexivity]|]).
    split.
    { exists ((snd g ++ snd i) ++ [CallTestAccess]). split.
      - now rewrite <- !app_assoc.
      - apply Forall_app. split; [exact Hcalls|repeat constructor]. }
    split.
    + destruct (fst (fst (testAccess E _))); [now left|right].
      eexists. split; [reflexivity|]. right. eauto.
    + intros _. apply andb_false_iff in Hnone as [H|H];
        apply negb_false_iff in H; auto.
Qed.

(** A cycle entered by an idle daemon ends idle; so do the operations. *)
Lemma processEmailsOnce_idle (st : St W) :
  isProcessing (dmn st) = false ->
  isProcessing (dmn (exec (processEmailsOnce E) st)) = false.
Proof.
  intros Hidle. unfold exec at 1. rewrite (processEmailsOnce_saves E st Hidle).
  cbn [snd]. rewrite saveState_dmn. unfold cycle_before_save.
  destruct (cycle_until_enqueued E (cycle_entry E st))
    as [[[[matched rs]|]|err] st1]; try reflexivity.
  cbv zeta. destruct (clock E _) as [t w3]. now destruct (clock E w3).
Qed.

Lemma run_op_idle (o : Op) (st : St W) :
  isProcessing (dmn st) = false ->
  isProcessing (dmn (exec (run_op E o) st)) = false.
Proof.
  intros Hidle. destruct o as [| |newConfig]; cbn [run_op].
  - unfold forceProcessing, exec, bind, get_dmn. cbn [fst snd dmn].
    destruct (_isRunning (dmn st)); cbn [negb snd throw]; [|exact Hidle].
    now apply processEmailsOnce_idle.
  - unfold timer_tick, exec, bind, get_dmn. cbn [fst snd dmn].
    rewrite Hidle. cbn [negb]. now apply processEmailsOnce_idle.
  - unfold updateConfig. run_monad.
    destruct (p_intervalMinutes newConfig) as [n|]; [|exact Hidle].
    cbn [intervalId set_config].
    destruct (intervalId (dmn st)); [|exact Hidle].
    cbn [_isRunning set_config].
    destruct (_isRunning (dmn st) && negb (n =? 0)); exact Hidle.
Qed.

Lemma run_ops_idle (ops : list Op) (st : St W) :
  isProcessing (dmn st) = false ->
  isProcessing (dmn (run_ops E ops st)) = false.
Proof.
  revert st. induction ops as [|o ops IH]; intros st Hidle; [exact Hidle|].
  cbn [run_ops fold_left]. apply IH. now apply run_op_idle.
Qed.

End StartupFacts.

(** ** The counters *)

Section CounterFacts.

Context {W : Type} (E : Env W).

Lemma counts_reminders_refl (st : St W) : counts_reminders st st.
Proof.
  exists []. rewrite app_nil_r. split; [reflexivity|].
  unfold count_created. cbn [List.filter length]. lia.
Qed.

Lemma counts_reminders_trans (st1 st2 st3 : St W) :
  counts_reminders st1 st2 -> counts_reminders st2 st3 -> counts_reminders st1 st3.
Proof.
  intros (l1 & Hl1 & Hc1) (l2 & Hl2 & Hc2). exists (l1 ++ l2).
  split; [rewrite Hl2, Hl1; now rewrite app_assoc|].
  rewrite count_created_app. lia.
Qed.

(** A step that logs [a] and leaves [totalRemindersCreated] alone. *)
Lemma counts_reminders_quiet (st : St W) (a : Action) :
  is_reminderCreated a = false -> counts_reminders st (with_action a st).
Proof.
  intros Ha. exists [a]. split; [reflexivity|].
  unfold count_created, with_action. cbn [List.filter dmn]. rewrite Ha.
  cbn [length]. lia.
Qed.

Lemma counts_reminders_silent (st st' : St W) :
  log st' = log st ->
  totalRemindersCreated (state (dmn st')) = totalRemindersCreated (state (dmn st)) ->
  counts_reminders st st'.
Proof.
  intros Hl Hc. exists []. rewrite app_nil_r. split; [exact Hl|].
  unfold count_created. cbn [List.filter length]. lia.
Qed.

Lemma attempts_count_reminders : closed_under_attempts (@counts_reminders W).
Proof.
  split.
  - apply counts_reminders_refl.
  - apply counts_reminders_trans.
  - intros. now apply counts_reminders_silent.
  - intros. now apply counts_reminders_silent.
  - intros. now apply counts_reminders_quiet.
  - intros. now apply counts_reminders_quiet.
  - intros st i rid rn c. exists [Emit (reminderCreated i rid rn c)].
    split; reflexivity.
  - intros. now apply counts_reminders_silent.
  - intros. now apply counts_reminders_silent.
  - intros. now apply counts_reminders_quiet.
Qed.

Lemma cycles_count_reminders : closed_under_cycles E (@counts_reminders W).
Proof.
  split.
  - apply counts_reminders_refl.
  - apply counts_reminders_trans.
  - intros. now apply counts_reminders_silent.
  - intros. now apply counts_reminders_silent.
  - intros. now apply counts_reminders_quiet.
  - intros. now apply counts_reminders_quiet.
  - intros. now apply counts_reminders_silent.
  - intros. apply (processQueue_closed E _ attempts_count_reminders).
  - intros. now apply counts_reminders_silent.
  - intros. now apply counts_reminders_quiet.
  - intros st t e.
    apply (counts_reminders_quiet
             (with_state (record_error (ValidDate t) (error_message e)) st)).
    reflexivity.
  - intros. now apply counts_reminders_quiet.
Qed.

Lemma updateConfig_effect (newConfig : PartialDaemonConfig) (st : St W) :
  let st' := exec (updateConfig newConfig) st in
  world st' = world st /\ log st' = log st
  /\ state (dmn st') = state (dmn st)
  /\ processingQueue (dmn st') = processingQueue (dmn st)
  /\ _isRunning (dmn st') = _isRunning (dmn st)
  /\ isProcessing (dmn st') = isProcessing (dmn st)
  /\ gmailClient (dmn st') = gmailClient (dmn st)
  /\ icloudClient (dmn st') = icloudClient (dmn st)
  /\ config (dmn st') = merge_config (config (dmn st)) newConfig
  /\ intervalId (dmn st')
     = match p_intervalMinutes newConfig, intervalId (dmn st) with
       | Some n, Some old =>
         if _isRunning (dmn st) && negb (n =? 0)
         then Some (intervalMinutes (merge_config (config (dmn st)) newConfig) * 60 * 1000)
         else Some old
       | _, i => i
       end.
Proof.
  cbv zeta. unfold updateConfig. run_monad.
  destruct (p_intervalMinutes newConfig) as [n|]; cbn [intervalId set_config];
    [|cbn; auto 10].
  destruct (intervalId (dmn st)) as [old|] eqn:Hid; [|cbn; rewrite ?Hid; auto 10].
  cbn [_isRunning set_config].
  destruct (_isRunning (dmn st) && negb (n =? 0)); cbn; rewrite ?Hid; auto 10.
Qed.

Lemma size_mark (i : string) (X : gset string) :
  (size ({[ i ]} ∪ X) <= S (size X))%nat.
Proof.
  rewrite size_union_alt, size_singleton.
  apply le_n_S, subseteq_size.
  intros x Hx. now apply elem_of_difference in Hx as [Hx _].
Qed.

Lemma counter_bounds_ids_silent (st st' : St W) :
  processedEmailIds (state (dmn st')) = processedEmailIds (state (dmn st)) ->
  totalEmailsProcessed (state (dmn st')) = totalEmailsProcessed (state (dmn st)) ->
  counter_bounds_ids st st'.
Proof. intros Hi Ht. unfold counter_bounds_ids. rewrite Hi, Ht. lia. Qed.

Lemma attempts_bound_ids : closed_under_attempts (@counter_bounds_ids W).
Proof.
  split; try (intros; now apply counter_bounds_ids_silent).
  - intros st1 st2 st3 [H1 H2] [H3 H4]. unfold counter_bounds_ids. lia.
  - intros st i. unfold counter_bounds_ids. cbn.
    pose proof (size_mark i (processedEmailIds (state (dmn st)))). lia.
Qed.

Lemma cycles_bound_ids : closed_under_cycles E (@counter_bounds_ids W).
Proof.
  split; try (intros; now apply counter_bounds_ids_silent).
  - intros st1 st2 st3 [H1 H2] [H3 H4]. unfold counter_bounds_ids. lia.
  - intros. apply (processQueue_closed E _ attempts_bound_ids).
Qed.

End CounterFacts.

(** Over any run of cycles and configuration updates, the counter
    [totalRemindersCreated] grows by exactly the number of
    [reminderCreated] events that the run emits. *)
Theorem reminder_counter_matches_events {W : Type} (E : Env W)
    (st : St W) (ops : list Op) :
  counts_reminders st (run_ops E ops st).
Proof.
  apply (run_ops_closed E _ (cycles_count_reminders E) (fun _ => True)).
  - intros newConfig st0 _.
    destruct (updateConfig_effect newConfig st0) as (_ & Hl & Hs & _).
    apply counts_reminders_silent; [exact Hl|now rewrite Hs].
  - apply List.Forall_forall. intros o _. now destruct o.
Qed.

(** Over any run of cycles and configuration updates,
    [totalEmailsProcessed] never decreases, and [processedEmailIds] gains
    at most as many ids as the counter grows: the counter counts the
    successful attempts, the set the distinct messages.  For a daemon
    that starts from the empty state the set is never larger than the
    counter. *)
Theorem processed_counter_bounds_ids {W : Type} (E : Env W)
    (st : St W) (ops : list Op) :
  counter_bounds_ids st (run_ops E ops st)
  /\ (state (dmn st) = initial_state ->
      Z.of_nat (size (processedEmailIds (state (dmn (run_ops E ops st)))))
      <= totalEmailsProcessed (state (dmn (run_ops E ops st)))).
Proof.
  assert (H : counter_bounds_ids st (run_ops E ops st)).
  { apply (run_ops_closed E _ (cycles_bound_ids E) (fun _ => True)).
    - intros newConfig st0 _.
      destruct (updateConfig_effect newConfig st0) as (_ & _ & Hs & _).
      apply counter_bounds_ids_silent; now rewrite Hs.
    - apply List.Forall_forall. intros o _. now destruct o. }
  split; [exact H|]. intros Hinit. destruct H as [_ H].
  rewrite Hinit in H. cbn in H. rewrite size_empty in H. lia.
Qed.

(** ** Traces *)

Section TraceFacts.

Context {W : Type} (E : Env W).

Lemma appends_refl (P : Action -> Prop) (st : St W) : appends P st st.
Proof. exists []. split; [now rewrite app_nil_r|constructor]. Qed.

Lemma appends_trans (P : Action -> Prop) (st1 st2 st3 : St W) :
  appends P st1 st2 -> appends P st2 st3 -> appends P st1 st3.
Proof.
  intros (l1 & Hl1 & Hp1) (l2 & Hl2 & Hp2). exists (l1 ++ l2).
  split; [rewrite Hl2, Hl1; now rewrite app_assoc|].
  apply Forall_app. now split.
Qed.

Lemma appends_silent (P : Action -> Prop) (st st' : St W) :
  log st' = log st -> appends P st st'.
Proof. intros H. exists []. split; [now rewrite app_nil_r|constructor]. Qed.

Lemma appends_action (P : Action -> Prop) (st : St W) (a : Action) :
  P a -> appends P st (with_action a st).
Proof. intros H. exists [a]. split; [reflexivity|now constructor]. Qed.

Lemma appends_impl (P Q : Action -> Prop) (st st' : St W) :
  (forall a, P a -> Q a) -> appends P st st' -> appends Q st st'.
Proof.
  intros H (l & Hl & Hp). exists l. split; [exact Hl|].
  eapply List.Forall_impl; [|exact Hp]. exact H.
Qed.

Lemma appends_new_log {A} (P : Action -> Prop) (m : M W A) (st : St W) :
  appends P st (exec m st) -> Forall P (new_log m st).
Proof. intros (l & Hl & Hp). now rewrite (new_log_app m st l Hl). Qed.

(** The steps of a drain log what they are meant to log. *)
Lemma attempts_append (P : Action -> Prop) :
  (forall e rs, P (CallProcessMultipleEmails e rs)) ->
  (forall fields template i, P (CallCreateReminder fields template i)) ->
  (forall i rid rn c, P (Emit (reminderCreated i rid rn c))) ->
  (forall i m k, P (Emit (processingFailed i m k))) ->
  closed_under_attempts (@appends W P).
Proof.
  intros H1 H2 H3 H4. split.
  - apply appends_refl.
  - apply appends_trans.
  - intros. now apply appends_silent.
  - intros. now apply appends_silent.
  - intros. apply appends_action, H1.
  - intros. apply appends_action, H2.
  - intros st i rid rn c.
    exact (appends_action P (with_state count_reminder st) _ (H3 i rid rn c)).
  - intros. now apply appends_silent.
  - intros. now apply appends_silent.
  - intros. apply appends_action, H4.
Qed.

Lemma cycles_append (P : Action -> Prop) :
  (forall a, is_cycle_action a = true -> P a) ->
  closed_under_cycles E (@appends W P).
Proof.
  intros H. split.
  - apply appends_refl.
  - apply appends_trans.
  - intros. now apply appends_silent.
  - intros. now apply appends_silent.
  - intros. now apply appends_action, H.
  - intros. now apply appends_action, H.
  - intros. now apply appends_silent.
  - intros. apply (processQueue_closed E).
    apply attempts_append; intros; now apply H.
  - intros. now apply appends_silent.
  - intros. now apply appends_action, H.
  - intros st t e.
    apply (appends_action
             P (with_state (record_error (ValidDate t) (error_message e)) st)).
    now apply H.
  - intros. now apply appends_action, H.
Qed.

(** A cycle only extends the trace, by actions of a cycle. *)
Lemma processEmailsOnce_appends (st : St W) :
  appends (fun a => is_cycle_action a = true) st (exec (processEmailsOnce E) st).
Proof. apply (processEmailsOnce_closed E _ (cycles_append _ (fun a H => H))). Qed.

End TraceFacts.

(** ** What a cycle leaves alone *)

Section FrameFacts.

Context {W : Type} (E : Env W).


Lemma attempts_keep_lifecycle : closed_under_attempts (@same_lifecycle W).
Proof.
  split; try (intros; cbn; now auto 10).
  intros st1 st2 st3 (H1 & H2 & H3 & H4 & H5) (H6 & H7 & H8 & H9 & H10).
  repeat split; congruence.
Qed.

Lemma cycles_keep_lifecycle : closed_under_cycles E (@same_lifecycle W).
Proof.
  split; try (intros; cbn; now auto 10).
  - intros st1 st2 st3 (H1 & H2 & H3 & H4 & H5) (H6 & H7 & H8 & H9 & H10).
    repeat split; congruence.
  - intros. apply (processQueue_closed E _ attempts_keep_lifecycle).
Qed.

Lemma attempts_ask_nobody (st0 : St W) :
  closed_under_attempts
    (@appends W (fun a => is_startup_call a = false
                       /\ forall p limit, a = CallGetEmails p limit ->
                                          client p (dmn st0) = true)).
Proof. apply attempts_append; intros; (split; [reflexivity|discriminate]). Qed.

Lemma asks_existing_clients_refl (st : St W) : asks_existing_clients st st.
Proof. split; [reflexivity|]. split; [reflexivity|]. apply appends_refl. Qed.

Lemma asks_existing_clients_trans (st1 st2 st3 : St W) :
  asks_existing_clients st1 st2 -> asks_existing_clients st2 st3 ->
  asks_existing_clients st1 st3.
Proof.
  intros (Hg1 & Hi1 & Hl1) (Hg2 & Hi2 & Hl2).
  split; [congruence|]. split; [congruence|].
  apply (appends_trans _ _ _ _ Hl1).
  eapply appends_impl; [|exact Hl2]. cbn beta.
  intros a [Hs Hc]. split; [exact Hs|].
  intros p limit Ha. specialize (Hc p limit Ha).
  destruct p; cbn [client] in *; congruence.
Qed.

Lemma asks_existing_clients_silent (st st' : St W) :
  log st' = log st ->
  gmailClient (dmn st') = gmailClient (dmn st) ->
  icloudClient (dmn st') = icloudClient (dmn st) ->
  asks_existing_clients st st'.
Proof.
  intros Hl Hg Hi. split; [exact Hg|]. split; [exact Hi|]. now apply appends_silent.
Qed.

Lemma asks_existing_clients_action (st : St W) (a : Action) :
  is_startup_call a = false ->
  (forall p limit, a = CallGetEmails p limit -> client p (dmn st) = true) ->
  asks_existing_clients st (with_action a st).
Proof.
  intros Hs Hc. split; [reflexivity|]. split; [reflexivity|].
  now apply appends_action.
Qed.

Lemma cycles_ask_existing_clients : closed_under_cycles E asks_existing_clients.
Proof.
  split.
  - apply asks_existing_clients_refl.
  - apply asks_existing_clients_trans.
  - intros. now apply asks_existing_clients_silent.
  - intros. now apply asks_existing_clients_silent.
  - intros. now apply asks_existing_clients_action.
  - intros st p Hp. apply asks_existing_clients_action; [reflexivity|].
    now intros p' limit' [= <- _].
  - intros. now apply asks_existing_clients_silent.
  - intros st.
    destruct (processQueue_closed E _ attempts_keep_lifecycle st)
      as (_ & _ & _ & Hg & Hi).
    split; [exact Hg|]. split; [exact Hi|].
    apply (processQueue_closed E _ (attempts_ask_nobody st)).
  - intros. now apply asks_existing_clients_silent.
  - intros. now apply asks_existing_clients_action.
  - intros st t e.
    apply (asks_existing_clients_trans
             _ (with_state (record_error (ValidDate t) (error_message e)) st)).
    + now apply asks_existing_clients_silent.
    + now apply asks_existing_clients_action.
  - intros. now apply asks_existing_clients_action.
Qed.

Lemma run_ops_ask_existing_clients (ops : list Op) (st : St W) :
  asks_existing_clients st (run_ops E ops st).
Proof.
  apply (run_ops_closed E _ cycles_ask_existing_clients (fun _ => True)).
  - intros newConfig st0 _.
    destruct (updateConfig_effect newConfig st0) as (_ & Hl & _ & _ & _ & _ & Hg & Hi & _).
    now apply asks_existing_clients_silent.
  - apply List.Forall_forall. intros o _. now destruct o.
Qed.

(** Without the client of [p], nothing is fetched from [p]. *)
Lemma asks_nothing_without_client (p : Provider) (st st' : St W) :
  client p (dmn st) = false ->
  asks_existing_clients st st' ->
  client p (dmn st') = false /\ appends (fun a => is_fetch_from p a = false) st st'.
Proof.
  intros Hp (Hg & Hi & Hl). split.
  - destruct p; cbn [client] in *; congruence.
  - eapply appends_impl; [|exact Hl]. cbn beta. intros a [_ Hc].
    destruct a as [|q limit| | | | | | |]; try reflexivity.
    specialize (Hc q limit eq_refl).
    destruct p, q; cbn [client is_fetch_from] in *; congruence.
Qed.

End FrameFacts.

(** While the daemon runs, the mail clients stay as [start] left them: no
    cycle and no configuration update creates, drops or initializes a
    client, and mail is requested only from providers whose client
    exists; so an [enableGmail] or [enableIcloud] in [updateConfig] does
    not change which providers are read. *)
Theorem providers_fixed_while_running {W : Type} (E : Env W)
    (st : St W) (ops : list Op) :
  asks_existing_clients st (run_ops E ops st).
Proof. apply run_ops_ask_existing_clients. Qed.

Section UnavailableFacts.

Context {W : Type} (E : Env W).

Lemma initialized_unavailable (p : Provider) (d : Daemon) (w : W) :
  unavailable E p d -> fst (fst (initialized E p d w)) = false.
Proof.
  intros [Hc|Hrej]; unfold initialized.
  - now rewrite Hc.
  - destruct (client p d); [|reflexivity].
    destruct (Hrej w) as (e & w' & ->). reflexivity.
Qed.

(** [start], whatever its outcome, keeps the clients that the startup
    steps left, and logs the startup calls, the actions of its first
    cycle and its closing event. *)
Lemma start_effect (st : St W) :
  _isRunning (dmn st) = false ->
  let st1 := exec (startup E) st in
  let st' := exec (start E) st in
  gmailClient (dmn st') = gmailClient (dmn st1)
  /\ icloudClient (dmn st') = icloudClient (dmn st1)
  /\ config (dmn st') = config (dmn st)
  /\ appends (fun a => is_startup_call a = false
                       /\ forall p limit, a = CallGetEmails p limit ->
                                          client p (dmn st1) = true)
             st1 st'.
Proof.
  intros Hstopped. cbv zeta.
  destruct (startup_effect E st) as (Hc & _).
  unfold exec at 1 3 5 8. rewrite (start_unfold E st Hstopped).
  unfold exec in Hc |- *.
  destruct (startup E st) as [[[]|e] st1]; cbn [snd] in *.
  - set (st2 := with_dmn (set_isRunning true) st1).
    destruct (processEmailsOnce_closed E _ (cycles_ask_existing_clients E) st2)
      as (Hg & Hi & Hl).
    destruct (processEmailsOnce_closed E _ (cycles_keep_lifecycle E) st2)
      as (Hcfg & _).
    fold (exec (processEmailsOnce E) st2).
    cbn [with_action with_dmn dmn log arm_timer set_intervalId gmailClient
         icloudClient config] .
    split; [exact Hg|]. split; [exact Hi|]. split; [now rewrite Hcfg|].
    apply (appends_trans _ st1 (exec (processEmailsOnce E) st2)); [exact Hl|].
    eexists [_]. split; [reflexivity|].
    constructor; [|constructor]. split; [reflexivity|discriminate].
  - cbn [with_action with_dmn dmn log set_isRunning gmailClient icloudClient config].
    split; [reflexivity|]. split; [reflexivity|]. split; [exact Hc|].
    eexists [_]. split; [reflexivity|].
    constructor; [|constructor]. split; [reflexivity|discriminate].
Qed.

End UnavailableFacts.

(** A provider whose client is missing when [start] is called, or whose
    [initialize] rejects, has no client once [start] is over, whether
    [start] succeeded or not; and no later cycle, timer tick or
    configuration update asks that provider for mail. *)
Theorem unavailable_provider_is_never_asked {W : Type} (E : Env W)
    (p : Provider) (st : St W) (ops : list Op) :
  _isRunning (dmn st) = false ->
  unavailable E p (dmn st) ->
  let later := run_ops E ops (exec (start E) st) in
  client p (dmn later) = false
  /\ appends (fun a => is_fetch_from p a = false) st later.
Proof.
  intros Hstopped Hp. cbv zeta.
  destruct (startup_effect E st)
    as (_ & _ & _ & _ & _ & _ & Hg & Hi & (l0 & Hl0 & Hcalls) & _).
  destruct (start_effect E st Hstopped) as (Hg' & Hi' & _ & Hl').
  set (st1 := exec (startup E) st) in *.
  assert (Hp1 : client p (dmn st1) = false).
  { destruct p; cbn [client]; [rewrite Hg|rewrite Hi];
      now apply initialized_unavailable. }
  assert (Hstarted : asks_existing_clients st1 (exec (start E) st))
    by (split; [exact Hg'|]; split; [exact Hi'|exact Hl']).
  destruct (asks_nothing_without_client p _ _ Hp1 Hstarted) as [Hp2 Hl2].
  destruct (asks_nothing_without_client p _ _ Hp2
              (run_ops_ask_existing_clients E ops (exec (start E) st)))
    as [Hp3 Hl3].
  split; [exact Hp3|].
  apply (appends_trans _ st st1).
  { exists (CallReadFile :: l0). split; [exact Hl0|].
    constructor; [reflexivity|].
    eapply List.Forall_impl; [|exact Hcalls].
    intros a Ha. destruct a; try discriminate; reflexivity. }
  exact (appends_trans _ _ _ _ Hl2 Hl3).
Qed.

(** iCloud is not configured; an override asks for it all the same.  The
    daemon starts on Gmail alone and never asks iCloud for mail. *)
Lemma unavailable_provider_is_never_asked_witness :
  result (start Scripted.env) GmailOnly.st = Ok tt
  /\ enableIcloud (config (dmn (exec (start Scripted.env) GmailOnly.st))) = true
  /\ client icloud
       (dmn (run_ops Scripted.env [Force; Tick]
               (exec (start Scripted.env) GmailOnly.st))) = false
  /\ appends (fun a => is_fetch_from icloud a = false) GmailOnly.st
       (run_ops Scripted.env [Force; Tick] (exec (start Scripted.env) GmailOnly.st)).
Proof.
  assert (Hstopped : _isRunning (dmn GmailOnly.st) = false) by reflexivity.
  assert (Hp : unavailable Scripted.env icloud (dmn GmailOnly.st))
    by (left; reflexivity).
  assert (Hok : result (start Scripted.env) GmailOnly.st = Ok tt)
    by (vm_compute; reflexivity).
  assert (Hcfg : enableIcloud (config (dmn (exec (start Scripted.env) GmailOnly.st)))
                 = true)
    by (vm_compute; reflexivity).
  destruct (unavailable_provider_is_never_asked
              Scripted.env icloud GmailOnly.st [Force; Tick] Hstopped Hp)
    as [Hc Hl].
  split; [exact Hok|]. split; [exact Hcfg|]. split; [exact Hc|exact Hl].
Defined.

(** ** The timer *)

Section TimerFacts.

Context {W : Type} (E : Env W).


End TimerFacts.



(** ** Starting *)

Section StartFacts2.

Context {W : Type} (E : Env W).




End StartFacts2.



(** Without a client [start] reads the state file, initializes nothing
    and gives up. *)
Lemma start_without_clients {W : Type} (E : Env W) (st : St W) :
  _isRunning (dmn st) = false ->
  gmailClient (dmn st) = false ->
  icloudClient (dmn st) = false ->
  let e := Error "No email clients available - check configuration" None in
  result (start E) st = Throw e
  /\ log (exec (start E) st) = log st ++ [CallReadFile; Emit (error_event e)]
  /\ _isRunning (dmn (exec (start E) st)) = false
  /\ intervalId (dmn (exec (start E) st)) = intervalId (dmn st).
Proof.
  intros Hstopped Hgc Hic. cbv zeta.
  unfold result, exec. rewrite (start_unfold E st Hstopped), startup_unfold.
  unfold exec. rewrite loadState_unfold. cbn [snd].
  rewrite initializeEmailClients_unfold. cbv zeta. unfold initialized.
  cbn [world dmn log].
  assert (Hclients : forall p,
             client p (match fst (readFile E (world st)) with
                       | ReadText (Some j) => set_state (stateFromSaved E j) (dmn st)
                       | _ => dmn st
                       end) = false).
  { intros p. destruct (fst (readFile E (world st))) as [|[j|]], p; cbn [client];
      cbn [set_state gmailClient icloudClient]; assumption. }
  rewrite !Hclients. cbn [fst snd negb andb app].
  cbn [with_action with_dmn log dmn set_isRunning _isRunning intervalId
       set_icloudClient set_gmailClient].
  split; [reflexivity|].
  split; [cbn [log app]; now rewrite ?app_nil_r, <- ?app_assoc|].
  split; [reflexivity|].
  destruct (fst (readFile E (world st))) as [|[j|]]; reflexivity.
Qed.

(** A daemon constructed from a configuration without a Gmail and
    without an iCloud section cannot be started, whatever its overrides
    say and whatever the environment does: [start] reads the state file,
    initializes nothing, and throws "No email clients available". *)
Theorem start_without_provider_fails {W : Type} (E : Env W)
    (configuration : Configuration) (daemonConfig : PartialDaemonConfig)
    (w : W) (l : list Action) :
  cfg_gmail configuration = false ->
  cfg_icloud configuration = false ->
  let st := mkSt w (constructor configuration daemonConfig) l in
  let e := Error "No email clients available - check configuration" None in
  result (start E) st = Throw e
  /\ log (exec (start E) st) = l ++ [CallReadFile; Emit (error_event e)]
  /\ _isRunning (dmn (exec (start E) st)) = false
  /\ intervalId (dmn (exec (start E) st)) = None.
Proof.
  intros Hg Hi. cbv zeta.
  apply (start_without_clients E (mkSt w (constructor configuration daemonConfig) l)).
  - reflexivity.
  - cbn. rewrite Hg. apply andb_false_r.
  - cbn. rewrite Hi. apply andb_false_r.
Qed.

(** Neither provider is configured, the override enables both: [start]
    fails. *)
Lemma start_without_provider_fails_witness :
  result (start Scripted.env)
         (mkSt OneSource.w
               (constructor NoProvider.configuration NoProvider.enable_both) [])
  = Throw (Error "No email clients available - check configuration" None)
  /\ enableGmail (config (constructor NoProvider.configuration NoProvider.enable_both))
     = true.
Proof.
  destruct (start_without_provider_fails
              Scripted.env NoProvider.configuration NoProvider.enable_both
              OneSource.w [] eq_refl eq_refl) as (H & _).
  split; [exact H|reflexivity].
Defined.

(** ** Lifting through [start] *)

Section StartInduction.

Context {W : Type} (E : Env W).
Variable R : St W -> St W -> Prop.
Hypothesis HR : closed_under_cycles E R.
Hypothesis Hrunning : forall st b, R st (with_dmn (set_isRunning b) st).
Hypothesis Harm : forall st, R st (with_dmn arm_timer st).
Hypothesis Hstarted : forall st, R st (with_action (Emit started) st).
Hypothesis Herror : forall st e, R st (with_action (Emit (error_event e)) st).


End StartInduction.

(** ** The timestamps *)

Section TimestampFacts.

Context {W : Type} (E : Env W).

Lemma valid_timestamps_stateToSave (s : DaemonState) :
  valid_timestamps s -> exists j, stateToSave E s = Some j.
Proof.
  intros [H1 H2]. unfold stateToSave.
  destruct (lastProcessedTimestamp s); [|destruct H1].
  destruct (lastErrorTimestamp s) as [[|]|]; [eauto|destruct H2|eauto].
Qed.

Lemma cycles_keep_valid_timestamps :
  closed_under_cycles E
    (fun st st' : St W =>
       valid_timestamps (state (dmn st)) -> valid_timestamps (state (dmn st'))).
Proof.
  split; try (intros; cbn; now auto).
  - intros st Hv.
    destruct (processQueue_closed E _ attempts_keep_timestamp st) as (H1 & H2 & _).
    unfold valid_timestamps in *. now rewrite H1, H2.
  - intros st t _ [_ Hv]. split; [exact I|exact Hv].
  - intros st t e [Hv _]. split; [exact Hv|exact I].
Qed.

End TimestampFacts.

Section SaveFacts.

Context {W : Type} (E : Env W).

(** What [saveState] adds to the trace. *)
Lemma new_log_saveState (st : St W) :
  new_log (saveState E) st
  = match stateToSave E (state (dmn st)) with
    | Some j => [CallWriteFile j]
    | None => []
    end.
Proof.
  unfold new_log, exec. rewrite saveState_unfold. cbn [snd].
  destruct (stateToSave E (state (dmn st))) as [j|]; cbn [log].
  - apply drop_length_app.
  - rewrite <- (app_nil_r (log st)) at 2. apply drop_length_app.
Qed.

End SaveFacts.

(** C7, as amended.  Every processing cycle that is entered (no cycle in
    flight) ends without throwing by running [saveState], on the success
    path, on the early return and on the failure path alike.  [saveState]
    writes the state file, as the last action of the cycle, exactly when
    both timestamps of the state are dates, and a cycle keeps them so;
    when one of them is an Invalid Date it writes nothing.  Before that,
    a cycle whose rule load fails records [lastErrorTimestamp] and
    [lastErrorMessage] and emits exactly one [processingError]; a cycle
    that fetched at least one new message sets [lastProcessedTimestamp]
    to the clock reading taken after the drain and emits exactly one
    [processingComplete] with the number of matched messages, the elapsed
    time and the queue size; the event comes before the write. *)
Theorem cycle_ends_by_persisting {W : Type} (E : Env W) (st : St W) :
  isProcessing (dmn st) = false ->
  let final := exec (processEmailsOnce E) st in
  let saved := new_log (saveState E) (cycle_before_save E st) in
  result (processEmailsOnce E) st = Ok tt
  /\ final = exec (saveState E) (cycle_before_save E st)
  /\ isProcessing (dmn final) = false
  /\ saved = match stateToSave E (state (dmn final)) with
             | Some j => [CallWriteFile j]
             | None => []
             end
  /\ (valid_timestamps (state (dmn st)) -> valid_timestamps (state (dmn final)))
  /\ (valid_timestamps (state (dmn final)) ->
      exists j, stateToSave E (state (dmn final)) = Some j
                /\ saved = [CallWriteFile j])
  /\ (~ valid_timestamps (state (dmn final)) -> saved = [])
  /\ (forall err,
        result (cycle_until_enqueued E) (cycle_entry E st) = Throw err ->
        (exists l,
            new_log (processEmailsOnce E) st
            = l ++ Emit (processingError err) :: saved
            /\ Forall housekeeping l)
        /\ lastErrorMessage (state (dmn final)) = Some (error_message err)
        /\ exists t, lastErrorTimestamp (state (dmn final)) = Some (ValidDate t))
  /\ (forall matched rs,
        result (cycle_until_enqueued E) (cycle_entry E st)
        = Ok (Some (matched, rs)) ->
        let drained :=
          exec (processQueue E) (exec (cycle_until_enqueued E) (cycle_entry E st)) in
        (exists l dt,
            new_log (processEmailsOnce E) st
            = l ++ Emit (processingComplete
                           (Z.of_nat (length matched)) dt
                           (Z.of_nat (length (processingQueue (dmn final)))))
                :: saved
            /\ Forall (fun a => is_cycle_event a = false) l)
        /\ lastProcessedTimestamp (state (dmn final))
           = ValidDate (fst (clock E (world drained)))).
Proof.
  intros Hidle final saved.
  destruct (cycle_end_effect E st Hidle)
    as (Hres & Hfinal & Hflag & _ & _ & Herr & Hok).
  fold final in Hfinal, Hflag, Herr, Hok. fold saved in Herr, Hok.
  assert (Hsaved : saved = match stateToSave E (state (dmn final)) with
                           | Some j => [CallWriteFile j]
                           | None => []
                           end).
  { unfold saved. rewrite new_log_saveState.
    now rewrite Hfinal, saveState_dmn. }
  split; [exact Hres|]. split; [exact Hfinal|]. split; [exact Hflag|].
  split; [exact Hsaved|]. split.
  { exact (processEmailsOnce_closed E _ (cycles_keep_valid_timestamps E) st). }
  split.
  { intros Hvalid. destruct (valid_timestamps_stateToSave E _ Hvalid) as [j Hj].
    exists j. split; [exact Hj|]. now rewrite Hsaved, Hj. }
  split.
  { intros Hinvalid. apply (stateToSave_none E) in Hinvalid.
    now rewrite Hsaved, Hinvalid. }
  split; [exact Herr|exact Hok].
Qed.

(** The cycle of the section 8 scenario closes with [processingComplete]
    and then writes the state; a cycle whose rule load fails closes with
    [processingError] and then writes the state. *)
Lemma cycle_ends_by_persisting_witness :
  (exists l dt,
      new_log (processEmailsOnce Scripted.env) Section8.st
      = l ++ Emit (processingComplete 1 dt 0)
          :: new_log (saveState Scripted.env)
                     (cycle_before_save Scripted.env Section8.st))
  /\ lastProcessedTimestamp
       (state (dmn (exec (processEmailsOnce Scripted.env) Section8.st)))
     = ValidDate 5001
  /\ (exists l,
        new_log (processEmailsOnce Scripted.env) QuietCycles.st_rules_fail
        = l ++ Emit (processingError (Error "vault not found" None))
            :: new_log (saveState Scripted.env)
                       (cycle_before_save Scripted.env QuietCycles.st_rules_fail)).
Proof.
  destruct (cycle_ends_by_persisting Scripted.env Section8.st eq_refl)
    as (_ & _ & _ & _ & _ & _ & _ & _ & Hok).
  destruct (Hok _ _ eq_refl) as ((l & dt & Hl & _) & Ht).
  split; [exists l, dt; exact Hl|].
  split; [exact Ht|].
  destruct (cycle_ends_by_persisting Scripted.env QuietCycles.st_rules_fail eq_refl)
    as (_ & _ & _ & _ & _ & _ & _ & Herr & _).
  destruct (Herr _ eq_refl) as ((l' & Hl' & _) & _).
  exists l'. exact Hl'.
Defined.


(** A daemon whose timestamps are dates (as after a start without a
    state file, or from a state file that the daemon wrote) keeps them so
    over any run of cycles and configuration updates; every cycle it then
    enters ends by writing the state file, and what it writes is the
    state the cycle ends with. *)
Theorem state_file_written_every_cycle {W : Type} (E : Env W)
    (st : St W) (ops : list Op) :
  valid_timestamps (state (dmn st)) ->
  isProcessing (dmn st) = false ->
  let later := run_ops E ops st in
  valid_timestamps (state (dmn later))
  /\ exists l j,
       new_log (processEmailsOnce E) later = l ++ [CallWriteFile j]
       /\ stateToSave E (state (dmn (exec (processEmailsOnce E) later))) = Some j.
Proof.
  intros Hvalid Hidle. cbv zeta.
  assert (Hlater : valid_timestamps (state (dmn (run_ops E ops st)))).
  { revert Hvalid.
    apply (run_ops_closed E _ (cycles_keep_valid_timestamps E) (fun _ => True)).
    - intros newConfig st0 _ Hv.
      destruct (updateConfig_effect newConfig st0) as (_ & _ & Hs & _).
      now rewrite Hs.
    - apply List.Forall_forall. intros o _. now destruct o. }
  split; [exact Hlater|].
  set (later := run_ops E ops st) in *.
  pose proof (run_ops_idle E ops st Hidle) as Hidle'. fold later in Hidle'.
  pose proof (cycle_before_save_closed E _ (cycles_keep_valid_timestamps E)
                                       later Hlater) as Hbefore.
  destruct (valid_timestamps_stateToSave E _ Hbefore) as (j & Hj).
  destruct (cycle_before_save_closed E _ (cycles_append E _ (fun a H => H)) later)
    as (l & Hl & _).
  exists l, j. unfold new_log, exec.
  rewrite (processEmailsOnce_saves E later Hidle'). cbn [snd].
  rewrite saveState_dmn, Hj. split; [|reflexivity].
  unfold exec. rewrite saveState_unfold, Hj. cbn [snd log].
  rewrite Hl, <- app_assoc. apply drop_length_app.
Qed.

(** The freshly constructed daemon of the section 8 scenario: after two
    forced cycles the next cycle ends with a write of the state. *)
Lemma state_file_written_every_cycle_witness :
  exists l j,
    new_log (processEmailsOnce Scripted.env)
            (run_ops Scripted.env [Force; Force] Section8.st)
    = l ++ [CallWriteFile j].
Proof.
  assert (Hvalid : valid_timestamps (state (dmn Section8.st))) by (split; exact I).
  assert (Hidle : isProcessing (dmn Section8.st) = false) by reflexivity.
  destruct (state_file_written_every_cycle Scripted.env Section8.st [Force; Force]
                                           Hvalid Hidle)
    as (_ & l & j & Hl & _).
  exists l, j. exact Hl.
Defined.

(** ** Recorded errors *)

Section ErrorFacts.

Context {W : Type} (E : Env W).

Lemma keeps_errors_refl (st : St W) : keeps_errors st st.
Proof. split; [|auto]. exists []. split; [now rewrite app_nil_r|auto]. Qed.

Lemma keeps_errors_trans (st1 st2 st3 : St W) :
  keeps_errors st1 st2 -> keeps_errors st2 st3 -> keeps_errors st1 st3.
Proof.
  intros [(l1 & Hl1 & He1) Hs1] [(l2 & Hl2 & He2) Hs2]. split; [|auto].
  exists (l1 ++ l2). split; [rewrite Hl2, Hl1; now rewrite app_assoc|].
  rewrite List.filter_app. intros Hnone.
  apply app_eq_nil in Hnone as [Hn1 Hn2].
  destruct (He1 Hn1) as [H1 H2]. destruct (He2 Hn2) as [H3 H4].
  split; congruence.
Qed.

Lemma keeps_errors_silent (st st' : St W) :
  log st' = log st ->
  lastErrorMessage (state (dmn st')) = lastErrorMessage (state (dmn st)) ->
  lastErrorTimestamp (state (dmn st')) = lastErrorTimestamp (state (dmn st)) ->
  keeps_errors st st'.
Proof.
  intros Hl Hm Ht. split; [|now rewrite Hm].
  exists []. split; [now rewrite app_nil_r|auto].
Qed.

Lemma keeps_errors_action (st : St W) (a : Action) :
  keeps_errors st (with_action a st).
Proof. split; [|auto]. exists [a]. split; [reflexivity|auto]. Qed.

Lemma attempts_keep_errors : closed_under_attempts (@keeps_errors W).
Proof.
  split; try (intros; now apply keeps_errors_silent);
    try (intros; now apply keeps_errors_action).
  - apply keeps_errors_trans.
  - intros st i rid rn c.
    apply (keeps_errors_trans _ (with_state count_reminder st)).
    + now apply keeps_errors_silent.
    + apply keeps_errors_action.
Qed.

Lemma cycles_keep_errors : closed_under_cycles E (@keeps_errors W).
Proof.
  split; try (intros; now apply keeps_errors_silent);
    try (intros; now apply keeps_errors_action).
  - apply keeps_errors_trans.
  - intros. apply (processQueue_closed E _ attempts_keep_errors).
  - intros st t e. split; [|discriminate].
    exists [Emit (processingError e)]. split; [reflexivity|discriminate].
Qed.

End ErrorFacts.

(** Over any run of cycles and configuration updates the error fields
    of the state, which [getStats] reports as [lastError], change only
    when a [processingError] event is emitted, and an error that was
    recorded is never cleared: it stays through every later cycle,
    successful or not. *)
Theorem recorded_error_is_never_cleared {W : Type} (E : Env W)
    (st : St W) (ops : list Op) :
  keeps_errors st (run_ops E ops st).
Proof.
  apply (run_ops_closed E _ (cycles_keep_errors E) (fun _ => True)).
  - intros newConfig st0 _.
    destruct (updateConfig_effect newConfig st0) as (_ & Hl & Hs & _).
    apply keeps_errors_silent; [exact Hl|now rewrite Hs|now rewrite Hs].
  - apply List.Forall_forall. intros o _. now destruct o.
Qed.

(** ** Cycles that fail, and cycles that find nothing *)

Section CycleOutcomeFacts.

Context {W : Type} (E : Env W).

(** The steps up to the enqueue loop throw exactly when the rule load
    does. *)
Lemma cycle_until_enqueued_outcome (st : St W) :
  match fst (loadRules E (world st)) with
  | Ok _ => exists r, result (cycle_until_enqueued E) st = Ok r
  | Throw e => result (cycle_until_enqueued E) st = Throw e
  end.
Proof.
  unfold result. rewrite cycle_until_enqueued_unfold. cbv zeta.
  destruct (loadRules E (world st)) as [[rs|ex] w1]; cbn [fst]; [|reflexivity].
  match goal with
  | |- context [fetchNewEmails E ?s] =>
    destruct (fetchNewEmails_spec E s) as (all & w2 & Hf); rewrite Hf
  end.
  destruct (length _ =? 0)%nat; cbn [fst]; eauto.
Qed.

(** The early return: nothing but the rule load and the fetch requests
    happened. *)
Lemma cycle_until_enqueued_none (st : St W) :
  result (cycle_until_enqueued E) st = Ok None ->
  dmn (exec (cycle_until_enqueued E) st) = dmn st
  /\ exists w1,
       log (exec (cycle_until_enqueued E) st)
       = log st ++ CallLoadRules
                   :: fetch_requests E (mkSt w1 (dmn st) (log st ++ [CallLoadRules])).
Proof.
  unfold result, exec. rewrite cycle_until_enqueued_unfold. cbv zeta.
  destruct (loadRules E (world st)) as [[rs|ex] w1]; cbn [fst snd]; [|discriminate].
  match goal with
  | |- context [fetchNewEmails E ?s] =>
    destruct (fetchNewEmails_spec E s) as (all & w2 & Hf); rewrite Hf
  end.
  destruct (length _ =? 0)%nat; cbn [fst snd dmn log]; [|discriminate].
  intros _. split; [reflexivity|]. exists w1. now rewrite <- app_assoc.
Qed.

Lemma housekeeping_not_error (a : Action) :
  housekeeping a -> is_processingError a = false.
Proof.
  intros [_ H]. destruct a as [| | | | | | | |ev]; try reflexivity.
  now destruct ev.
Qed.

Lemma attempts_report_no_error :
  closed_under_attempts (@appends W (fun a => is_processingError a = false)).
Proof. apply attempts_append; reflexivity. Qed.

Lemma set_isProcessing_idle (d : Daemon) :
  isProcessing d = false -> set_isProcessing false (set_isProcessing true d) = d.
Proof. destruct d. cbn. now intros ->. Qed.

End CycleOutcomeFacts.

(** Only the rule load can fail a cycle.  A cycle whose rule load
    succeeds emits no [processingError] and leaves the error fields of
    the state as they were, whatever the mail sources, the extractor and
    the sink do; a cycle whose rule load rejects with [err] emits
    [processingError err], once, and records the message of [err]. *)
Theorem only_rule_load_fails_a_cycle {W : Type} (E : Env W) (st : St W) :
  isProcessing (dmn st) = false ->
  let final := exec (processEmailsOnce E) st in
  let emitted := List.filter is_processingError (new_log (processEmailsOnce E) st) in
  (forall rs,
      fst (loadRules E (world (cycle_entry E st))) = Ok rs ->
      emitted = []
      /\ lastErrorMessage (state (dmn final)) = lastErrorMessage (state (dmn st))
      /\ lastErrorTimestamp (state (dmn final)) = lastErrorTimestamp (state (dmn st)))
  /\ (forall err,
        fst (loadRules E (world (cycle_entry E st))) = Throw err ->
        emitted = [Emit (processingError err)]
        /\ lastErrorMessage (state (dmn final)) = Some (error_message err)).
Proof.
  intros Hidle. cbv zeta.
  pose proof (cycle_until_enqueued_outcome E (cycle_entry E st)) as Hout.
  destruct (cycle_until_enqueued_effect E (cycle_entry E st))
    as (Hstate & _ & _ & (l1 & Hl1 & Hh1)).
  assert (Hl1' : Forall (fun a => is_processingError a = false) l1).
  { eapply List.Forall_impl; [|exact Hh1]. apply housekeeping_not_error. }
  assert (Hsave : forall s, exists l,
               log (exec (saveState E) s) = log s ++ l
               /\ Forall (fun a => is_processingError a = false) l).
  { intros s. destruct (saveState_log E s) as (l & Hl & Hh & _).
    exists l. split; [exact Hl|].
    eapply List.Forall_impl; [|exact Hh]. apply housekeeping_not_error. }
  assert (Hfinal : exec (processEmailsOnce E) st
                   = exec (saveState E) (cycle_before_save E st)).
  { unfold exec at 1. now rewrite (processEmailsOnce_saves E st Hidle). }
  unfold new_log. rewrite Hfinal, saveState_dmn. clear Hfinal.
  destruct (Hsave (cycle_before_save E st)) as (l3 & Hl3 & Hp3). rewrite Hl3.
  unfold cycle_before_save. unfold exec in Hl1, Hstate. unfold result in Hout.
  cbn [cycle_entry log dmn state set_isProcessing] in Hl1, Hstate.
  destruct (cycle_until_enqueued E (cycle_entry E st))
    as [[[[matched rs]|]|err] st1]; cbn [fst snd] in *.
  - split.
    + intros rs0 Hrs.
      destruct (processQueue_closed E _ attempts_report_no_error st1)
        as (l2 & Hl2 & Hp2).
      destruct (processQueue_closed E _ attempts_keep_timestamp st1)
        as (_ & Ht2 & Hm2).
      cbv zeta. destruct (clock E _) as [t w3]. destruct (clock E w3) as [t' w4].
      cbn [log dmn state set_state set_isProcessing set_lastProcessedTimestamp
           lastErrorMessage lastErrorTimestamp].
      rewrite Hl2, Hl1, <- !app_assoc, drop_length_app.
      split; [|split; congruence].
      apply filter_none.
      apply Forall_app. split; [exact Hl1'|].
      apply Forall_app. split; [exact Hp2|].
      apply Forall_app. split; [repeat constructor|exact Hp3].
    + intros err Herr. rewrite Herr in Hout. discriminate.
  - split.
    + intros rs0 Hrs. cbn [log dmn state set_isProcessing].
      rewrite Hl1, <- !app_assoc, drop_length_app.
      split; [|split; congruence].
      apply filter_none. apply Forall_app. now split.
    + intros err Herr. rewrite Herr in Hout. discriminate.
  - split.
    + intros rs0 Hrs. rewrite Hrs in Hout. destruct Hout as [r Hr]. discriminate.
    + intros err' Herr. rewrite Herr in Hout. injection Hout as <-.
      cbn [log dmn state set_state set_isProcessing record_error lastErrorMessage].
      rewrite Hl1, <- !app_assoc, drop_length_app.
      split; [|reflexivity].
      rewrite !List.filter_app.
      rewrite (filter_none _ _ Hl1'), (filter_none _ _ Hp3). reflexivity.
Qed.

(** A cycle whose rule load fails emits [processingError] and records
    the message; the cycle of the section 8 scenario does neither. *)
Lemma only_rule_load_fails_a_cycle_witness :
  List.filter is_processingError
    (new_log (processEmailsOnce Scripted.env) QuietCycles.st_rules_fail)
  = [Emit (processingError (Error "vault not found" None))]
  /\ List.filter is_processingError
       (new_log (processEmailsOnce Scripted.env) Section8.st) = [].
Proof.
  destruct (only_rule_load_fails_a_cycle Scripted.env QuietCycles.st_rules_fail
                                         eq_refl) as [_ Hfail].
  destruct (only_rule_load_fails_a_cycle Scripted.env Section8.st eq_refl)
    as [Hok _].
  destruct (Hfail (Error "vault not found" None) eq_refl) as [H1 _].
  destruct (Hok [Scripted.rule "r1"] eq_refl) as [H2 _].
  split; [exact H1|exact H2].
Defined.

(** A cycle whose fetch brings no new mail does not drain the queue: it
    leaves the whole daemon object as it was, so the items that wait for
    a retry are not attempted and [lastProcessedTimestamp] is not
    advanced; the cycle only loads the rules, asks the ready sources and
    writes the state file. *)
Theorem quiet_cycle_skips_the_drain {W : Type} (E : Env W) (st : St W) :
  isProcessing (dmn st) = false ->
  result (cycle_until_enqueued E) (cycle_entry E st) = Ok None ->
  let final := exec (processEmailsOnce E) st in
  dmn final = dmn st
  /\ processingQueue (dmn final) = processingQueue (dmn st)
  /\ Forall (fun a => is_progress a = true -> exists j, a = CallWriteFile j)
            (new_log (processEmailsOnce E) st).
Proof.
  intros Hidle Hnone. cbv zeta.
  destruct (cycle_until_enqueued_none E (cycle_entry E st) Hnone)
    as (Hd & w1 & Hl).
  assert (Hfinal : dmn (exec (processEmailsOnce E) st) = dmn st).
  { unfold exec at 1. rewrite (processEmailsOnce_saves E st Hidle). cbn [snd].
    rewrite saveState_dmn. unfold cycle_before_save.
    unfold result, exec in *.
    destruct (cycle_until_enqueued E (cycle_entry E st))
      as [[[[matched rs]|]|err] st1]; cbn [fst snd] in *; try discriminate.
    cbn [dmn]. rewrite Hd. cbn [cycle_entry dmn].
    now apply set_isProcessing_idle. }
  split; [exact Hfinal|]. split; [now rewrite Hfinal|].
  unfold new_log, exec. rewrite (processEmailsOnce_saves E st Hidle). cbn [snd].
  destruct (saveState_log E (cycle_before_save E st)) as (l3 & Hl3 & _ & _).
  assert (Hl3' : Forall (fun a => is_progress a = true -> exists j, a = CallWriteFile j) l3).
  { unfold exec in Hl3. rewrite saveState_unfold in Hl3. cbn [snd] in Hl3.
    destruct (stateToSave E _) as [j|]; cbn [log] in Hl3.
    - apply app_inv_head in Hl3 as <-. repeat constructor. eauto.
    - rewrite <- (app_nil_r (log _)) in Hl3 at 1.
      apply app_inv_head in Hl3 as <-. constructor. }
  rewrite Hl3. unfold cycle_before_save. unfold result, exec in *.
  destruct (cycle_until_enqueued E (cycle_entry E st))
    as [[[[matched rs]|]|err] st1]; cbn [fst snd] in *; try discriminate.
  cbn [log]. rewrite Hl. cbn [cycle_entry log].
  rewrite <- !app_assoc, drop_length_app.
  constructor; [discriminate|].
  apply Forall_app. split; [|exact Hl3'].
  unfold fetch_requests.
  destruct (gmail_ready E _), (icloud_ready E _); repeat constructor; discriminate.
Qed.

(** The daemon of the retry scenario has an item queued; Gmail has
    nothing new: the forced cycle leaves the item where it is. *)
Lemma quiet_cycle_skips_the_drain_witness :
  queued_ids (dmn (exec (processEmailsOnce Stubborn.env) Stubborn.st))
  = ["test-email-1"]
  /\ dmn (exec (processEmailsOnce Stubborn.env) Stubborn.st) = dmn Stubborn.st.
Proof.
  assert (Hnone : result (cycle_until_enqueued Stubborn.env)
                         (cycle_entry Stubborn.env Stubborn.st) = Ok None)
    by (vm_compute; reflexivity).
  destruct (quiet_cycle_skips_the_drain Stubborn.env Stubborn.st eq_refl Hnone)
    as (Hd & _).
  split; [|exact Hd]. rewrite Hd. reflexivity.
Defined.

(** ** A state file without a usable timestamp *)

Section StallFacts.

Context {W : Type} (E : Env W).






End StallFacts.



(** ** The attempts of the queued items *)

Section AttemptsFacts.

Context {W : Type} (E : Env W).







End AttemptsFacts.



(** ** What a drain does with its items *)

Section AccountFacts.

Context {W : Type} (E : Env W).

Lemma sink_actions_filtered (i : string) (l : list Action) :
  Forall (sink_action i) l ->
  List.filter is_extraction l = [] /\ List.filter is_processingFailed l = [].
Proof.
  intros H. split; apply filter_none; (eapply List.Forall_impl; [|exact H]);
    intros a Ha; destruct a as [| | | | | | | |ev]; try reflexivity;
    try destruct Ha; destruct ev; try reflexivity; destruct Ha.
Qed.

Lemma processOne_accounts (item : ProcessingQueueItem) (st : St W) :
  let st' := exec (processOne E item) st in
  exists l q',
    log st' = log st ++ l
    /\ processingQueue (dmn st') = processingQueue (dmn st) ++ q'
    /\ List.filter is_extraction l
       = [CallProcessMultipleEmails (email item) (rules item)]
    /\ (totalEmailsProcessed (state (dmn st')) - totalEmailsProcessed (state (dmn st)))
       + Z.of_nat (length q')
       + Z.of_nat (length (List.filter is_processingFailed l)) = 1.
Proof.
  cbv zeta. unfold exec. rewrite processOne_unfold.
  destruct (processQueueItem_frame E item st) as (r & w' & l & Heq & Hl & _).
  rewrite Heq. destruct (sink_actions_filtered _ _ Hl) as [Hx Hf].
  destruct r as [[]|ex]; cbn [snd world dmn log].
  - exists (CallProcessMultipleEmails (email item) (rules item) :: l), [].
    split; [reflexivity|]. split; [now rewrite app_nil_r|].
    cbn [List.filter is_extraction is_processingFailed]. rewrite Hx, Hf.
    split; [reflexivity|]. cbn. lia.
  - destruct (clock E w') as [t w'']. cbv zeta.
    cbn [attempts failed_item dmn log config add_reminders set_state].
    destruct (attempts item + 1 <? retryAttempts (config (dmn st)));
      cbn [snd dmn log].
    + eexists (CallProcessMultipleEmails (email item) (rules item) :: l), [_].
      split; [reflexivity|]. split; [reflexivity|].
      cbn [List.filter is_extraction is_processingFailed]. rewrite Hx, Hf.
      split; [reflexivity|]. cbn. lia.
    + exists ((CallProcessMultipleEmails (email item) (rules item) :: l)
              ++ [Emit (processingFailed (id (email item)) (error_message ex)
                                         (attempts item + 1))]), [].
      split; [now rewrite <- app_assoc|]. split; [now rewrite app_nil_r|].
      rewrite !List.filter_app.
      cbn [List.filter is_extraction is_processingFailed]. rewrite Hx, Hf.
      split; [reflexivity|]. cbn. lia.
Qed.

Lemma drain_accounts (items : list ProcessingQueueItem) (st : St W) :
  let st' := fold_left (fun st it => exec (processOne E it) st) items st in
  exists l q',
    log st' = log st ++ l
    /\ processingQueue (dmn st') = processingQueue (dmn st) ++ q'
    /\ List.filter is_extraction l
       = map (fun it => CallProcessMultipleEmails (email it) (rules it)) items
    /\ (totalEmailsProcessed (state (dmn st')) - totalEmailsProcessed (state (dmn st)))
       + Z.of_nat (length q')
       + Z.of_nat (length (List.filter is_processingFailed l))
       = Z.of_nat (length items).
Proof.
  revert st. induction items as [|item items IH]; intros st; cbv zeta.
  - exists [], []. cbn. rewrite !app_nil_r. repeat split; lia.
  - cbn [fold_left].
    destruct (processOne_accounts item st) as (l1 & q1 & Hl1 & Hq1 & Hx1 & Hn1).
    destruct (IH (exec (processOne E item) st))
      as (l2 & q2 & Hl2 & Hq2 & Hx2 & Hn2).
    exists (l1 ++ l2), (q1 ++ q2).
    split; [rewrite Hl2, Hl1; now rewrite app_assoc|].
    split; [rewrite Hq2, Hq1; now rewrite app_assoc|].
    rewrite !List.filter_app, Hx1, Hx2. split; [reflexivity|].
    rewrite !length_app. cbn [length]. lia.
Qed.

End AccountFacts.

(** A drain attempts every item of the queue exactly once, in queue
    order, and accounts for each of them in exactly one way: the item
    is counted in [totalEmailsProcessed], or it is back on the queue, or
    it is reported by a [processingFailed] event. *)
Theorem drain_accounts_for_every_item {W : Type} (E : Env W) (st : St W) :
  let st' := exec (processQueue E) st in
  let l := new_log (processQueue E) st in
  List.filter is_extraction l
  = map (fun it => CallProcessMultipleEmails (email it) (rules it))
        (processingQueue (dmn st))
  /\ (totalEmailsProcessed (state (dmn st')) - totalEmailsProcessed (state (dmn st)))
     + Z.of_nat (length (processingQueue (dmn st')))
     + Z.of_nat (length (List.filter is_processingFailed l))
     = Z.of_nat (length (processingQueue (dmn st))).
Proof.
  cbv zeta. unfold new_log, exec. rewrite processQueue_unfold. cbn [snd].
  match goal with
  | |- context [fold_left _ ?items ?s] =>
    destruct (drain_accounts E items s) as (l & q' & Hl & Hq & Hx & Hn)
  end.
  cbn [dmn log state processingQueue set_processingQueue set_state app] in *.
  rewrite Hl, Hq, drop_length_app. split; [exact Hx|exact Hn].
Qed.

(** ** From the fetch to the queue *)

Section EnqueueFacts2.

Context {W : Type} (E : Env W).

Lemma filter_all {A} (f : A -> bool) (l : list A) :
  Forall (fun a => f a = true) l -> List.filter f l = l.
Proof.
  induction 1 as [|a l Ha _ IH]; cbn; [reflexivity|]. now rewrite Ha, IH.
Qed.

Lemma is_new_spec (s : DaemonState) (e : EmailData) :
  is_new s e = true <->
  (id e ∉ processedEmailIds s) /\ date_gt (date e) (lastProcessedTimestamp s) = true.
Proof.
  unfold is_new, has. rewrite andb_true_iff, negb_true_iff, bool_decide_eq_false.
  reflexivity.
Qed.

End EnqueueFacts2.

(** In a cycle that fetched new mail, the matched mails are exactly the
    mails that are enqueued, in fetch order and each with the rule list
    the cycle loaded: every one of them is dated after
    [lastProcessedTimestamp] and has an id outside [processedEmailIds],
    so the test of the enqueue loop never fails within a cycle, and the
    [emailsProcessed] figure of [processingComplete], the number of
    matched mails, is the number of items the cycle enqueued. *)
Theorem cycle_enqueues_every_matched_mail {W : Type} (E : Env W) (st : St W)
    (matched : list EmailData) (rs : list EmailRule) :
  result (cycle_until_enqueued E) st = Ok (Some (matched, rs)) ->
  let st1 := exec (cycle_until_enqueued E) st in
  fst (loadRules E (world st)) = Ok rs
  /\ processingQueue (dmn st1)
     = processingQueue (dmn st) ++ map (fun e => new_item e rs) matched
  /\ Forall (fun e =>
               (id e ∉ processedEmailIds (state (dmn st)))
               /\ date_gt (date e) (lastProcessedTimestamp (state (dmn st))) = true
               /\ has_matchedRules e = true)
            matched.
Proof.
  cbv zeta. unfold result, exec. rewrite cycle_until_enqueued_unfold. cbv zeta.
  destruct (loadRules E (world st)) as [[rs0|ex] w1]; cbn [fst snd world dmn log];
    [|discriminate].
  match goal with
  | |- context [fetchNewEmails E ?s] =>
    destruct (fetchNewEmails_spec E s) as (all & w2 & Hf); rewrite Hf
  end.
  cbn [dmn].
  destruct (length _ =? 0)%nat; cbn [fst snd]; [discriminate|].
  intros [= <- <-].
  assert (Hnew : Forall (fun e => is_new (state (dmn st)) e = true)
                        (List.filter has_matchedRules
                           (filterEmails E (List.filter (is_new (state (dmn st))) all)
                                         rs0))).
  { apply List.Forall_forall. intros e He. apply filter_In in He as [He _].
    refine (proj1 (List.Forall_forall _ _)
                  (filterEmails_keeps_new E _ _ rs0 _) e He).
    apply List.Forall_forall. intros e' He'. now apply filter_In in He'. }
  split; [reflexivity|]. split.
  - unfold exec. rewrite enqueueMatched_spec.
    cbn [snd dmn processingQueue set_processingQueue].
    unfold unprocessed. rewrite filter_all; [reflexivity|].
    eapply List.Forall_impl; [|exact Hnew]. cbn beta. intros e He.
    unfold is_new in He. now apply andb_true_iff in He as [He _].
  - apply List.Forall_forall. intros e He.
    pose proof (proj1 (List.Forall_forall _ _) Hnew e He) as Hn.
    apply is_new_spec in Hn as [Hid Hdate].
    apply filter_In in He as [_ Hm]. auto.
Qed.

(** The cycle of the section 8 scenario enqueues the one mail that rule
    "r1" matched. *)
Lemma cycle_enqueues_every_matched_mail_witness :
  queued_ids (dmn (exec (cycle_until_enqueued Scripted.env) Section8.st)) = ["m1"].
Proof.
  assert (Hres : result (cycle_until_enqueued Scripted.env) Section8.st
                 = Ok (Some ([Section8.m1], Section8.rs)))
    by (vm_compute; reflexivity).
  destruct (cycle_enqueues_every_matched_mail
              Scripted.env Section8.st [Section8.m1] Section8.rs Hres)
    as (_ & Hq & _).
  unfold queued_ids. rewrite Hq. reflexivity.
Defined.

(** [fetchNewEmails] never throws.  A ready source whose [getEmails]
    rejects counts as having returned no mail; the other source is asked
    all the same, after it; and the result is what is new among the
    mails returned, those of Gmail first. *)
Theorem fetch_tolerates_failing_sources {W : Type} (E : Env W) (st : St W) :
  let limit := maxEmailsPerScan (config (dmn st)) / 2 in
  let g := gmail_getEmails E limit (world st) in
  let w1 := if gmail_ready E st then snd g else world st in
  let i := icloud_getEmails E limit w1 in
  fetchNewEmails E st =
  (Ok (List.filter (is_new (state (dmn st)))
         ((if gmail_ready E st then answer_or_empty (fst g) else [])
          ++ (if icloud_ready E st then answer_or_empty (fst i) else []))),
   mkSt (if icloud_ready E st then snd i else w1)
        (dmn st) (log st ++ fetch_requests E st)).
Proof.
  cbv zeta.
  unfold fetchNewEmails, fetch_requests, gmail_ready, icloud_ready, is_new.
  destruct st as [w d l]. run_monad.
  destruct (gmailClient d && gmail_isReady E w) eqn:Hg;
    destruct (icloudClient d && icloud_isReady E w) eqn:Hi;
    run_monad;
    repeat (match goal with
            | |- context [gmail_getEmails E ?n ?w] =>
              destruct (gmail_getEmails E n w) as [[?|?] ?]
            | |- context [icloud_getEmails E ?n ?w] =>
              destruct (icloud_getEmails E n w) as [[?|?] ?]
            end; run_monad);
    cbn [answer_or_empty];
    rewrite <- ?app_assoc, ?app_nil_r; cbn [app];
    reflexivity.
Qed.

(** ** Stopping and restarting *)

Section StopFacts.

Context {W : Type} (E : Env W).

Lemma stop_unfold (st : St W) :
  stop E st =
  if negb (_isRunning (dmn st)) then (Ok NotRunning, st)
  else
    let halted :=
      with_dmn (fun d => match intervalId d with
                         | Some _ => set_intervalId None (set_isRunning false d)
                         | None => set_isRunning false d
                         end) st in
    if isProcessing (dmn st) then (Ok Waiting, halted)
    else (Ok Stopped, with_action (Emit stopped) (exec (saveState E) halted)).
Proof.
  unfold stop. run_monad. destruct (_isRunning (dmn st)); cbn [negb]; [|reflexivity].
  unfold with_dmn, with_action.
  destruct (intervalId (dmn st)) eqn:Hid; run_monad;
    cbn [isProcessing set_isRunning set_intervalId];
    destruct (isProcessing (dmn st)) eqn:Hp; try reflexivity;
    rewrite saveState_unfold; reflexivity.
Qed.

End StopFacts.

(** [stop] on a running daemon that has no cycle in flight: the daemon
    stops running, its timer is cleared, [saveState] is run and [stopped]
    is emitted last.  [saveState] writes the state to the state file when
    the state can be serialized, that is when its timestamps are dates;
    with an Invalid Date among them nothing is written and [stopped] is
    the only action.  The queue is neither drained nor saved: the items
    that wait for a retry stay in memory only.  After that
    [forceProcessing] throws "Daemon is not running" and changes nothing,
    and a second [stop] does nothing. *)
Theorem stop_halts_the_daemon {W : Type} (E : Env W) (st : St W) :
  _isRunning (dmn st) = true ->
  isProcessing (dmn st) = false ->
  let st' := exec (stop E) st in
  result (stop E) st = Ok Stopped
  /\ _isRunning (dmn st') = false
  /\ intervalId (dmn st') = None
  /\ state (dmn st') = state (dmn st)
  /\ config (dmn st') = config (dmn st)
  /\ processingQueue (dmn st') = processingQueue (dmn st)
  /\ new_log (stop E) st
     = match stateToSave E (state (dmn st)) with
       | Some j => [CallWriteFile j; Emit stopped]
       | None => [Emit stopped]
       end
  /\ forceProcessing E st' = (Throw (Error "Daemon is not running" None), st')
  /\ stop E st' = (Ok NotRunning, st')
  /\ (valid_timestamps (state (dmn st)) ->
      exists j, new_log (stop E) st = [CallWriteFile j; Emit stopped])
  /\ (~ valid_timestamps (state (dmn st)) -> new_log (stop E) st = [Emit stopped]).
Proof.
  intros Hrun Hidle. cbv zeta.
  set (halted := with_dmn (fun d => match intervalId d with
                                    | Some _ => set_intervalId None
                                                  (set_isRunning false d)
                                    | None => set_isRunning false d
                                    end) st).
  assert (Hstop : stop E st =
                  (Ok Stopped,
                   with_action (Emit stopped) (exec (saveState E) halted))).
  { rewrite stop_unfold, Hrun, Hidle. reflexivity. }
  assert (Hexec : exec (stop E) st
                  = with_action (Emit stopped) (exec (saveState E) halted)).
  { unfold exec at 1. now rewrite Hstop. }
  assert (Hh : _isRunning (dmn halted) = false /\ intervalId (dmn halted) = None
               /\ state (dmn halted) = state (dmn st)
               /\ config (dmn halted) = config (dmn st)
               /\ processingQueue (dmn halted) = processingQueue (dmn st)
               /\ log halted = log st).
  { unfold halted, with_dmn. cbn [dmn log].
    destruct (intervalId (dmn st)) eqn:Hid; cbn; auto 10. }
  destruct Hh as (H1 & H2 & H3 & H4 & H5 & H6).
  assert (Hd : dmn (with_action (Emit stopped) (exec (saveState E) halted))
               = dmn halted).
  { unfold with_action. cbn [dmn]. apply saveState_dmn. }
  unfold new_log, result. rewrite Hexec, Hstop, Hd. cbn [fst].
  split; [reflexivity|]. split; [exact H1|]. split; [exact H2|].
  split; [exact H3|]. split; [exact H4|]. split; [exact H5|].
  assert (Hlog : drop (length (log st))
                      (log (with_action (Emit stopped) (exec (saveState E) halted)))
                 = match stateToSave E (state (dmn st)) with
                   | Some j => [CallWriteFile j; Emit stopped]
                   | None => [Emit stopped]
                   end).
  { unfold with_action, exec. rewrite saveState_unfold. cbn [snd log]. rewrite H3.
    destruct (stateToSave E (state (dmn st))) as [j|]; cbn [log]; rewrite H6.
    - rewrite <- app_assoc. apply drop_length_app.
    - apply drop_length_app. }
  split; [exact Hlog|].
  split; [unfold forceProcessing, bind, get_dmn; rewrite Hd, H1; reflexivity|].
  split; [rewrite stop_unfold, Hd, H1; reflexivity|].
  rewrite Hlog. split.
  - intros Hvalid. destruct (valid_timestamps_stateToSave E _ Hvalid) as [j ->].
    now exists j.
  - intros Hinvalid. apply (stateToSave_none E) in Hinvalid. now rewrite Hinvalid.
Qed.

(** The daemon of the re-fetch scenario is stopped after its first
    cycle: "m1" is still queued, and a forced cycle is refused. *)
Lemma stop_halts_the_daemon_witness :
  result (stop Disk.env) Disk.st = Ok Stopped
  /\ queued_ids (dmn (exec (stop Disk.env) Disk.st)) = ["m1"]
  /\ result (forceProcessing Disk.env) (exec (stop Disk.env) Disk.st)
     = Throw (Error "Daemon is not running" None).
Proof.
  assert (Hq : queued_ids (dmn Disk.st) = ["m1"]) by (vm_compute; reflexivity).
  assert (Hrun : _isRunning (dmn Disk.st) = true) by (vm_compute; reflexivity).
  assert (Hidle : isProcessing (dmn Disk.st) = false) by (vm_compute; reflexivity).
  destruct (stop_halts_the_daemon Disk.env Disk.st Hrun Hidle)
    as (H1 & _ & _ & _ & _ & H6 & _ & H8 & _).
  split; [exact H1|]. split.
  - unfold queued_ids in *. now rewrite H6.
  - unfold result. now rewrite H8.
Defined.

(** Stopping a daemon and starting a newly constructed one restores the
    persisted state, when the timestamps are dates and the file system
    keeps what was written: the new daemon loads the ids, the counters,
    the timestamps and the recorded error that the old one had.  The
    queue is not part of the state file: the new daemon starts with an
    empty queue, whatever waited for a retry in the old one. *)
Theorem restart_restores_state_not_queue {W : Type} (E : Env W) (st : St W)
    (configuration : Configuration) (daemonConfig : PartialDaemonConfig) :
  iso_codec E ->
  valid_timestamps (state (dmn st)) ->
  _isRunning (dmn st) = true ->
  isProcessing (dmn st) = false ->
  keeps_written E (world st) ->
  let again := reconstructed configuration daemonConfig (exec (stop E) st) in
  state (dmn (exec (loadState E) again)) = state (dmn st)
  /\ state (dmn (exec (startup E) again)) = state (dmn st)
  /\ processingQueue (dmn (exec (startup E) again)) = [].
Proof.
  intros Hcodec Hvalid Hrun Hidle Hfs. cbv zeta.
  destruct (stateFromSaved_stateToSave E _ Hcodec Hvalid) as (j & Hj & Hback).
  destruct (Hfs j) as [_ Hread].
  assert (Hworld : world (exec (stop E) st) = snd (writeFile E j (world st))).
  { unfold exec. rewrite stop_unfold, Hrun, Hidle. cbn [negb snd].
    unfold exec. rewrite saveState_unfold.
    cbn [with_action with_dmn snd world dmn log].
    replace (state (match intervalId (dmn st) with
                    | Some _ => set_intervalId None (set_isRunning false (dmn st))
                    | None => set_isRunning false (dmn st)
                    end)) with (state (dmn st))
      by (now destruct (intervalId (dmn st))).
    rewrite Hj. reflexivity. }
  set (again := reconstructed configuration daemonConfig (exec (stop E) st)).
  assert (Hload : state (dmn (exec (loadState E) again)) = state (dmn st)).
  { unfold exec at 1. rewrite loadState_unfold. cbn [snd dmn].
    unfold again at 1. cbn [reconstructed world]. rewrite Hworld, Hread.
    cbn [state set_state]. exact Hback. }
  destruct (startup_effect E again) as (_ & _ & _ & Hq & _ & Hs & _).
  split; [exact Hload|]. split; [now rewrite Hs|].
  rewrite Hq. reflexivity.
Qed.

(** The daemon of the re-fetch scenario is stopped with "m1" waiting for
    a retry, and a new daemon is constructed: it loads the state of the
    old one, and its queue is empty. *)
Lemma restart_restores_state_not_queue_witness :
  queued_ids (dmn Disk.st) = ["m1"]
  /\ state (dmn (exec (startup Disk.env)
                      (reconstructed Scripted.configuration no_override
                                     (exec (stop Disk.env) Disk.st))))
     = state (dmn Disk.st)
  /\ processingQueue
       (dmn (exec (startup Disk.env)
                  (reconstructed Scripted.configuration no_override
                                 (exec (stop Disk.env) Disk.st)))) = [].
Proof.
  assert (Hq : queued_ids (dmn Disk.st) = ["m1"]) by (vm_compute; reflexivity).
  assert (Hcodec : iso_codec Disk.env).
  { destruct scripted_iso_codec as [H1 H2]. split; [exact H1|exact H2]. }
  assert (Hvalid : valid_timestamps (state (dmn Disk.st)))
    by (split; vm_compute; exact I).
  assert (Hrun : _isRunning (dmn Disk.st) = true) by (vm_compute; reflexivity).
  assert (Hidle : isProcessing (dmn Disk.st) = false) by (vm_compute; reflexivity).
  assert (Hfs : keeps_written Disk.env (world Disk.st))
    by (intros j; split; reflexivity).
  destruct (restart_restores_state_not_queue
              Disk.env Disk.st Scripted.configuration no_override
              Hcodec Hvalid Hrun Hidle Hfs) as (_ & H2 & H3).
  split; [exact Hq|]. split; [exact H2|exact H3].
Defined.

(** ** Escaping text for AppleScript *)

Section EscapeFacts.

Import AppleReminders.

Lemma append_cons (x : ascii) (a b : string) :
  (String x a ++ b)%string = String x (a ++ b)%string.
Proof. reflexivity. Qed.

Lemma append_nil (b : string) : (EmptyString ++ b)%string = b.
Proof. reflexivity. Qed.

Lemma string_app_assoc (a b c : string) :
  ((a ++ b) ++ c)%string = (a ++ (b ++ c))%string.
Proof.
  induction a as [|x a IH]; [reflexivity|].
  now rewrite !append_cons, IH.
Qed.

Lemma replace_all_app (c : ascii) (b s t : string) :
  replace_all c b (s ++ t)%string = (replace_all c b s ++ replace_all c b t)%string.
Proof.
  induction s as [|a s IH]; [reflexivity|].
  rewrite append_cons. cbn [replace_all]. rewrite IH.
  destruct (Ascii.eqb a c); [|reflexivity].
  symmetry. apply string_app_assoc.
Qed.

Lemma escape_cons (a : ascii) (s : string) :
  escapeAppleScriptString (String a s) = (code a ++ escapeAppleScriptString s)%string.
Proof.
  unfold escapeAppleScriptString, code.
  cbn [replace_all].
  destruct (Ascii.eqb a backslash) eqn:H1.
  { rewrite !replace_all_app. reflexivity. }
  cbn [replace_all].
  destruct (Ascii.eqb a quote) eqn:H2.
  { rewrite !replace_all_app. reflexivity. }
  cbn [replace_all].
  destruct (Ascii.eqb a newline) eqn:H3.
  { rewrite !replace_all_app. reflexivity. }
  cbn [replace_all].
  destruct (Ascii.eqb a carriage_return) eqn:H4.
  { rewrite !replace_all_app. reflexivity. }
  cbn [replace_all].
  destruct (Ascii.eqb a tab) eqn:H5; reflexivity.
Qed.

(** The five passes do not interfere: together they translate each
    character on its own. *)
Lemma escape_translate (s : string) : escapeAppleScriptString s = translate s.
Proof.
  induction s as [|a s IH]; [reflexivity|].
  rewrite escape_cons, IH. reflexivity.
Qed.

Lemma code_cases (a : ascii) :
  (code a = escaped backslash /\ a = backslash)
  \/ (code a = escaped quote /\ a = quote)
  \/ (code a = escaped "n" /\ a = newline)
  \/ (code a = escaped "r" /\ a = carriage_return)
  \/ (code a = escaped "t" /\ a = tab)
  \/ (code a = String a EmptyString /\ a <> backslash /\ a <> quote
      /\ a <> newline /\ a <> carriage_return /\ a <> tab).
Proof.
  unfold code.
  destruct (Ascii.eqb_spec a backslash); [auto|].
  destruct (Ascii.eqb_spec a quote); [auto 10|].
  destruct (Ascii.eqb_spec a newline); [auto 10|].
  destruct (Ascii.eqb_spec a carriage_return); [auto 10|].
  destruct (Ascii.eqb_spec a tab); [auto 10|].
  do 5 right. auto 10.
Qed.

Lemma translate_injective (s1 : string) :
  forall s2, translate s1 = translate s2 -> s1 = s2.
Proof.
  induction s1 as [|a s1 IH]; intros [|b s2] H.
  - reflexivity.
  - exfalso. cbn [translate] in H.
    destruct (code_cases b) as [[E _]|[[E _]|[[E _]|[[E _]|[[E _]|[E _]]]]]];
      rewrite E in H; discriminate H.
  - exfalso. cbn [translate] in H.
    destruct (code_cases a) as [[E _]|[[E _]|[[E _]|[[E _]|[[E _]|[E _]]]]]];
      rewrite E in H; discriminate H.
  - cbn [translate] in H.
    destruct (code_cases a) as [[Ea Ha]|[[Ea Ha]|[[Ea Ha]|[[Ea Ha]|[[Ea Ha]|[Ea Ha]]]]]];
    destruct (code_cases b) as [[Eb Hb]|[[Eb Hb]|[[Eb Hb]|[[Eb Hb]|[[Eb Hb]|[Eb Hb]]]]]];
    rewrite Ea, Eb in H; unfold escaped in H; rewrite ?append_cons, ?append_nil in H.
    all: inversion H; subst.
    all: try (f_equal; apply IH; assumption).
    all: try (exfalso; intuition congruence).
Qed.

Lemma translate_literal_body (s : string) : literal_body false (translate s) = true.
Proof.
  induction s as [|a s IH]; [reflexivity|].
  cbn [translate].
  destruct (code_cases a) as [[E _]|[[E _]|[[E _]|[[E _]|[[E _]|[E Ha]]]]]];
    rewrite E; unfold escaped; rewrite ?append_cons, ?append_nil;
    cbn [literal_body]; try (rewrite Ascii.eqb_refl; exact IH).
  destruct Ha as (Hb & Hq & _).
  apply Ascii.eqb_neq in Hb, Hq. rewrite Hb, Hq. exact IH.
Qed.

Lemma occurrences_app (c : ascii) (s t : string) :
  occurrences c (s ++ t)%string = (occurrences c s + occurrences c t)%nat.
Proof.
  induction s as [|a s IH]; [reflexivity|].
  rewrite append_cons. cbn [occurrences]. rewrite IH. lia.
Qed.

Lemma translate_without (c : ascii) (s : string) :
  (forall a, occurrences c (code a) = 0%nat) ->
  occurrences c (translate s) = 0%nat.
Proof.
  intros H. induction s as [|a s IH]; [reflexivity|].
  cbn [translate]. rewrite occurrences_app, H, IH. reflexivity.
Qed.

Lemma translate_keeps (c : ascii) (s : string) :
  (forall a, occurrences c (code a) = if Ascii.eqb a c then 1%nat else 0%nat) ->
  occurrences c (translate s) = occurrences c s.
Proof.
  intros H. induction s as [|a s IH]; [reflexivity|].
  cbn [translate occurrences]. rewrite occurrences_app, H, IH. reflexivity.
Qed.

Lemma code_without (c : ascii) :
  In c [newline; carriage_return; tab] ->
  forall a, occurrences c (code a) = 0%nat.
Proof.
  intros Hc a.
  destruct (code_cases a) as [[E _]|[[E _]|[[E _]|[[E _]|[[E _]|[E Ha]]]]]];
    rewrite E.
  1-5: destruct Hc as [<-|[<-|[<-|[]]]]; reflexivity.
  destruct Ha as (_ & _ & Hn & Hr & Ht). cbn [occurrences].
  destruct (Ascii.eqb_spec a c) as [->|_]; [|reflexivity].
  exfalso. destruct Hc as [<-|[<-|[<-|[]]]]; congruence.
Qed.

Lemma code_apostrophe (a : ascii) :
  occurrences apostrophe (code a) = if Ascii.eqb a apostrophe then 1%nat else 0%nat.
Proof.
  destruct (code_cases a) as [[E ->]|[[E ->]|[[E ->]|[[E ->]|[[E ->]|[E _]]]]]];
    rewrite E; try reflexivity.
  cbn [occurrences]. destruct (Ascii.eqb a apostrophe); reflexivity.
Qed.

End EscapeFacts.

(** Whatever the text, its escaped form can stand between the double
    quotes of an AppleScript literal: every double quote and every
    backslash of the text is taken by a backslash, the escaped form does
    not end on an open backslash, and it holds no line feed, carriage
    return or tab.  Apostrophes are not touched: the escaped form has as
    many as the text, although the script is passed to [osascript]
    between apostrophes. *)
Theorem escaped_text_stays_in_literal (str : string) :
  let out := AppleReminders.escapeAppleScriptString str in
  AppleReminders.literal_body false out = true
  /\ AppleReminders.occurrences AppleReminders.newline out = 0%nat
  /\ AppleReminders.occurrences AppleReminders.carriage_return out = 0%nat
  /\ AppleReminders.occurrences AppleReminders.tab out = 0%nat
  /\ AppleReminders.occurrences AppleReminders.apostrophe out
     = AppleReminders.occurrences AppleReminders.apostrophe str.
Proof.
  cbv zeta. rewrite escape_translate.
  split; [apply translate_literal_body|].
  split; [apply translate_without, code_without; cbn; auto|].
  split; [apply translate_without, code_without; cbn; auto|].
  split; [apply translate_without, code_without; cbn; auto|].
  apply translate_keeps, code_apostrophe.
Qed.

(** Escaping loses nothing: two texts with the same escaped form are the
    same text, so the five replacement passes never make two different
    titles, notes or list names collide. *)
Theorem escape_loses_nothing (s1 s2 : string) :
  AppleReminders.escapeAppleScriptString s1 = AppleReminders.escapeAppleScriptString s2 ->
  s1 = s2.
Proof.
  rewrite !escape_translate. apply translate_injective.
Qed.

(** A text with a backslash before a quote, against itself. *)
Lemma escape_loses_nothing_witness :
  String "a" (String AppleReminders.backslash (String AppleReminders.quote "b"))
  = String "a" (String AppleReminders.backslash (String AppleReminders.quote "b")).
Proof.
  apply (escape_loses_nothing
           (String "a" (String AppleReminders.backslash (String AppleReminders.quote "b")))
           (String "a" (String AppleReminders.backslash (String AppleReminders.quote "b")))).
  reflexivity.
Defined.

(** ** The field extractor *)

Section ExtractorFacts.

Import ClaudeProcessor.

Lemma requiredFields_cases (n : string) :
  (n = "gastos_comunes"
   /\ requiredFields n = Some ["monto"; "vencimiento"; "periodo"; "tipo"])
  \/ (n = "facturas_servicios"
      /\ requiredFields n = Some ["empresa"; "monto"; "vencimiento"; "tipo"])
  \/ (n = "entregas_amazon"
      /\ requiredFields n = Some ["tracking"; "fechaEntrega"; "proveedor"; "tipo"])
  \/ (n <> "gastos_comunes" /\ n <> "facturas_servicios" /\ n <> "entregas_amazon"
      /\ ~ In n object_prototype_keys /\ requiredFields n = Some ["tipo"])
  \/ (n <> "gastos_comunes" /\ n <> "facturas_servicios" /\ n <> "entregas_amazon"
      /\ In n object_prototype_keys /\ requiredFields n = None).
Proof.
  unfold requiredFields, ruleRequirements. cbn [find fst].
  rewrite !(String.eqb_sym _ n).
  destruct (String.eqb_spec n "gastos_comunes") as [->|H1]; [auto|].
  destruct (String.eqb_spec n "facturas_servicios") as [->|H2]; [auto|].
  destruct (String.eqb_spec n "entregas_amazon") as [->|H3]; [auto 6|].
  destruct (String.eqb_spec n "generic") as [->|H4].
  { right. right. right. left. repeat split; try assumption.
    cbn. intuition discriminate. }
  destruct (existsb (String.eqb n) object_prototype_keys) eqn:Hk.
  - do 4 right. repeat split; try assumption.
    apply existsb_exists in Hk as (k & Hin & Hk).
    apply String.eqb_eq in Hk. now subst.
  - right. right. right. left. repeat split; try assumption.
    intros Hin. apply Bool.not_true_iff_false in Hk. apply Hk.
    apply existsb_exists. exists n. split; [exact Hin|apply String.eqb_refl].
Qed.

Lemma requiredFields_none (n : string) :
  requiredFields n = None <-> In n object_prototype_keys.
Proof.
  destruct (requiredFields_cases n)
    as [[Hn Hr]|[[Hn Hr]|[[Hn Hr]|[(H1 & H2 & H3 & Hk & Hr)|(H1 & H2 & H3 & Hk & Hr)]]]];
    rewrite Hr; split; intros H; try discriminate H; try contradiction; try assumption;
    try reflexivity; subst n; cbn in H; intuition discriminate.
Qed.

End ExtractorFacts.

Section ConfidenceFacts.

Import ClaudeProcessor.

Lemma truthy_filled (v : option string) : truthy v = filled v.
Proof. reflexivity. Qed.

Lemma confidence_of_four (data : Answer) (rule : EmailRule) (f1 f2 f3 f4 : string) :
  requiredFields (name rule) = Some [f1; f2; f3; f4] ->
  let score := length (List.filter (fun f => filled (get data f)) [f1; f2; f3; f4]) in
  exists c, calculateConfidence data rule = Some c
            /\ In c [0; 25; 50; 75; 85; 100]
            /\ (c < 25 <-> score = 0%nat)
            /\ (c = 100 <-> score = 4%nat)
            /\ ((complete data (name rule) = true -> score = 4%nat) ->
                score <> 0%nat -> In c [25; 50; 75; 100]).
Proof.
  intros Hr. cbv zeta. unfold calculateConfidence. rewrite Hr.
  cbn [List.filter length].
  destruct (complete data (name rule));
    destruct (filled (get data f1)), (filled (get data f2)),
             (filled (get data f3)), (filled (get data f4));
    (eexists; split; [reflexivity|]); vm_compute;
    repeat split; intros; try congruence; auto 10;
    match goal with
    | H : true = true -> _ |- _ => specialize (H eq_refl); congruence
    end.
Qed.

Lemma confidence_of_one (data : Answer) (rule : EmailRule) (f1 : string) :
  requiredFields (name rule) = Some [f1] ->
  complete data (name rule) = false ->
  calculateConfidence data rule
  = Some (if filled (get data f1) then 100 else 0).
Proof.
  intros Hr Hc. unfold calculateConfidence. rewrite Hr, Hc.
  cbn [List.filter length].
  destruct (filled (get data f1)); reflexivity.
Qed.

Lemma complete_generic (data : Answer) (n : string) :
  n <> "gastos_comunes" -> n <> "facturas_servicios" -> n <> "entregas_amazon" ->
  complete data n = false.
Proof.
  intros H1 H2 H3. unfold complete.
  apply String.eqb_neq in H1, H2, H3. now rewrite H1, H2, H3.
Qed.

End ConfidenceFacts.

(** [calculateConfidence] gives the share of the required fields of the
    rule that the answer fills, in steps of 25 for the three known rule
    names (four required fields) and 0 or 100 for every other name (one
    required field, [tipo]); 85 is 75 with the bonus.  The value is below
    25, the least the daemon accepts, exactly when no required field is
    filled, and 100 exactly when all are.  For a rule named like a
    property of [Object.prototype] the function throws. *)
Theorem confidence_counts_required_fields (data : ClaudeProcessor.Answer)
    (rule : EmailRule) :
  match ClaudeProcessor.requiredFields (name rule) with
  | None =>
    ClaudeProcessor.calculateConfidence data rule = None
    /\ In (name rule) ClaudeProcessor.object_prototype_keys
  | Some fields =>
    let score :=
      length (List.filter
                (fun f => ClaudeProcessor.filled (ClaudeProcessor.get data f))
                fields) in
    ~ In (name rule) ClaudeProcessor.object_prototype_keys
    /\ (length fields = 4%nat \/ length fields = 1%nat)
    /\ exists c,
         ClaudeProcessor.calculateConfidence data rule = Some c
         /\ In c [0; 25; 50; 75; 85; 100]
         /\ (c < 25 <-> score = 0%nat)
         /\ (c = 100 <-> score = length fields)
         /\ (length fields = 1%nat -> c = 0 \/ c = 100)
  end.
Proof.
  destruct (requiredFields_cases (name rule))
    as [[Hn Hr]|[[Hn Hr]|[[Hn Hr]|[(H1 & H2 & H3 & Hk & Hr)|(H1 & H2 & H3 & Hk & Hr)]]]];
    rewrite Hr.
  1-4: cbv zeta; split;
       [intros Hin; apply requiredFields_none in Hin; congruence|].
  1-3: split; [left; reflexivity|];
       destruct (confidence_of_four data rule _ _ _ _ Hr) as (c & Hc & Hin & Hlow & Hfull & _);
       exists c; repeat split; try assumption; try apply Hlow; try apply Hfull;
       cbn [length]; intros; discriminate.
  - split; [right; reflexivity|].
    rewrite (confidence_of_one data rule _ Hr (complete_generic data _ H1 H2 H3)).
    cbn [List.filter length].
    destruct (ClaudeProcessor.filled (ClaudeProcessor.get data "tipo"));
      (eexists; split; [reflexivity|]); cbn [length In];
      repeat split; intros; try lia; try discriminate; auto 10.
  - split; [|exact Hk]. unfold ClaudeProcessor.calculateConfidence. now rewrite Hr.
Qed.

Section PipelineFacts.

Import ClaudeProcessor.

Variable P : Patterns.

Lemma mockClaudeCall_generic (email : EmailData) (rule : EmailRule) :
  name rule <> "gastos_comunes" -> name rule <> "facturas_servicios" ->
  name rule <> "entregas_amazon" ->
  mockClaudeCall P email rule = mockGenericResponse email.
Proof.
  intros H1 H2 H3. unfold mockClaudeCall.
  apply String.eqb_neq in H1, H2, H3. now rewrite H1, H2, H3.
Qed.

(** The answers of the extractor always fill [tipo], and an answer that
    earns the bonus fills every required field. *)
Lemma mock_confidence (email : EmailData) (rule : EmailRule) :
  match requiredFields (name rule) with
  | None => calculateConfidence (mockClaudeCall P email rule) rule = None
  | Some _ =>
    exists c, calculateConfidence (mockClaudeCall P email rule) rule = Some c
              /\ In c [25; 50; 75; 100]
              /\ (name rule <> "gastos_comunes" -> name rule <> "facturas_servicios" ->
                  name rule <> "entregas_amazon" -> c = 100)
  end.
Proof.
  destruct (requiredFields_cases (name rule))
    as [[Hn Hr]|[[Hn Hr]|[[Hn Hr]|[(H1 & H2 & H3 & Hk & Hr)|(H1 & H2 & H3 & Hk & Hr)]]]];
    rewrite Hr.
  - destruct (confidence_of_four (mockClaudeCall P email rule) rule _ _ _ _ Hr)
      as (c & Hc & _ & _ & _ & Hin).
    exists c. split; [exact Hc|]. split; [|congruence].
    unfold mockClaudeCall, complete in Hin. rewrite Hn in Hin.
    cbn [String.eqb Ascii.eqb Bool.eqb] in Hin.
    unfold mockGastosComunesResponse, get in Hin.
    cbn [find fst String.eqb Ascii.eqb Bool.eqb List.filter filled negb length] in Hin.
    change truthy with filled in Hin.
    apply Hin.
    + destruct (filled (gastos_monto P email)), (filled (gastos_vencimiento P email)),
               (filled (gastos_periodo P email)); cbn; congruence.
    + destruct (filled (gastos_monto P email)), (filled (gastos_vencimiento P email)),
               (filled (gastos_periodo P email)); cbn; congruence.
  - destruct (confidence_of_four (mockClaudeCall P email rule) rule _ _ _ _ Hr)
      as (c & Hc & _ & _ & _ & Hin).
    exists c. split; [exact Hc|]. split; [|congruence].
    unfold mockClaudeCall, complete in Hin. rewrite Hn in Hin.
    cbn [String.eqb Ascii.eqb Bool.eqb] in Hin.
    unfold mockFacturasResponse, get in Hin.
    cbn [find fst String.eqb Ascii.eqb Bool.eqb List.filter filled negb length] in Hin.
    change truthy with filled in Hin.
    apply Hin.
    + destruct (filled (facturas_empresa P email)), (filled (facturas_monto P email)),
               (filled (facturas_vencimiento P email)); cbn; congruence.
    + destruct (filled (facturas_empresa P email)), (filled (facturas_monto P email)),
               (filled (facturas_vencimiento P email)); cbn; congruence.
  - destruct (confidence_of_four (mockClaudeCall P email rule) rule _ _ _ _ Hr)
      as (c & Hc & _ & _ & _ & Hin).
    exists c. split; [exact Hc|]. split; [|congruence].
    unfold mockClaudeCall, complete in Hin. rewrite Hn in Hin.
    cbn [String.eqb Ascii.eqb Bool.eqb] in Hin.
    unfold mockAmazonResponse, get in Hin.
    cbn [find fst String.eqb Ascii.eqb Bool.eqb List.filter filled negb length] in Hin.
    change truthy with filled in Hin.
    apply Hin.
    + destruct (filled (amazon_tracking P email)), (filled (amazon_fechaEntrega P email));
        cbn; congruence.
    + destruct (filled (amazon_tracking P email)), (filled (amazon_fechaEntrega P email));
        cbn; congruence.
  - exists 100. split; [|split; [cbn; auto|reflexivity]].
    rewrite (confidence_of_one _ rule _ Hr (complete_generic _ _ H1 H2 H3)).
    rewrite mockClaudeCall_generic by assumption. reflexivity.
  - unfold calculateConfidence. now rewrite Hr.
Qed.

End PipelineFacts.

Section ExtractionFacts.

Import ClaudeProcessor.

Variable P : Patterns.

Lemma processEmail_cases (email : EmailData) (rule : EmailRule) :
  (processEmail P email rule = fallback email rule
   /\ (date email = InvalidDate \/ In (name rule) object_prototype_keys))
  \/ (exists c,
        processEmail P email rule
        = {| emailId := id email; ruleName := name rule;
             extractedFields := mockClaudeCall P email rule;
             confidence := c; extractionMethod := ai_claude |}
        /\ In c [25; 50; 75; 100]
        /\ (name rule <> "gastos_comunes" -> name rule <> "facturas_servicios" ->
            name rule <> "entregas_amazon" -> c = 100)
        /\ date email <> InvalidDate
        /\ ~ In (name rule) object_prototype_keys).
Proof.
  unfold processEmail. destruct (date email) as [ms|] eqn:Hd; [|left; auto].
  pose proof (mock_confidence P email rule) as Hm.
  destruct (requiredFields (name rule)) as [fields|] eqn:Hr.
  - destruct Hm as (c & Hc & Hin & Hgen). right. exists c. rewrite Hc.
    repeat split; try assumption; try discriminate.
    intros Hk. apply requiredFields_none in Hk. congruence.
  - left. rewrite Hm. split; [reflexivity|]. right. now apply requiredFields_none.
Qed.

Lemma find_name_In (rs : list EmailRule) (r : EmailRule) :
  In r rs ->
  exists rule, find (fun x => (name x =? name r)%string) rs = Some rule
               /\ name rule = name r.
Proof.
  intros Hin. destruct (find (fun x => (name x =? name r)%string) rs) as [rule|] eqn:Hf.
  - exists rule. split; [reflexivity|].
    apply find_some in Hf as [_ Hf]. now apply String.eqb_eq in Hf.
  - exfalso. pose proof (find_none _ _ Hf r Hin) as Hn. cbn in Hn.
    now rewrite String.eqb_refl in Hn.
Qed.

Lemma extract_names (e : EmailData) (rs found : list EmailRule) :
  incl found rs ->
  map ruleName
      (flat_map (fun ruleName =>
                   match find (fun r => (name r =? ruleName)%string) rs with
                   | None => []
                   | Some rule => [processEmail P e rule]
                   end)
                (map name found))
  = map name found.
Proof.
  induction found as [|r found IH]; intros Hincl; [reflexivity|].
  cbn [map flat_map].
  destruct (find_name_In rs r (Hincl r (or_introl eq_refl))) as (rule & Hf & Hname).
  rewrite Hf. cbn [app map]. rewrite IH by (intros x Hx; apply Hincl; now right).
  f_equal.
  destruct (processEmail_cases e rule) as [[-> _]|(c & -> & _)]; exact Hname.
Qed.

Lemma processMultipleEmails_found (emails : list EmailData) (rs : list EmailRule) :
  Forall (fun r => exists e rule,
                     In e emails
                     /\ find (fun x => (name x =? ruleName r)%string) rs = Some rule
                     /\ r = processEmail P e rule)
         (processMultipleEmails P emails rs).
Proof.
  unfold processMultipleEmails. apply List.Forall_forall. intros r Hr.
  apply in_flat_map in Hr as (e & He & Hr).
  destruct (matchedRules e) as [[|n names]|]; try contradiction.
  apply in_flat_map in Hr as (n' & _ & Hr).
  destruct (find (fun r0 => (name r0 =? n')%string) rs) as [rule|] eqn:Hf;
    [|contradiction].
  destruct Hr as [<-|[]]. exists e, rule. split; [exact He|]. split; [|reflexivity].
  assert (Hn : ruleName (processEmail P e rule) = name rule)
    by (destruct (processEmail_cases e rule) as [[-> _]|(c & -> & _)]; reflexivity).
  rewrite Hn.
  pose proof (find_some _ _ Hf) as [Hin Heq]. apply String.eqb_eq in Heq. subst n'.
  exact Hf.
Qed.

End ExtractionFacts.

(** The extractor never throws and answers in one of two ways.  Its
    fallback answer, with confidence 0, is given exactly when the mail
    has an Invalid Date or the rule is named like a property of
    [Object.prototype].  Every other answer has confidence 25, 50, 75 or
    100, and 100 when the rule has none of the three known names.  So
    the daemon's test [confidence < 25] skips exactly the fallback
    answers. *)
Theorem extraction_passes_gate_unless_fallback (P : ClaudeProcessor.Patterns)
    (email : EmailData) (rule : EmailRule) :
  let r := ClaudeProcessor.processEmail P email rule in
  let fell_back :=
    ClaudeProcessor.extractionMethod r = ClaudeProcessor.ai_claude_fallback in
  ClaudeProcessor.emailId r = id email
  /\ ClaudeProcessor.ruleName r = name rule
  /\ (fell_back <->
      date email = InvalidDate
      \/ In (name rule) ClaudeProcessor.object_prototype_keys)
  /\ ((ClaudeProcessor.confidence r <? 25) = true <-> fell_back)
  /\ In (ClaudeProcessor.confidence r) [0; 25; 50; 75; 100]
  /\ (~ fell_back ->
      name rule <> "gastos_comunes" -> name rule <> "facturas_servicios" ->
      name rule <> "entregas_amazon" ->
      ClaudeProcessor.confidence r = 100).
Proof.
  cbv zeta.
  destruct (processEmail_cases P email rule)
    as [[-> Hwhy]|(c & -> & Hin & Hgen & Hd & Hk)].
  - cbn. repeat split; auto; try tauto.
  - cbn [ClaudeProcessor.emailId ClaudeProcessor.ruleName
         ClaudeProcessor.confidence ClaudeProcessor.extractionMethod].
    split; [reflexivity|]. split; [reflexivity|].
    split; [split; [discriminate|tauto]|].
    split.
    + split; [|discriminate]. intros Hlow. apply Z.ltb_lt in Hlow.
      cbn in Hin. lia.
    + split; [cbn in *; tauto|]. intros _. exact Hgen.
Qed.

(** Filter and extractor fit: for every mail that [filterEmails] hands
    on, the extractor answers once for each rule that matched the mail,
    in rule order, under the name of that rule; and every answer of the
    extractor carries a rule name that the daemon's lookup
    [rules.find(r => r.name === result.ruleName)] finds, so the daemon
    never drops an answer as "Rule not found". *)
Theorem every_matched_rule_is_extracted {W : Type} (E : Env W)
    (P : ClaudeProcessor.Patterns) (emails : list EmailData) (rs : list EmailRule) :
  Forall2
    (fun e e' =>
       id e' = id e
       /\ map ClaudeProcessor.ruleName (ClaudeProcessor.processMultipleEmails P [e'] rs)
          = map name (findMatchingRules E e rs))
    emails (filterEmails E emails rs)
  /\ (forall queued,
        Forall (fun r => ClaudeProcessor.emailId r = id queued
                         /\ exists rule,
                              find (fun x => (name x =? ClaudeProcessor.ruleName r)%string) rs
                              = Some rule)
               (ClaudeProcessor.processMultipleEmails P [queued] rs)).
Proof.
  split.
  - unfold filterEmails.
    destruct ((length emails =? 0)%nat || (length rs =? 0)%nat) eqn:Hedge.
    + apply Forall2_same_length_lookup_2; [reflexivity|].
      intros i e e' He He'. assert (e = e') by congruence. subst e'.
      split; [reflexivity|].
      destruct emails as [|e0 emails']; [now rewrite lookup_nil in He|].
      cbn in Hedge. destruct rs; [|discriminate Hedge].
      unfold ClaudeProcessor.processMultipleEmails. cbn [flat_map].
      rewrite app_nil_r.
      destruct (matchedRules e) as [[|n names]|]; try reflexivity.
      induction (n :: names) as [|x l IH]; [reflexivity|]. cbn. exact IH.
    + apply Forall2_fmap_r, Forall_Forall2_diag, Forall_forall. intros e _.
      cbn [id]. split; [reflexivity|].
      unfold ClaudeProcessor.processMultipleEmails. cbn [flat_map matchedRules].
      rewrite app_nil_r.
      assert (Hincl : incl (findMatchingRules E e rs) rs)
        by (intros x Hx; unfold findMatchingRules in Hx;
            now apply filter_In in Hx as [Hx _]).
      destruct (findMatchingRules E e rs) as [|r found] eqn:Hfound; [reflexivity|].
      change (name r :: map name found) with (map name (r :: found)).
      apply (extract_names P _ rs (r :: found) Hincl).
  - intros queued.
    eapply Forall_impl; [apply processMultipleEmails_found|].
    intros r (e & rule & He & Hf & ->). destruct He as [<-|[]].
    split; [|now exists rule].
    destruct (processEmail_cases P queued rule) as [[-> _]|(c & -> & _)]; reflexivity.
Qed.

(** ** The filter *)

Section FilterFacts.

Import EmailFilter.

Lemma prefix_app (t s : string) :
  String.prefix t s = true <-> exists b, s = (t ++ b)%string.
Proof.
  revert t. induction s as [|d s IH]; intros [|c t]; cbn [String.prefix].
  - split; [intros _; now exists EmptyString|reflexivity].
  - split; [discriminate|]. intros [b Hb]. discriminate Hb.
  - split; [intros _; now exists (String d s)|reflexivity].
  - destruct (ascii_dec c d) as [->|Hne].
    + rewrite IH. split; intros [b Hb]; exists b.
      * rewrite append_cons. now f_equal.
      * rewrite append_cons in Hb. now injection Hb.
    + split; [discriminate|]. intros [b Hb]. rewrite append_cons in Hb.
      injection Hb as Hd _. congruence.
Qed.

Lemma includes_spec (s t : string) :
  includes s t = true <-> exists a b, s = (a ++ t ++ b)%string.
Proof.
  induction s as [|c s IH].
  - cbn [includes]. rewrite orb_false_r, prefix_app. split.
    + intros [b Hb]. now exists EmptyString, b.
    + intros (a & b & Hab). destruct a as [|x a]; [now exists b|discriminate Hab].
  - cbn [includes]. rewrite orb_true_iff, prefix_app, IH. split.
    + intros [[b Hb]|(a & b & Hab)].
      * now exists EmptyString, b.
      * exists (String c a), b. rewrite append_cons. now f_equal.
    + intros (a & b & Hab). destruct a as [|x a].
      * left. now exists b.
      * right. rewrite append_cons in Hab. injection Hab as _ Hab. now exists a, b.
Qed.

End FilterFacts.

Section MatchFacts.

Import EmailFilter.

Variable toLowerCase : string -> string.

Lemma includes_occurs (s t : string) :
  includes (toLowerCase s) (toLowerCase t) = true <-> occurs_in toLowerCase s t.
Proof. apply includes_spec. Qed.

Lemma any_term_existsb (terms : option (list string)) (f : string -> bool)
    (holds : string -> Prop) :
  (forall t, f t = true <-> holds t) ->
  match terms with
  | Some (_ :: _ as ts) => existsb f ts
  | _ => true
  end = true <-> any_term terms holds.
Proof.
  intros Hf. unfold any_term. destruct terms as [[|t ts]|]; try tauto.
  rewrite existsb_exists. split; intros (x & Hin & Hx); exists x; split;
    try exact Hin; now apply Hf.
Qed.

Lemma same_provider_eq (p q : Provider) : same_provider p q = true <-> p = q.
Proof. destruct p, q; cbn; split; congruence. Qed.

Lemma matchesProvider_spec (email : EmailData) (rule : EmailRule) :
  matchesProvider email rule = true <-> In (provider email) (providers rule).
Proof.
  unfold matchesProvider. rewrite existsb_exists. split.
  - intros (q & Hin & Hq). apply same_provider_eq in Hq. now subst.
  - intros Hin. exists (provider email). split; [exact Hin|now apply same_provider_eq].
Qed.

Lemma matchesSender_spec (email : EmailData) (c : Criteria) :
  matchesSender toLowerCase email c = true <->
  from email = EmptyString
  \/ (any_term (fromContains c) (occurs_in toLowerCase (from email))
      /\ any_term (fromDomains c)
           (fun d => exists group, domain_of (from email) = Some group
                                   /\ occurs_in toLowerCase group d)).
Proof.
  unfold matchesSender.
  destruct (String.eqb_spec (from email) EmptyString) as [Hf|Hf]; [tauto|].
  cbv zeta.
  pose proof (any_term_existsb (fromContains c)
                (fun term => includes (toLowerCase (from email)) (toLowerCase term))
                (occurs_in toLowerCase (from email))
                (fun t => includes_occurs (from email) t)) as Hc.
  destruct (match fromContains c with
            | Some (_ :: _ as terms) =>
              existsb (fun term => includes (toLowerCase (from email)) (toLowerCase term))
                      terms
            | _ => true
            end) eqn:Hcontains; cbn [negb].
  - assert (Hany : any_term (fromContains c) (occurs_in toLowerCase (from email)))
      by now apply Hc.
    destruct (fromDomains c) as [[|d ds]|] eqn:Hd; cbn [any_term]; try tauto.
    destruct (domain_of (from email)) as [group|] eqn:Hg.
    + rewrite existsb_exists. split.
      * intros (x & Hin & Hx). right. split; [exact Hany|].
        exists x. split; [exact Hin|]. exists group. split; [reflexivity|].
        now apply includes_occurs.
      * intros [Hempty|[_ (x & Hin & group' & Hg' & Hx)]]; [contradiction|].
        injection Hg' as <-. exists x. split; [exact Hin|]. now apply includes_occurs.
    + split; [discriminate|].
      intros [Hempty|[_ (x & _ & group' & Hg' & _)]]; [contradiction|discriminate].
  - split; [discriminate|]. intros [Hempty|[Hany _]]; [contradiction|].
    apply Hc in Hany. discriminate Hany.
Qed.

Lemma matches_text_spec (text : string) (terms : option (list string)) :
  match terms with
  | Some (_ :: _ as ts) =>
    if (text =? EmptyString)%string then false
    else existsb (fun term => includes (toLowerCase text) (toLowerCase term)) ts
  | _ => true
  end = true <->
  any_term terms (fun t => text <> EmptyString /\ occurs_in toLowerCase text t).
Proof.
  unfold any_term. destruct terms as [[|t ts]|]; try tauto.
  destruct (String.eqb_spec text EmptyString) as [He|He].
  - split; [discriminate|]. intros (x & _ & Hne & _). contradiction.
  - rewrite existsb_exists. split; intros (x & Hin & Hx); exists x; split;
      try exact Hin.
    + split; [exact He|]. now apply includes_occurs.
    + now apply includes_occurs.
Qed.

End MatchFacts.

(** A mail matches a rule exactly when its provider is one of the
    rule's and each of the four criteria holds, where a criterion that
    is absent or empty holds, and one with terms holds when some term
    occurs, in lower case, in the text it is about.  The sender
    criteria hold for a mail without sender; the subject and body
    criteria, when they have terms, fail for a mail without subject or
    body.  The domains are looked for in what follows the at sign of the
    sender.  The status of the rule and its [subjectRegex] play no
    part.  [getMatchDetails] reports the same verdict. *)
Theorem match_is_every_criterion_some_term (toLowerCase : string -> string)
    (email : EmailData) (rule : EmailRule) (c : EmailFilter.Criteria) :
  (EmailFilter.doesEmailMatchRule toLowerCase email rule c = true <->
   In (provider email) (providers rule)
   /\ (from email = EmptyString
       \/ (EmailFilter.any_term (EmailFilter.fromContains c)
             (EmailFilter.occurs_in toLowerCase (from email))
           /\ EmailFilter.any_term (EmailFilter.fromDomains c)
                (fun d => exists group,
                            EmailFilter.domain_of (from email) = Some group
                            /\ EmailFilter.occurs_in toLowerCase group d)))
   /\ EmailFilter.any_term (EmailFilter.subjectContains c)
        (fun t => subject email <> EmptyString
                  /\ EmailFilter.occurs_in toLowerCase (subject email) t)
   /\ EmailFilter.any_term (EmailFilter.bodyContains c)
        (fun t => body email <> EmptyString
                  /\ EmailFilter.occurs_in toLowerCase (body email) t))
  /\ fst (EmailFilter.getMatchDetails toLowerCase email rule c)
     = EmailFilter.doesEmailMatchRule toLowerCase email rule c.
Proof.
  split.
  - rewrite <- matchesProvider_spec, <- (matchesSender_spec toLowerCase).
    rewrite <- (matches_text_spec toLowerCase (subject email)).
    rewrite <- (matches_text_spec toLowerCase (body email)).
    unfold EmailFilter.doesEmailMatchRule.
    change (match EmailFilter.subjectContains c with
            | Some (_ :: _ as ts) =>
              if (subject email =? EmptyString)%string then false
              else existsb (fun term => EmailFilter.includes (toLowerCase (subject email))
                                                             (toLowerCase term)) ts
            | _ => true
            end) with (EmailFilter.matchesSubject toLowerCase email c).
    change (match EmailFilter.bodyContains c with
            | Some (_ :: _ as ts) =>
              if (body email =? EmptyString)%string then false
              else existsb (fun term => EmailFilter.includes (toLowerCase (body email))
                                                             (toLowerCase term)) ts
            | _ => true
            end) with (EmailFilter.matchesBody toLowerCase email c).
    destruct (EmailFilter.matchesProvider email rule),
             (EmailFilter.matchesSender toLowerCase email c),
             (EmailFilter.matchesSubject toLowerCase email c),
             (EmailFilter.matchesBody toLowerCase email c); cbn; intuition congruence.
  - unfold EmailFilter.getMatchDetails, EmailFilter.doesEmailMatchRule.
    cbn [fst forallb].
    destruct (EmailFilter.matchesProvider email rule),
             (EmailFilter.matchesSender toLowerCase email c),
             (EmailFilter.matchesSubject toLowerCase email c),
             (EmailFilter.matchesBody toLowerCase email c); reflexivity.
Qed.

Section DomainFacts.

Import EmailFilter.

Lemma has_no_nil (c : ascii) : has_no c EmptyString.
Proof. intros [|x a] b H; discriminate H. Qed.

Lemma has_no_cons (c x : ascii) (s : string) :
  has_no c (String x s) <-> x <> c /\ has_no c s.
Proof.
  split.
  - intros H. split.
    + intros ->. apply (H EmptyString s). reflexivity.
    + intros a b Hs. apply (H (String x a) b). rewrite append_cons. now f_equal.
  - intros [Hx Hs] [|y a] b H.
    + rewrite append_nil in H. injection H as H _. contradiction.
    + rewrite append_cons in H. injection H as _ H. exact (Hs a b H).
Qed.

Lemma not_gt_run_split (rest : string) :
  exists post, rest = (not_gt_run rest ++ post)%string
               /\ has_no ">" (not_gt_run rest)
               /\ (post = EmptyString \/ starts_with ">" post).
Proof.
  induction rest as [|c rest (post & Hsplit & Hno & Hpost)].
  - exists EmptyString. split; [reflexivity|]. split; [apply has_no_nil|now left].
  - cbn [not_gt_run]. destruct (Ascii.eqb_spec c ">") as [->|Hc].
    + exists (String ">" rest). split; [reflexivity|].
      split; [apply has_no_nil|right; now exists rest].
    + exists post. split; [rewrite append_cons; now f_equal|].
      split; [now apply has_no_cons|exact Hpost].
Qed.

Lemma not_gt_run_unique (group post : string) :
  has_no ">" group ->
  post = EmptyString \/ starts_with ">" post ->
  not_gt_run (group ++ post) = group.
Proof.
  intros Hno Hpost. induction group as [|c group IH].
  - rewrite append_nil. destruct Hpost as [->|[rest ->]]; reflexivity.
  - apply has_no_cons in Hno as [Hc Hno].
    rewrite append_cons. cbn [not_gt_run].
    apply Ascii.eqb_neq in Hc. rewrite Hc. f_equal. exact (IH Hno).
Qed.

Lemma not_gt_run_empty (rest : string) :
  not_gt_run rest = EmptyString <-> rest = EmptyString \/ starts_with ">" rest.
Proof.
  destruct rest as [|c rest]; cbn [not_gt_run].
  - tauto.
  - destruct (Ascii.eqb_spec c ">") as [->|Hc].
    + split; [intros _; right; now exists rest|reflexivity].
    + split; [discriminate|]. intros [H|[r H]]; [discriminate|].
      injection H as H _. contradiction.
Qed.

Lemma domain_of_at (rest : string) :
  domain_of (String "@" rest)
  = match not_gt_run rest with
    | EmptyString => domain_of rest
    | run => Some run
    end.
Proof. reflexivity. Qed.

Lemma domain_of_other (c : ascii) (rest : string) :
  c <> "@"%char -> domain_of (String c rest) = domain_of rest.
Proof.
  intros Hc. cbn [domain_of]. apply Ascii.eqb_neq in Hc. now rewrite Hc.
Qed.

(** What precedes the match holds no at sign that could start one: each
    at sign in it is followed by [>]. *)
Lemma domain_of_sound (s group : string) :
  domain_of s = Some group ->
  exists pre post,
    s = (pre ++ String "@" (group ++ post))%string
    /\ group <> EmptyString
    /\ has_no ">" group
    /\ (post = EmptyString \/ starts_with ">" post)
    /\ (forall a b, pre = (a ++ String "@" b)%string -> starts_with ">" b).
Proof.
  induction s as [|c s IH]; [discriminate|].
  destruct (ascii_dec c "@") as [->|Hc].
  - rewrite domain_of_at.
    destruct (not_gt_run s) as [|r run] eqn:Hrun.
    + intros Hd. destruct (IH Hd) as (pre & post & Hs & Hne & Hno & Hpost & Hpre).
      exists (String "@" pre), post. rewrite append_cons.
      split; [now f_equal|]. split; [exact Hne|]. split; [exact Hno|].
      split; [exact Hpost|].
      intros [|x a] b Hab.
      * rewrite append_nil in Hab. injection Hab as <-.
        apply not_gt_run_empty in Hrun as [Hempty|[rest Hrest]].
        { subst s. destruct pre; discriminate Hs. }
        destruct pre as [|p pre].
        { rewrite append_nil in Hs. rewrite Hs in Hrest. discriminate Hrest. }
        rewrite Hs, append_cons in Hrest. injection Hrest as -> _. now exists pre.
      * rewrite append_cons in Hab. injection Hab as _ Hab. exact (Hpre a b Hab).
    + intros Hd. injection Hd as <-.
      destruct (not_gt_run_split s) as (post & Hsplit & Hno & Hpost).
      exists EmptyString, post. rewrite append_nil, <- Hrun, <- Hsplit.
      split; [reflexivity|]. rewrite Hrun. split; [discriminate|].
      split; [now rewrite <- Hrun|]. split; [exact Hpost|].
      intros [|x a] b Hab; discriminate Hab.
  - rewrite (domain_of_other c s Hc). intros Hd.
    destruct (IH Hd) as (pre & post & Hs & Hne & Hno & Hpost & Hpre).
    exists (String c pre), post. rewrite append_cons.
    split; [now f_equal|]. split; [exact Hne|]. split; [exact Hno|].
    split; [exact Hpost|].
    intros [|x a] b Hab.
    + rewrite append_nil in Hab. injection Hab as Hx _. contradiction.
    + rewrite append_cons in Hab. injection Hab as _ Hab. exact (Hpre a b Hab).
Qed.

Lemma domain_of_complete (pre group post : string) :
  group <> EmptyString ->
  has_no ">" group ->
  post = EmptyString \/ starts_with ">" post ->
  (forall a b, pre = (a ++ String "@" b)%string -> starts_with ">" b) ->
  domain_of (pre ++ String "@" (group ++ post)) = Some group.
Proof.
  intros Hne Hno Hpost. induction pre as [|c pre IH]; intros Hpre.
  - rewrite append_nil, domain_of_at, (not_gt_run_unique group post Hno Hpost).
    destruct group; [contradiction|reflexivity].
  - rewrite append_cons.
    assert (Hpre' : forall a b, pre = (a ++ String "@" b)%string -> starts_with ">" b).
    { intros a b Hab. apply (Hpre (String c a) b). rewrite append_cons. now f_equal. }
    destruct (ascii_dec c "@") as [->|Hc].
    + rewrite domain_of_at.
      destruct (Hpre EmptyString pre eq_refl) as [rest ->].
      rewrite append_cons. cbn [not_gt_run Ascii.eqb Bool.eqb].
      rewrite <- append_cons. exact (IH Hpre').
    + rewrite (domain_of_other c _ Hc). exact (IH Hpre').
Qed.

End DomainFacts.

(** The domain that the [fromDomains] terms are looked for in is the
    text that follows the first at sign of the sender that is followed
    by a character other than [>], up to the next [>] or to the end of
    the sender: in a sender without brackets it takes in whatever is
    written after the address. *)
Theorem sender_domain_is_text_after_at (s group : string) :
  EmailFilter.domain_of s = Some group <->
  exists pre post,
    s = (pre ++ String "@" (group ++ post))%string
    /\ group <> EmptyString
    /\ has_no ">" group
    /\ (post = EmptyString \/ starts_with ">" post)
    /\ (forall a b, pre = (a ++ String "@" b)%string -> starts_with ">" b).
Proof.
  split; [apply domain_of_sound|].
  intros (pre & post & -> & Hne & Hno & Hpost & Hpre).
  now apply domain_of_complete.
Qed.

Section FilterByRuleFacts.

Context {W : Type} (E : Env W).

Lemma tagged_by_unique_name (f : EmailRule -> bool) (rs : list EmailRule) (n : string) :
  NoDup (map name rs) ->
  existsb (String.eqb n) (map name (List.filter f rs))
  = match find (fun r => (name r =? n)%string) rs with
    | Some rule => f rule
    | None => false
    end.
Proof.
  induction rs as [|r rs IH]; intros Hnd; [reflexivity|].
  cbn [map] in Hnd. apply NoDup_cons in Hnd as [Hnotin Hnd].
  rewrite list_elem_of_In in Hnotin.
  cbn [List.filter find].
  destruct (String.eqb_spec (name r) n) as [Hn|Hn].
  - destruct (f r) eqn:Hf.
    + cbn [map existsb]. subst n. now rewrite String.eqb_refl.
    + destruct (existsb (String.eqb n) (map name (List.filter f rs))) eqn:Hex;
        [|reflexivity].
      exfalso. apply existsb_exists in Hex as (x & Hin & Hx).
      apply String.eqb_eq in Hx. subst x. apply Hnotin. rewrite Hn.
      apply in_map_iff in Hin as (r' & Hr' & Hin). apply filter_In in Hin as [Hin _].
      apply in_map_iff. now exists r'.
  - destruct (f r).
    + cbn [map existsb].
      assert (Hne : (n =? name r)%string = false)
        by (apply String.eqb_neq; congruence).
      rewrite Hne. cbn [orb]. exact (IH Hnd).
    + exact (IH Hnd).
Qed.

Lemma map_id_filter_tagged (g : EmailData -> EmailData) (p q : EmailData -> bool)
    (emails : list EmailData) :
  (forall e, id (g e) = id e) ->
  (forall e, p (g e) = q e) ->
  map id (List.filter p (map g emails)) = map id (List.filter q emails).
Proof.
  intros Hid Hp. induction emails as [|e emails IH]; [reflexivity|].
  cbn [map List.filter]. rewrite Hp.
  destruct (q e); cbn [map]; now rewrite ?Hid, IH.
Qed.

End FilterByRuleFacts.

(** With rule names that are all different, [filterEmailsByRule] for a
    name returns, in order, exactly the mails that [filterEmails] tags
    with that name, each tagged with that name alone and marked
    unprocessed; for a name that no rule has, both select nothing.  The
    rule list is not empty here: with no rules [filterEmails] hands the
    mails on as they came, whatever tags they carry. *)
Theorem filter_by_rule_agrees_with_filter {W : Type} (E : Env W)
    (emails : list EmailData) (rs : list EmailRule) (n : string) :
  rs <> [] ->
  NoDup (map name rs) ->
  map id (filterEmailsByRule E emails rs n)
  = map id (List.filter (tagged n) (filterEmails E emails rs))
  /\ Forall (fun e => matchedRules e = Some [n] /\ processed e = false)
            (filterEmailsByRule E emails rs n).
Proof.
  intros Hrs Hnd. split.
  - unfold filterEmails.
    destruct emails as [|e0 emails'].
    { unfold filterEmailsByRule. cbn.
      now destruct (find (fun r => (name r =? n)%string) rs). }
    destruct rs as [|r0 rs']; [contradiction|].
    cbn [length Nat.eqb orb].
    rewrite (map_id_filter_tagged _ (tagged n)
               (fun e => match find (fun r => (name r =? n)%string) (r0 :: rs') with
                         | Some rule => doesEmailMatchRule E e rule
                         | None => false
                         end)).
    + unfold filterEmailsByRule.
      destruct (find (fun r => (name r =? n)%string) (r0 :: rs')) as [rule|].
      * rewrite map_map. cbn [id]. reflexivity.
      * generalize (e0 :: emails'). intros l.
        induction l as [|x l IH]; [reflexivity|exact IH].
    + reflexivity.
    + intros e. unfold tagged. cbn [matchedRules]. unfold findMatchingRules.
      apply tagged_by_unique_name. exact Hnd.
  - unfold filterEmailsByRule.
    destruct (find (fun r => (name r =? n)%string) rs) as [rule|]; [|constructor].
    apply Forall_map, Forall_forall. intros x _. cbn. split; reflexivity.
Qed.

(** Two rules and two mails of the scripted world, each mail matched by
    one rule: asked for the first rule, both ways select the first
    mail. *)
Lemma filter_by_rule_agrees_with_filter_witness :
  map id (filterEmailsByRule Scripted.env
            [Scripted.mail "m1" "r1" 10; Scripted.mail "m2" "r2" 20]
            [Scripted.rule "r1"; Scripted.rule "r2"] "r1")
  = ["m1"]
  /\ map id (List.filter (tagged "r1")
               (filterEmails Scripted.env
                  [Scripted.mail "m1" "r1" 10; Scripted.mail "m2" "r2" 20]
                  [Scripted.rule "r1"; Scripted.rule "r2"]))
     = ["m1"].
Proof.
  assert (Hrs : [Scripted.rule "r1"; Scripted.rule "r2"] <> []) by discriminate.
  assert (Hnd : NoDup (map name [Scripted.rule "r1"; Scripted.rule "r2"])).
  { cbn. apply NoDup_cons. split; [|apply NoDup_singleton].
    rewrite list_elem_of_In. cbn. intuition discriminate. }
  assert (Hleft : map id (filterEmailsByRule Scripted.env
                            [Scripted.mail "m1" "r1" 10; Scripted.mail "m2" "r2" 20]
                            [Scripted.rule "r1"; Scripted.rule "r2"] "r1")
                  = ["m1"]) by (vm_compute; reflexivity).
  destruct (filter_by_rule_agrees_with_filter Scripted.env
              [Scripted.mail "m1" "r1" 10; Scripted.mail "m2" "r2" 20]
              [Scripted.rule "r1"; Scripted.rule "r2"] "r1" Hrs Hnd) as [Heq _].
  split; [exact Hleft|]. rewrite <- Heq. exact Hleft.
Defined.

(** ** The iCloud client *)

Section ICloudFacts.

Import ICloudClient.

Lemma to_uint_not_nil (n : N) : N.to_uint n <> Decimal.Nil.
Proof.
  intros H. pose proof (DecimalN.Unsigned.of_to n) as Hn. rewrite H in Hn.
  cbn in Hn. subst n. discriminate H.
Qed.

Lemma uid_of_message_id (uid : N) :
  exact_number uid = true ->
  exists text, message_id uid = Some text /\ uid_of text = Uid uid.
Proof.
  intros Hsafe. unfold message_id. rewrite Hsafe. eexists. split; [reflexivity|].
  unfold uid_of. rewrite !append_cons, append_nil.
  rewrite (DecimalString.NilZero.usu _ (to_uint_not_nil uid)).
  rewrite DecimalN.Unsigned.of_to. now rewrite Hsafe.
Qed.

Lemma limitedUids_unfold (limit : Z) (uids : list N) :
  limitedUids limit uids
  = if 0 <? limit then drop (length uids - Z.to_nat limit)%nat uids
    else drop (Z.to_nat (- limit)) uids.
Proof.
  unfold limitedUids, slice_from. cbv zeta.
  destruct (Z.ltb_spec 0 limit) as [Hpos|Hneg].
  - assert (Hlt : (- limit <? 0) = true) by (apply Z.ltb_lt; lia).
    rewrite Hlt. f_equal. lia.
  - assert (Hge : (- limit <? 0) = false) by (apply Z.ltb_ge; lia).
    rewrite Hge.
    destruct (Z.le_ge_cases (- limit) (Z.of_nat (length uids))) as [Hle|Hle].
    + now rewrite Z.min_l by exact Hle.
    + rewrite Z.min_r by lia. rewrite Nat2Z.id.
      rewrite !drop_ge; [reflexivity|lia|lia].
Qed.

End ICloudFacts.

(** Which uids [getEmails] fetches.  For a limit of at least 1 they are
    the last [limit] uids found, or all of them when fewer were found.
    For a limit of 0 they are all the uids found, not none: so a daemon
    with [maxEmailsPerScan] 0 or 1, which asks for [floor(max / 2) = 0]
    mails, has the whole mailbox fetched in every cycle.  For a negative
    limit the first [-limit] uids are dropped. *)
Theorem icloud_limit_selects_newest (limit : Z) (uids : list N) :
  (1 <= limit ->
   exists older,
     uids = older ++ ICloudClient.limitedUids limit uids
     /\ length (ICloudClient.limitedUids limit uids)
        = Nat.min (Z.to_nat limit) (length uids))
  /\ (limit = 0 -> ICloudClient.limitedUids limit uids = uids)
  /\ (forall maxEmailsPerScan,
        0 <= maxEmailsPerScan < 2 ->
        ICloudClient.limitedUids (maxEmailsPerScan / 2) uids = uids)
  /\ (limit < 0 ->
      ICloudClient.limitedUids limit uids = drop (Z.to_nat (- limit)) uids).
Proof.
  rewrite limitedUids_unfold.
  split; [|split; [|split]].
  - intros Hpos. assert (Hlt : (0 <? limit) = true) by (apply Z.ltb_lt; lia).
    rewrite Hlt. exists (take (length uids - Z.to_nat limit) uids).
    split; [now rewrite take_drop|]. rewrite length_drop. lia.
  - intros ->. reflexivity.
  - intros m Hm. rewrite limitedUids_unfold.
    assert (Hz : m / 2 = 0) by (apply Z.div_small; lia).
    rewrite Hz. reflexivity.
  - intros Hneg. assert (Hge : (0 <? limit) = false) by (apply Z.ltb_ge; lia).
    now rewrite Hge.
Qed.

(** The id of an iCloud message with a uid below 2^53 is read back to
    that uid; so two such messages with the same id have the same uid.
    An id that is "icloud_" without digits, or that does not start with
    the letter i, as the ids of Gmail messages, is read back to
    nothing. *)
Theorem icloud_id_round_trip (uid : N) :
  (uid < 2 ^ 53)%N ->
  (exists text,
      ICloudClient.message_id uid = Some text
      /\ ICloudClient.uid_of text = ICloudClient.Uid uid)
  /\ (forall uid' text,
        ICloudClient.message_id uid = Some text ->
        ICloudClient.message_id uid' = Some text -> uid = uid')
  /\ ICloudClient.uid_of "icloud_" = ICloudClient.NoMatch
  /\ (forall c rest,
        c <> "i"%char -> ICloudClient.uid_of (String c rest) = ICloudClient.NoMatch).
Proof.
  intros Hlt.
  assert (Hsafe : ICloudClient.exact_number uid = true)
    by (now apply N.ltb_lt).
  split; [now apply uid_of_message_id|]. split; [|split].
  - intros uid' text H1 H2.
    assert (Hsafe' : ICloudClient.exact_number uid' = true).
    { unfold ICloudClient.message_id in H2.
      now destruct (ICloudClient.exact_number uid'). }
    destruct (uid_of_message_id uid Hsafe) as (t1 & Ht1 & Hu1).
    destruct (uid_of_message_id uid' Hsafe') as (t2 & Ht2 & Hu2).
    assert (t1 = text) by congruence. assert (t2 = text) by congruence.
    subst t1 t2. rewrite Hu1 in Hu2. now injection Hu2.
  - reflexivity.
  - intros c rest Hc. unfold ICloudClient.uid_of.
    destruct c as [[] [] [] [] [] [] [] []]; try reflexivity. contradiction.
Qed.

(** The message with uid 42 has the id "icloud_42", which is read back
    to 42. *)
Lemma icloud_id_round_trip_witness :
  ICloudClient.message_id 42 = Some "icloud_42"
  /\ ICloudClient.uid_of "icloud_42" = ICloudClient.Uid 42.
Proof.
  assert (Hlt : (42 < 2 ^ 53)%N) by (vm_compute; reflexivity).
  destruct (icloud_id_round_trip 42 Hlt) as ((text & Hid & Huid) & _).
  assert (Htext : ICloudClient.message_id 42 = Some "icloud_42")
    by (vm_compute; reflexivity).
  assert (text = "icloud_42") by congruence. subst text.
  split; [exact Htext|exact Huid].
Defined.

(** ** The daemon tools of the server *)

Section ServerFacts.

Context {W : Type} (E : Env W).

(** How [start] leaves the running flag. *)
Lemma start_running_flag (st : St W) :
  _isRunning (dmn st) = false ->
  match start E st with
  | (Ok _, st') => _isRunning (dmn st') = true
  | (Throw e, st') => startup_fatal e /\ _isRunning (dmn st') = false
  end.
Proof.
  intros Hstopped. pose proof (start_outcome E st Hstopped) as Hout.
  rewrite (start_unfold E st Hstopped) in *.
  destruct (startup E st) as [[[]|e] st1].
  - set (st2 := with_dmn (set_isRunning true) st1).
    destruct (processEmailsOnce_closed E _ (cycles_keep_lifecycle E) st2)
      as (_ & Hr & _).
    cbn [with_action with_dmn dmn arm_timer set_intervalId _isRunning].
    rewrite Hr. reflexivity.
  - split; [exact Hout|reflexivity].
Qed.

Lemma forceProcessing_ok (st : St W) :
  _isRunning (dmn st) = true -> fst (forceProcessing E st) = Ok tt.
Proof.
  intros Hrun. unfold forceProcessing, bind, get_dmn. cbn [fst snd].
  rewrite Hrun. cbn [negb]. apply processEmailsOnce_total.
Qed.

End ServerFacts.

(** The [start_daemon] tool.  While a daemon is running it answers
    "already running" and changes nothing.  Otherwise it constructs a
    new daemon and starts it: either it reports the start, and the
    daemon it holds is running; or it reports one of the two startup
    errors of the daemon, and holds a daemon that is not running.  Called
    with neither [enableGmail] nor [enableIcloud] set, it always fails
    with "No email clients available", whatever the environment; a
    [force_processing] after that is refused. *)
Theorem start_daemon_tool_outcomes {W : Type} (E : Env W)
    (args : Server.StartArgs) (s : Server.Srv W) :
  let out := Server.startDaemon E args s in
  (Server.daemon_running s = true -> out = (Server.AlreadyRunning, s))
  /\ (Server.daemon_running s = false ->
      (fst out = Server.StartedReply
                   (obsidianVaultPath (Server.configuration_of args))
                   (daemon_intervalMinutes (Server.configuration_of args))
                   (Server.flag (Server.a_enableGmail args))
                   (Server.flag (Server.a_enableIcloud args))
       /\ Server.daemon_running (snd out) = true)
      \/ (exists e, startup_fatal e
                    /\ fst out = Server.StartFailed (error_message e)
                    /\ Server.daemon_running (snd out) = false
                    /\ Server.srv_daemon (snd out) <> None))
  /\ (Server.daemon_running s = false ->
      Server.flag (Server.a_enableGmail args) = false ->
      Server.flag (Server.a_enableIcloud args) = false ->
      fst out = Server.StartFailed "No email clients available - check configuration"
      /\ Server.forceProcessingTool E (snd out) = (Server.ForceNotRunning, snd out)).
Proof.
  cbv zeta. unfold Server.startDaemon.
  set (fresh := mkSt (Server.srv_world s)
                     (constructor (Server.configuration_of args) no_override)
                     (Server.srv_log s)).
  assert (Hstopped : _isRunning (dmn fresh) = false) by reflexivity.
  split; [intros ->; reflexivity|].
  split.
  - intros ->. pose proof (start_running_flag E fresh Hstopped) as Hflag.
    destruct (start E fresh) as [[[]|e] st']; cbn [fst snd].
    + left. split; [reflexivity|exact Hflag].
    + right. exists e. destruct Hflag as [Hfatal Hoff].
      split; [exact Hfatal|]. split; [reflexivity|]. split; [exact Hoff|discriminate].
  - intros -> Hg Hi.
    destruct (start_without_clients E fresh Hstopped) as (Hres & _ & Hoff & _).
    { cbn. rewrite Hg. reflexivity. }
    { cbn. rewrite Hi. reflexivity. }
    unfold result, exec in Hres, Hoff.
    destruct (start E fresh) as [[[]|e] st']; cbn [fst snd] in *; [discriminate|].
    injection Hres as ->. split; [reflexivity|].
    unfold Server.forceProcessingTool, Server.holding. cbn [Server.srv_daemon].
    now rewrite Hoff.
Qed.

(** The [force_processing] tool never reports a failure: it answers
    "not running" and changes nothing when the server holds no daemon or
    a daemon that is not running, and it reports completion otherwise,
    whatever the rule store, the mail sources, the extractor, the
    reminder sink and the file system do during the cycle. *)
Theorem force_tool_never_reports_failure {W : Type} (E : Env W) (s : Server.Srv W) :
  let out := Server.forceProcessingTool E s in
  (forall errorMessage, fst out <> Server.ForceFailed errorMessage)
  /\ (Server.daemon_running s = false -> out = (Server.ForceNotRunning, s))
  /\ (Server.daemon_running s = true ->
      fst out = Server.ForceCompleted
      /\ Server.daemon_running (snd out) = true).
Proof.
  cbv zeta. unfold Server.forceProcessingTool, Server.daemon_running.
  destruct (Server.srv_daemon s) as [d|] eqn:Hd.
  2: { split; [discriminate|]. split; [reflexivity|discriminate]. }
  destruct (_isRunning d) eqn:Hrun; cbn [negb].
  2: { split; [discriminate|]. split; [reflexivity|discriminate]. }
  set (st := mkSt (Server.srv_world s) d (Server.srv_log s)).
  pose proof (forceProcessing_ok E st Hrun) as Hok.
  assert (Hkeep : _isRunning (dmn (exec (forceProcessing E) st)) = true).
  { unfold exec, forceProcessing, bind, get_dmn. cbn [fst snd].
    change (dmn st) with d. rewrite Hrun. cbn [negb].
    destruct (processEmailsOnce_closed E _ (cycles_keep_lifecycle E) st)
      as (_ & Hr & _).
    unfold exec in Hr. rewrite Hr. exact Hrun. }
  unfold exec in Hkeep.
  destruct (forceProcessing E st) as [[[]|e] st']; cbn [fst snd] in *;
    [|discriminate Hok].
  split; [discriminate|]. split; [discriminate|]. intros _.
  split; [reflexivity|exact Hkeep].
Qed.
